(** * pympc/plot.py: the plotting helpers, embedded and verified

    The module under study is a set of six functions that turn trajectories
    and explicit-MPC solutions into pyplot calls.  The embedding is shallow:

    - Python [int]s are [Z], floats are exact rationals [Q], a 1-d
      [numpy.ndarray] is a [list Q], a 2-d one is a shape with an entry
      function; numpy's [linspace] is written over an arithmetic, read over
      the rationals by the functions and over binary64 (the kernel's floats)
      where the rounding of a time axis is computed;
    - a function that calls pyplot is a computation in the monad [Py]: it
      either returns or raises, it emits the pyplot calls it made (also the
      ones made before an exception), and it threads numpy's global random
      generator;
    - pyplot itself is given by its state machine on a figure ([draw]): the
      current axes, and what every call does to them.  The calls record
      their arguments, [plt.xlim] as matplotlib sets the limits (a singular
      range is expanded); the argument validation of matplotlib is not
      modelled. *)

From Stdlib Require Import List ZArith QArith Bool String Ascii Lia.
From Stdlib Require Import DecimalString Qabs.
From Stdlib Require PrimFloat Uint63.
Import ListNotations.

Open Scope string_scope.
Open Scope list_scope.
Open Scope Z_scope.

(** ** Python values and exceptions *)

Inductive exn : Type :=
| ValueError (msg : string)
| IndexError
| TypeError (msg : string)
| UnboundLocalError (name : string).

Definition is_ValueError (e : exn) : bool :=
  match e with ValueError _ => true | _ => false end.

(** [**kwargs]: keyword arguments passed through to matplotlib. *)
Definition kwargs : Type := list (string * string).

Definition has_key (k : string) (kw : kwargs) : bool :=
  existsb (fun p => String.eqb (fst p) k) kw.

(** [len(l)] *)
Definition len {A : Type} (l : list A) : Z := Z.of_nat (List.length l).

(** [range(n)]: empty when [n <= 0]. *)
Definition range (n : Z) : list Z := map Z.of_nat (seq 0 (Z.to_nat n)).

(** [str(i)] for an [int]. *)
Definition str (i : Z) : string := NilZero.string_of_int (Z.to_int i).

(** [str(l)] for a list of [int]s: ['[1, 2, 3]']. *)
Definition str_list (l : list Z) : string :=
  ("[" ++ String.concat ", " (map str l) ++ "]")%string.

(** ** Numeric arrays *)

(** A 1-d array (or a Python list of floats). *)
Definition vec : Type := list Q.

(** A 2-d array: its [shape] and its entries.  Entries outside the shape
    are never read. *)
Record ndarray : Type := mk_ndarray {
  shape : nat * nat;
  item : nat -> nat -> Q
}.

Definition of_rows (rows : list (list Q)) : ndarray :=
  {| shape := (List.length rows, List.length (hd [] rows));
     item := fun i j => nth j (nth i rows []) 0%Q |}.

(** A polyhedron [{x | A x <= b}] of pympc's geometry module, as far as the
    plotting code reads it. *)
Module Polyhedron.
Record t : Type := mk {
  A : ndarray;
  center : vec;
  vertices : list vec
}.
End Polyhedron.

Record CriticalRegion : Type := mk_cr {
  polyhedron : Polyhedron.t;
  active_set : list Z
}.

Record ExplicitSolution : Type := mk_es {
  critical_regions : list CriticalRegion;
  V : vec -> Q
}.

Record MultiParametricQuadraticProgram : Type := mk_mpqp {
  get_feasible_set : Polyhedron.t
}.

(** ** pyplot calls *)

Inductive drawstyle : Type := default_style | steps_pre.

(** The line object that [plt.plot] and [plt.step] return. *)
Record Line2D : Type := mk_line {
  style : drawstyle;
  xdata : list Q;
  ydata : list Q;
  fmt : option string;
  label : option string;
  line_kw : kwargs
}.

Inductive call : Type :=
| Subplot (nrows ncols index : Z)
| Draw (l : Line2D)
| Text (x y : Q) (s : string)
| Scatter (x y : Q) (color edgecolor : string) (zorder : Z)
| Xlabel (s : string)
| Ylabel (s : string)
| Xlim (lo hi : Q)
| Legend (handles : list Line2D) (labels : list string) (loc : Z)
| PolyhedronPlot (p : Polyhedron.t) (facecolor : option vec) (kw : kwargs)
| Contour (X Y Z : list (list Q))
| Colorbar
| Title (s : string).

(** ** numpy's global random generator

    [np.random.rand] reads the next numbers of the sequence that the seed
    fixed and advances the generator. *)
Record RandomState : Type := mk_rng {
  stream : nat -> Q;
  pos : nat
}.

(** ** The monad of the plotting code *)

Definition Py (A : Type) : Type :=
  RandomState -> (exn + A) * list call * RandomState.

Definition ret {A : Type} (a : A) : Py A := fun g => (inr a, [], g).

Definition raise {A : Type} (e : exn) : Py A := fun g => (inl e, [], g).

(** The calls [w] were made before the run [x]. *)
Definition after {A : Type} (w : list call)
    (x : (exn + A) * list call * RandomState)
  : (exn + A) * list call * RandomState :=
  match x with (r, w', g) => (r, w ++ w', g) end.

Definition bind {A B : Type} (m : Py A) (k : A -> Py B) : Py B :=
  fun g =>
    match m g with
    | (inl e, w, g') => (inl e, w, g')
    | (inr a, w, g') => after w (k a g')
    end.

Declare Scope py_scope.
Delimit Scope py_scope with py.
Notation "x <- m ;; k" := (bind m (fun x => k))
  (at level 61, m at next level, right associativity) : py_scope.
Notation "m ;; k" := (bind m (fun _ => k))
  (at level 61, right associativity) : py_scope.
Open Scope py_scope.

(** A pure computation that may raise. *)
Definition lift {A : Type} (r : exn + A) : Py A :=
  match r with inl e => raise e | inr a => ret a end.

Definition emit (c : call) : Py unit := fun g => (inr tt, [c], g).

(** The three observations of a run. *)
Definition result {A : Type} (m : Py A) (g : RandomState) : exn + A :=
  fst (fst (m g)).
Definition calls {A : Type} (m : Py A) (g : RandomState) : list call :=
  snd (fst (m g)).
Definition generator {A : Type} (m : Py A) (g : RandomState) : RandomState :=
  snd (m g).

(** [for a in l: body(a)], with the local variables the body assigns
    threaded through the iterations. *)
Fixpoint for_ {A S : Type} (l : list A) (body : A -> S -> Py S) (s : S)
  : Py S :=
  match l with
  | [] => ret s
  | a :: l' => s' <- body a s ;; for_ l' body s'
  end.

(** [[f(a) for a in l]] *)
Fixpoint comprehension {A B : Type} (f : A -> exn + B) (l : list A)
  : exn + list B :=
  match l with
  | [] => inr []
  | a :: l' =>
      match f a with
      | inl e => inl e
      | inr b =>
          match comprehension f l' with
          | inl e => inl e
          | inr bs => inr (b :: bs)
          end
      end
  end.

(** [l[i]]: negative indices count from the end. *)
Definition getitem {A : Type} (l : list A) (i : Z) : exn + A :=
  let j := if i <? 0 then i + len l else i in
  if (0 <=? j) && (j <? len l) then
    match nth_error l (Z.to_nat j) with
    | Some a => inr a
    | None => inl IndexError
    end
  else inl IndexError.

(** [l[i][j]] *)
Definition getitem2 (x : list vec) (i j : Z) : exn + Q :=
  match getitem x i with
  | inl e => inl e
  | inr v => getitem v j
  end.

(** [max(l)] and [min(l)] of the builtins: the first extremal element, and a
    [ValueError] on an empty list. *)
Definition py_max (l : list Q) : exn + Q :=
  match l with
  | [] => inl (ValueError "max() arg is an empty sequence")
  | a :: l' => inr (fold_left (fun m b => if Qlt_le_dec m b then b else m) l' a)
  end.

Definition py_min (l : list Q) : exn + Q :=
  match l with
  | [] => inl (ValueError "min() arg is an empty sequence")
  | a :: l' => inr (fold_left (fun m b => if Qlt_le_dec b m then b else m) l' a)
  end.

(** ** Arithmetic

    The operations on floats that numpy's [linspace] uses.  [exact] is the
    arithmetic of the rationals, over which the functions are modelled;
    [binary64.arith] below is the arithmetic of Python's floats. *)

Record arithmetic (F : Type) : Type := mk_arithmetic {
  of_int : Z -> F;
  plus : F -> F -> F;
  minus : F -> F -> F;
  times : F -> F -> F;
  over : F -> F -> F;
  is_zero : F -> bool
}.

Arguments of_int {F} _ _.
Arguments plus {F} _ _ _.
Arguments minus {F} _ _ _.
Arguments times {F} _ _ _.
Arguments over {F} _ _ _.
Arguments is_zero {F} _ _.

Definition exact : arithmetic Q :=
  mk_arithmetic Q inject_Z Qplus Qminus Qmult Qdiv (fun q => Qeq_bool q 0).

(** Sample [k] of [np.linspace(start, stop, div + 1)], before the last one
    is set to [stop]: [k * step + start] with [step = (stop - start) / div],
    and [(k / div) * (stop - start) + start] when the step is zero (numpy's
    handling of denormal steps). *)
Definition linspace_sample {F : Type} (a : arithmetic F) (start stop : F)
    (div : Z) (k : nat) : F :=
  let delta := minus a stop start in
  let step := over a delta (of_int a div) in
  plus a
    (if is_zero a step
     then times a (over a (of_int a (Z.of_nat k)) (of_int a div)) delta
     else times a (of_int a (Z.of_nat k)) step)
    start.

(** [np.linspace(start, stop, num)]: [num] evenly spaced samples, the
    last one set to [stop] when there are two or more ([y[-1] = stop]);
    a single sample is [0 * (stop - start) + start]. *)
Definition linspace_in {F : Type} (a : arithmetic F) (start stop : F)
    (num : Z) : exn + list F :=
  if num <? 0 then
    inl (ValueError
           ("Number of samples, " ++ str num ++ ", must be non-negative.")%string)
  else
    match Z.to_nat num with
    | O => inr []
    | S O => inr [plus a (times a (of_int a 0) (minus a stop start)) start]
    | S (S n) =>
        inr (map (linspace_sample a start stop (num - 1)) (seq 0 (S n))
             ++ [stop])
    end.



(** Python's floats: binary64, round to nearest even. *)
Module binary64.
Import PrimFloat.





End binary64.

(** ** numpy *)

Module np.

(** [np.linspace(start, stop, num)] over the rationals. *)
Definition linspace (start stop : Q) (num : Z) : exn + vec :=
  linspace_in exact start stop num.

(** [np.ones(t.shape)] *)
Definition ones (t : vec) : vec := map (fun _ => 1%Q) t.

(** [c * a] for a scalar [c] *)
Definition scale (c : Q) (a : vec) : vec := map (fun e => (c * e)%Q) a.

(** [C.dot(v)] for a matrix [C] and a 1-d array [v]. *)
Definition dot (C : ndarray) (v : vec) : exn + vec :=
  if Nat.eqb (snd (shape C)) (List.length v) then
    inr (map (fun i =>
                fold_left Qplus
                  (map (fun j => (item C i j * nth j v 0)%Q)
                       (seq 0 (snd (shape C))))
                  0%Q)
             (seq 0 (fst (shape C))))
  else inl (ValueError "shapes not aligned").

(** [np.meshgrid(x, y)]: both of shape [(len(y), len(x))]. *)
Definition meshgrid (x y : vec) : list vec * list vec :=
  (map (fun _ => x) y, map (fun yi => map (fun _ => yi) x) y).

(** [np.ravel(X)] *)
Definition ravel (X : list vec) : vec := List.concat X.

(** [zs.reshape((rows, cols))] for [len(zs) == rows * cols]. *)
Fixpoint reshape (zs : vec) (rows cols : nat) : list vec :=
  match rows with
  | O => []
  | S r => firstn cols zs :: reshape (skipn cols zs) r cols
  end.

(** [np.random.rand(3)] *)
Definition random_rand3 : Py vec :=
  fun g =>
    (inr [stream g (pos g); stream g (S (pos g)); stream g (S (S (pos g)))],
     [],
     {| stream := stream g; pos := (3 + pos g)%nat |}).

End np.

(** ** pyplot *)

Module plt.

Definition subplot (nrows ncols index : Z) : Py unit :=
  emit (Subplot nrows ncols index).

(** [plt.plot(xs, ys, fmt, label=label, **kw)]; returns the line. *)
Definition plot (xs ys : list Q) (f : option string) (lbl : option string)
    (kw : kwargs) : Py Line2D :=
  let l := mk_line default_style xs ys f lbl kw in
  emit (Draw l) ;; ret l.

(** [plt.step(xs, ys, fmt)]; returns the line. *)
Definition step (xs ys : list Q) (f : string) : Py Line2D :=
  let l := mk_line steps_pre xs ys (Some f) None [] in
  emit (Draw l) ;; ret l.

Definition text (x y : Q) (s : string) : Py unit := emit (Text x y s).

Definition scatter (x y : Q) (color edgecolor : string) (zorder : Z)
  : Py unit := emit (Scatter x y color edgecolor zorder).

Definition xlabel (s : string) : Py unit := emit (Xlabel s).
Definition ylabel (s : string) : Py unit := emit (Ylabel s).
Definition xlim (lo hi : Q) : Py unit := emit (Xlim lo hi).

Definition legend (handles : list Line2D) (labels : list string) (loc : Z)
  : Py unit := emit (Legend handles labels loc).

Definition contour (X Y Z : list (list Q)) : Py unit := emit (Contour X Y Z).
Definition colorbar : Py unit := emit Colorbar.
Definition title (s : string) : Py unit := emit (Title s).

End plt.

(** [polyhedron.plot(facecolor=fc, **kw)]: a keyword given twice is a
    [TypeError] at the call. *)
Definition polyhedron_plot (p : Polyhedron.t) (facecolor : option vec)
    (kw : kwargs) : Py unit :=
  match facecolor with
  | Some fc =>
      if has_key "facecolor" kw then
        raise (TypeError "got multiple values for keyword argument 'facecolor'")
      else emit (PolyhedronPlot p (Some fc) kw)
  | None => emit (PolyhedronPlot p None kw)
  end.

(** ** The functions of plot.py *)

(** [x[t][dim[k]]] *)
Definition component (x : list vec) (t : Z) (dim : list Z) (k : Z) : Py Q :=
  x_t <- lift (getitem x t) ;;
  d <- lift (getitem dim k) ;;
  lift (getitem x_t d).

Definition plot_state_space_trajectory (x : list vec) (dim : list Z)
    (text : bool) (label : option string) (kw : kwargs) : Py unit :=
  (* check inputs *)
  (if negb (len dim =? 2) then
     raise (ValueError "can plot only 2-dimensional trajectories.")
   else ret tt) ;;
  (* plot trajectory *)
  for_ (range (len x - 1)) (fun t _ =>
    (if t =? 0 then
       a0 <- component x 0 dim 0 ;;
       a1 <- component x 1 dim 0 ;;
       b0 <- component x 0 dim 1 ;;
       b1 <- component x 1 dim 1 ;;
       plt.plot [a0; a1] [b0; b1] None label kw ;;
       ret tt
     else ret tt) ;;
    a0 <- component x t dim 0 ;;
    a1 <- component x (t + 1) dim 0 ;;
    b0 <- component x t dim 1 ;;
    b1 <- component x (t + 1) dim 1 ;;
    plt.plot [a0; a1] [b0; b1] None None kw ;;
    ret tt) tt ;;
  (* plot text *)
  for_ (range (len x)) (fun t _ =>
    if text then
      a <- lift (getitem2 x t 0) ;;
      b <- lift (getitem2 x t 1) ;;
      plt.text a b ("$x(" ++ str t ++ ")$")
    else ret tt) tt ;;
  (* scatter initial condition *)
  a <- component x 0 dim 0 ;;
  b <- component x 0 dim 1 ;;
  plt.scatter a b "w" "k" 3 ;;
  (* axis labels *)
  d0 <- lift (getitem dim 0) ;;
  plt.xlabel ("$x_{" ++ str (d0 + 1) ++ "}$") ;;
  d1 <- lift (getitem dim 1) ;;
  plt.ylabel ("$x_{" ++ str (d1 + 1) ++ "}$").

(** The bounds of a subplot: [for bound in bounds: bound_plot, = plt.step(t,
    bound[i]*np.ones(t.shape), 'r')].  The local [bound_plot] keeps its
    value when the list is empty. *)
Definition plot_bounds (t : vec) (i : Z) (bounds : list vec)
    (bound_plot : option Line2D) : Py (option Line2D) :=
  for_ bounds (fun bound _ =>
    b_i <- lift (getitem bound i) ;;
    l <- plt.step t (np.scale b_i (np.ones t)) "r" ;;
    ret (Some l)) bound_plot.

(** Reading the local variable [bound_plot]. *)
Definition read_bound_plot (bound_plot : option Line2D) : Py Line2D :=
  match bound_plot with
  | Some l => ret l
  | None => raise (UnboundLocalError "bound_plot")
  end.

Definition plot_input_sequence (u : list vec) (h : Q)
    (u_bounds : option (list vec)) : Py unit :=
  (* dimension of the input *)
  u_0 <- lift (getitem u 0) ;;
  let nu := len u_0 in
  (* time axis *)
  let N := len u in
  t <- lift (np.linspace 0 (inject_Z N * h) (N + 1)) ;;
  (* plot each input element separately *)
  for_ (range nu) (fun i bound_plot =>
    plt.subplot nu 1 (i + 1) ;;
    (* plot input sequence *)
    u_i_sequence <- lift (comprehension (fun k => getitem2 u k i) (range N)) ;;
    u_i_0 <- lift (getitem u_i_sequence 0) ;;
    input_plot <- plt.step t ([u_i_0] ++ u_i_sequence) "b" ;;
    (* plot bounds if provided *)
    bound_plot <- match u_bounds with
                  | Some bounds => plot_bounds t i bounds bound_plot
                  | None => ret bound_plot
                  end ;;
    (* miscellaneous *)
    plt.ylabel ("$u_{" ++ str (i + 1) ++ "}$") ;;
    plt.xlim 0 (inject_Z N * h) ;;
    (if i =? 0 then
       match u_bounds with
       | Some _ =>
           b <- read_bound_plot bound_plot ;;
           plt.legend [input_plot; b] ["Optimal control"; "Control bounds"] 1
       | None => plt.legend [input_plot] ["Optimal control"] 1
       end
     else ret tt) ;;
    ret bound_plot) None ;;
  plt.xlabel "$t$".

Definition plot_state_trajectory (x : list vec) (h : Q)
    (x_bounds : option (list vec)) : Py unit :=
  (* dimension of the state *)
  x_0 <- lift (getitem x 0) ;;
  let nx := len x_0 in
  (* time axis *)
  let N := len x - 1 in
  t <- lift (np.linspace 0 (inject_Z N * h) (N + 1)) ;;
  (* plot each state element separately *)
  for_ (range nx) (fun i bound_plot =>
    plt.subplot nx 1 (i + 1) ;;
    (* plot state trajectory *)
    x_i_trajectory <- lift (comprehension (fun k => getitem2 x k i)
                                          (range (N + 1))) ;;
    state_plot <- plt.plot t x_i_trajectory (Some "b") None [] ;;
    (* plot bounds if provided *)
    bound_plot <- match x_bounds with
                  | Some bounds => plot_bounds t i bounds bound_plot
                  | None => ret bound_plot
                  end ;;
    (* miscellaneous *)
    plt.ylabel ("$x_{" ++ str (i + 1) ++ "}$") ;;
    plt.xlim 0 (inject_Z N * h) ;;
    (if i =? 0 then
       match x_bounds with
       | Some _ =>
           b <- read_bound_plot bound_plot ;;
           plt.legend [state_plot; b] ["Optimal trajectory"; "State bounds"] 1
       | None => plt.legend [state_plot] ["Optimal trajectory"] 1
       end
     else ret tt) ;;
    ret bound_plot) None ;;
  plt.xlabel "$t$".

Definition plot_output_trajectory (C : ndarray) (x : list vec) (h : Q)
    (y_bounds : option (list vec)) : Py unit :=
  (* apply linear transformation *)
  y <- lift (comprehension (np.dot C) x) ;;
  (* number of plots *)
  let ny := Z.of_nat (fst (shape C)) in
  (* time axis *)
  let N := len x - 1 in
  t <- lift (np.linspace 0 (inject_Z N * h) (N + 1)) ;;
  (* plot each state element separately *)
  for_ (range ny) (fun i bound_plot =>
    plt.subplot ny 1 (i + 1) ;;
    (* plot state trajectory *)
    y_i_trajectory <- lift (comprehension (fun k => getitem2 y k i)
                                          (range (N + 1))) ;;
    output_plot <- plt.plot t y_i_trajectory (Some "b") None [] ;;
    (* plot bounds if provided *)
    bound_plot <- match y_bounds with
                  | Some bounds => plot_bounds t i bounds bound_plot
                  | None => ret bound_plot
                  end ;;
    (* miscellaneous options *)
    plt.ylabel ("$y_{" ++ str (i + 1) ++ "}$") ;;
    plt.xlim 0 (inject_Z N * h) ;;
    (if i =? 0 then
       match y_bounds with
       | Some _ =>
           b <- read_bound_plot bound_plot ;;
           plt.legend [output_plot; b] ["Optimal trajectory"; "Output bounds"] 1
       | None => plt.legend [output_plot] ["Optimal trajectory"] 1
       end
     else ret tt) ;;
    ret bound_plot) None ;;
  plt.xlabel "$t$".

(** [explicit_solution.critical_regions[0].polyhedron.A.shape[1]] *)
Definition partition_dimension (explicit_solution : ExplicitSolution) : Py Z :=
  cr_0 <- lift (getitem (critical_regions explicit_solution) 0) ;;
  ret (Z.of_nat (snd (shape (Polyhedron.A (polyhedron cr_0))))).

Definition plot_partition_explicit_solution
    (explicit_solution : ExplicitSolution) (print_active_set : bool)
    (kw : kwargs) : Py unit :=
  (* check that the required plot is 2d *)
  n <- partition_dimension explicit_solution ;;
  (if negb (n =? 2) then
     raise (ValueError "can plot only 2-dimensional partitions.")
   else ret tt) ;;
  (* plot every critical region with random colors *)
  for_ (critical_regions explicit_solution) (fun cr _ =>
    facecolor <- np.random_rand3 ;;
    polyhedron_plot (polyhedron cr) (Some facecolor) kw ;;
    (* if required print active sets *)
    if print_active_set then
      c0 <- lift (getitem (Polyhedron.center (polyhedron cr)) 0) ;;
      c1 <- lift (getitem (Polyhedron.center (polyhedron cr)) 1) ;;
      plt.text c0 c1 (str_list (active_set cr))
    else ret tt) tt.

Definition plot_value_function_mpqp (mpqp : MultiParametricQuadraticProgram)
    (explicit_solution : ExplicitSolution) (resolution : Z) (kw : kwargs)
  : Py unit :=
  (* check dimension of the state *)
  n <- partition_dimension explicit_solution ;;
  (if negb (n =? 2) then
     raise (ValueError "can plot only 2-dimensional partitions.")
   else ret tt) ;;
  (* get feasible set *)
  let feasible_set := get_feasible_set mpqp in
  let vertices := Polyhedron.vertices feasible_set in
  (* create box containing the feasible set *)
  v0 <- lift (comprehension (fun v => getitem v 0) vertices) ;;
  x_max <- lift (py_max v0) ;;
  v0 <- lift (comprehension (fun v => getitem v 0) vertices) ;;
  x_min <- lift (py_min v0) ;;
  v1 <- lift (comprehension (fun v => getitem v 1) vertices) ;;
  y_max <- lift (py_max v1) ;;
  v1 <- lift (comprehension (fun v => getitem v 1) vertices) ;;
  y_min <- lift (py_min v1) ;;
  (* create grid *)
  x <- lift (np.linspace x_min x_max resolution) ;;
  y <- lift (np.linspace y_min y_max resolution) ;;
  let (X, Y) := np.meshgrid x y in
  (* evaluate grid *)
  let zs := map (fun p => V explicit_solution [fst p; snd p])
                (combine (np.ravel X) (np.ravel Y)) in
  let Z := np.reshape zs (List.length y) (List.length x) in
  (* plot *)
  polyhedron_plot feasible_set None kw ;;
  plt.contour X Y Z ;;
  plt.colorbar ;;
  plt.title "$V^*(x)$".

(** ** The figure that the calls build

    pyplot keeps a current axes; [plt.subplot(n, m, i)] makes the axes at
    that position current (creating them when the figure has none there),
    and every other call acts on the current axes (creating the default
    ones, at position (1, 1, 1), when there are none yet). *)

Record Axes : Type := mk_axes {
  ax_lines : list Line2D;
  ax_texts : list (Q * Q * string);
  ax_collections : list call;
  ax_xlabel : option string;
  ax_ylabel : option string;
  ax_xlim : option (Q * Q);
  ax_legend : option (list (Line2D * string));
  ax_title : option string
}.

Definition new_axes : Axes := mk_axes [] [] [] None None None None None.

Definition position : Type := (Z * Z * Z)%type.

Definition position_eqb (p q : position) : bool :=
  match p, q with
  | (a, b, c), (a', b', c') => (a =? a') && (b =? b') && (c =? c')
  end.

Record Figure : Type := mk_figure {
  axes : position -> option Axes;
  current : option position
}.

Definition new_figure : Figure := mk_figure (fun _ => None) None.

(** [plt.gca()]: the position of the current axes. *)
Definition gca (f : Figure) : position :=
  match current f with Some p => p | None => (1, 1, 1) end.

Definition axes_at (f : Figure) (p : position) : Axes :=
  match axes f p with Some a => a | None => new_axes end.

Definition set_axes (f : Figure) (p : position) (a : Axes) : Figure :=
  mk_figure (fun q => if position_eqb q p then Some a else axes f q) (Some p).

(** [Axes.set_xlim(left, right)] as matplotlib 3 sets the limits: the
    locator's [nonsingular(left, right)], with [expander = 0.05] and
    [tiny = 1e-15], widens a range that is singular (as [plt.xlim((0., 0.))]
    is, which gives [(-0.05, 0.05)]), and the order given is restored. *)
Definition expander : Q := 1 # 20.
Definition tiny : Q := Qmake 1 (10 ^ 15).

(** [(1e6 / tiny) * np.finfo(float).tiny], that is [1e21 * 2 ** -1022]. *)
Definition smallest_range : Q := Qmake (10 ^ 21) (2 ^ 1022).

Definition Qltb (a b : Q) : bool := negb (Qle_bool b a).

Definition nonsingular (vmin vmax : Q) : Q * Q :=
  let swapped := Qltb vmax vmin in
  let lo := if swapped then vmax else vmin in
  let hi := if swapped then vmin else vmax in
  let maxabsvalue := if Qle_bool (Qabs lo) (Qabs hi) then Qabs hi else Qabs lo in
  if Qltb maxabsvalue smallest_range then ((- expander)%Q, expander)
  else if Qle_bool (hi - lo) (maxabsvalue * tiny) then
    if Qeq_bool hi 0 && Qeq_bool lo 0 then ((- expander)%Q, expander)
    else ((lo - expander * Qabs lo)%Q, (hi + expander * Qabs hi)%Q)
  else (lo, hi).

Definition set_lim (v0 v1 : Q) : Q * Q :=
  let reverse := Qltb v1 v0 in
  let (lo, hi) := nonsingular v0 v1 in
  if reverse then (hi, lo) else (lo, hi).

(** What a call other than [plt.subplot] does to the axes it acts on. *)
Definition artist (c : call) (a : Axes) : Axes :=
  match c with
  | Subplot _ _ _ => a
  | Draw l =>
      mk_axes (ax_lines a ++ [l]) (ax_texts a) (ax_collections a) (ax_xlabel a)
              (ax_ylabel a) (ax_xlim a) (ax_legend a) (ax_title a)
  | Text x y s =>
      mk_axes (ax_lines a) (ax_texts a ++ [(x, y, s)]) (ax_collections a)
              (ax_xlabel a) (ax_ylabel a) (ax_xlim a) (ax_legend a) (ax_title a)
  | Scatter _ _ _ _ _ | PolyhedronPlot _ _ _ | Contour _ _ _ | Colorbar =>
      mk_axes (ax_lines a) (ax_texts a) (ax_collections a ++ [c]) (ax_xlabel a)
              (ax_ylabel a) (ax_xlim a) (ax_legend a) (ax_title a)
  | Xlabel s =>
      mk_axes (ax_lines a) (ax_texts a) (ax_collections a) (Some s)
              (ax_ylabel a) (ax_xlim a) (ax_legend a) (ax_title a)
  | Ylabel s =>
      mk_axes (ax_lines a) (ax_texts a) (ax_collections a) (ax_xlabel a)
              (Some s) (ax_xlim a) (ax_legend a) (ax_title a)
  | Xlim lo hi =>
      mk_axes (ax_lines a) (ax_texts a) (ax_collections a) (ax_xlabel a)
              (ax_ylabel a) (Some (set_lim lo hi)) (ax_legend a) (ax_title a)
  | Legend handles labels _ =>
      mk_axes (ax_lines a) (ax_texts a) (ax_collections a) (ax_xlabel a)
              (ax_ylabel a) (ax_xlim a) (Some (combine handles labels))
              (ax_title a)
  | Title s =>
      mk_axes (ax_lines a) (ax_texts a) (ax_collections a) (ax_xlabel a)
              (ax_ylabel a) (ax_xlim a) (ax_legend a) (Some s)
  end.

Definition draw (f : Figure) (c : call) : Figure :=
  match c with
  | Subplot n m i => set_axes f (n, m, i) (axes_at f (n, m, i))
  | _ => set_axes f (gca f) (artist c (axes_at f (gca f)))
  end.

Definition render (f : Figure) (w : list call) : Figure := fold_left draw w f.

(** The figure that a computation leaves when it starts on a new one. *)
Definition figure_of {A : Type} (m : Py A) (g : RandomState) : Figure :=
  render new_figure (calls m g).

(** The pyplot calls of one kind in a trace. *)
Definition is_subplot (c : call) : bool :=
  match c with Subplot _ _ _ => true | _ => false end.
Definition is_text (c : call) : bool :=
  match c with Text _ _ _ => true | _ => false end.
Definition is_legend (c : call) : bool :=
  match c with Legend _ _ _ => true | _ => false end.

(** ** Well-formed arguments *)

(** The number of components of the vectors of a trajectory: [x[0].shape[0]]. *)
Definition dimension (x : list vec) : nat := List.length (hd [] x).

(** Every vector of the trajectory has the components of the first one. *)
Definition rectangular (x : list vec) : Prop :=
  Forall (fun v => (dimension x <= List.length v)%nat) x.

(** The bounds are absent, or a non-empty list (lower and upper bound, as
    documented) of vectors with a component for every subplot. *)
Definition bounds_ok (n : nat) (bounds : option (list vec)) : Prop :=
  match bounds with
  | None => True
  | Some bs => bs <> [] /\ Forall (fun v => (n <= List.length v)%nat) bs
  end.

(** Component [i] of every vector of a trajectory. *)
Definition component_series (i : nat) (x : list vec) : list Q :=
  map (fun v => nth i v 0%Q) x.

(** The line of a bound in subplot [i]. *)
Definition bound_line (t : vec) (i : nat) (bound : vec) : Line2D :=
  mk_line steps_pre t (np.scale (nth i bound 0%Q) (np.ones t)) (Some "r") None [].

(** The time axis [k * h] for [k = 0 .. N]. *)
Definition time_axis (h : Q) (t : vec) (N : nat) : Prop :=
  List.length t = S N /\
  forall k, (k <= N)%nat -> (nth k t 0 == inject_Z (Z.of_nat k) * h)%Q.

(** The calls of subplot [i] of a time-series figure with [n] subplots:
    the series [line], the bounds, the label and limits, and on the first
    subplot the legend. *)
Definition subplot_calls (n : nat) (t : vec) (hi : Q) (line : nat -> Line2D)
    (bounds : option (list vec)) (ylab : Z -> string)
    (names : string * string) (i : nat) : list call :=
  [Subplot (Z.of_nat n) 1 (Z.of_nat i + 1); Draw (line i)] ++
  map (fun b => Draw (bound_line t i b))
      (match bounds with Some bs => bs | None => [] end) ++
  [Ylabel (ylab (Z.of_nat i)); Xlim 0 hi] ++
  (if Nat.eqb i 0 then
     match bounds with
     | Some bs =>
         [Legend [line i; bound_line t i (last bs [])] [fst names; snd names] 1]
     | None => [Legend [line i] [fst names] 1]
     end
   else []).

(** The time axis of the time-series plots: [np.linspace(0, N*h, N+1)]. *)
Definition time_points (h : Q) (N : Z) : vec :=
  match np.linspace 0 (inject_Z N * h) (N + 1) with
  | inr t => t
  | inl _ => []
  end.

(** The stepped line of component [i] of an input sequence:
    [[u_i_sequence[0]] + u_i_sequence] against the time axis. *)
Definition input_line (u : list vec) (h : Q) (i : nat) : Line2D :=
  mk_line steps_pre (time_points h (len u))
          (nth i (hd [] u) 0%Q :: component_series i u) (Some "b") None [].

(** The line of component [i] of a state trajectory. *)
Definition state_line (x : list vec) (h : Q) (i : nat) : Line2D :=
  mk_line default_style (time_points h (len x - 1)) (component_series i x)
          (Some "b") None [].

(** The output trajectory [y[k] = C.dot(x[k])], where the shapes agree. *)
Definition outputs (C : ndarray) (x : list vec) : list vec :=
  map (fun x_t => match np.dot C x_t with inr y_t => y_t | inl _ => [] end) x.

(** The line of component [i] of an output trajectory. *)
Definition output_line (C : ndarray) (x : list vec) (h : Q) (i : nat)
  : Line2D :=
  mk_line default_style (time_points h (len x - 1))
          (component_series i (outputs C x)) (Some "b") None [].

Definition u_label (i : Z) : string := "$u_{" ++ str (i + 1) ++ "}$".
Definition x_label (i : Z) : string := "$x_{" ++ str (i + 1) ++ "}$".
Definition y_label (i : Z) : string := "$y_{" ++ str (i + 1) ++ "}$".

(** The local [bound_plot] at the end of the iteration for subplot [i]. *)
Definition next_bound_plot (t : vec) (bounds : option (list vec)) (i : nat)
    (s : option Line2D) : option Line2D :=
  match bounds with
  | Some bs => Some (bound_line t i (last bs []))
  | None => s
  end.

(** Every state has as many components as [C] has columns. *)
Definition aligned (C : ndarray) (x : list vec) : Prop :=
  Forall (fun v => List.length v = snd (shape C)) x.

(** The lines of the bounds in subplot [i]. *)
Definition bound_lines (t : vec) (bounds : option (list vec)) (i : nat)
  : list Line2D :=
  map (bound_line t i) (match bounds with Some bs => bs | None => [] end).

(** The entries of the legend of the first subplot. *)
Definition legend_entries (t : vec) (line : nat -> Line2D)
    (bounds : option (list vec)) (names : string * string)
  : list (Line2D * string) :=
  match bounds with
  | Some bs => [(line 0%nat, fst names); (bound_line t 0 (last bs []), snd names)]
  | None => [(line 0%nat, fst names)]
  end.

(** The position of subplot [i] (counted from 0) among [n] stacked ones. *)
Definition subplot_position (n i : nat) : position :=
  (Z.of_nat n, 1, Z.of_nat i + 1).

(** The axes of subplot [i] once its calls are made, from the axes [a]
    found there. *)
Definition subplot_axes (t : vec) (hi : Q) (line : nat -> Line2D)
    (bounds : option (list vec)) (ylab : Z -> string)
    (names : string * string) (i : nat) (a : Axes) : Axes :=
  mk_axes (ax_lines a ++ line i :: bound_lines t bounds i)
          (ax_texts a) (ax_collections a) (ax_xlabel a)
          (Some (ylab (Z.of_nat i))) (Some (set_lim 0 hi))
          (if Nat.eqb i 0 then Some (legend_entries t line bounds names)
           else ax_legend a)
          (ax_title a).

(** [d] is an index of [v]: [-len(v) <= d < len(v)]. *)
Definition valid_index {A : Type} (v : list A) (d : Z) : Prop :=
  - len v <= d < len v.

(** [x[t][d]] where the indices are valid. *)
Definition coord (x : list vec) (t : nat) (d : Z) : Q :=
  match getitem (nth t x []) d with inr a => a | inl _ => 0%Q end.

(** The segment from [x[t]] to [x[t+1]] in the plane of the components
    [d0] and [d1]. *)
Definition segment (x : list vec) (d0 d1 : Z) (lbl : option string)
    (kw : kwargs) (t : nat) : Line2D :=
  mk_line default_style [coord x t d0; coord x (S t) d0]
          [coord x t d1; coord x (S t) d1] None lbl kw.

(** The calls of the trajectory loop of [plot_state_space_trajectory] at
    step [t]. *)
Definition segment_calls (x : list vec) (d0 d1 : Z) (lbl : option string)
    (kw : kwargs) (t : nat) : list call :=
  (if Nat.eqb t 0 then [Draw (segment x d0 d1 lbl kw 0)] else []) ++
  [Draw (segment x d0 d1 None kw t)].

(** The annotation of [x[t]]. *)
Definition annotation (x : list vec) (t : nat) : call :=
  Text (nth 0 (nth t x []) 0%Q) (nth 1 (nth t x []) 0%Q)
       ("$x(" ++ str (Z.of_nat t) ++ ")$").

(** What [plot_state_space_trajectory] needs of its arguments to return:
    a first state, the two selected components in every state, and
    components 0 and 1 in every state when the annotations are wanted. *)
Definition trajectory_ok (x : list vec) (d0 d1 : Z) (text : bool) : Prop :=
  Forall (fun v => valid_index v d0 /\ valid_index v d1 /\
                   (text = true -> (2 <= List.length v)%nat)) x.

(** The calls of [plot_state_space_trajectory]. *)
Definition state_space_calls (x : list vec) (d0 d1 : Z) (text : bool)
    (lbl : option string) (kw : kwargs) : list call :=
  flat_map (segment_calls x d0 d1 lbl kw) (seq 0 (List.length x - 1)) ++
  (if text then map (annotation x) (seq 0 (List.length x)) else []) ++
  [Scatter (coord x 0 d0) (coord x 0 d1) "w" "k" 3;
   Xlabel (x_label d0); Ylabel (x_label d1)].

(** A generator for the examples: the numbers 1/2, 1/3, 1/4, ... *)
Definition seed0 : RandomState :=
  mk_rng (fun n => 1 # Pos.of_succ_nat (S n))%Q 0.

(** Arguments for the examples: two vectors of two components, bounds for
    both components, and a 1 x 2 output matrix. *)
Definition two_vectors : list vec := [[1; 2]; [3; 4]]%Q.
Definition two_bounds : option (list vec) := Some [[-5; -5]; [5; 5]]%Q.
Definition sum_matrix : ndarray := of_rows [[1; 1]]%Q.

(** A triangle in the plane, an explicit solution with two critical regions
    on it, and a vector of three components, for the examples. *)
Definition triangle : Polyhedron.t :=
  Polyhedron.mk (of_rows [[-1; 0]; [0; -1]; [1; 1]]%Q) [1 # 3; 1 # 3]%Q
                [[0; 0]; [1; 0]; [0; 1]]%Q.
Definition two_regions : ExplicitSolution :=
  mk_es [mk_cr triangle [0; 2]; mk_cr triangle []]
        (fun v => fold_left Qplus v 0%Q).
Definition three_components : list vec := [[1; 2; 3]; [4; 5; 6]]%Q.
Definition three_columns : ndarray := of_rows [[1; 0; 0]; [0; 1; 0]; [0; 0; 1]]%Q.

(** ** Random colours *)

(** A call without its face colour. *)
Definition erase_facecolor (c : call) : call :=
  match c with
  | PolyhedronPlot p _ kw => PolyhedronPlot p None kw
  | _ => c
  end.

(** The face colours of the polyhedra drawn, in order. *)
Definition facecolors (w : list call) : list vec :=
  flat_map (fun c => match c with
                     | PolyhedronPlot _ (Some fc) _ => [fc]
                     | _ => []
                     end) w.

(** The [j]-th triple of numbers that the generator will give. *)
Definition rand3_at (g : RandomState) (j : nat) : vec :=
  [stream g (pos g + 3 * j)%nat; stream g (S (pos g + 3 * j));
   stream g (S (S (pos g + 3 * j)))].

(** A computation that does not use the random generator: it does the same
    whatever the generator is, and leaves it as it was. *)
Definition deterministic {A : Type} (m : Py A) : Prop :=
  forall g g', result m g = result m g' /\ calls m g = calls m g' /\
               generator m g = g.

(** The body of the loop of [plot_partition_explicit_solution], and its
    part after the colour is drawn. *)
Definition region_drawing (print_active_set : bool) (kw : kwargs)
    (cr : CriticalRegion) (facecolor : vec) : Py unit :=
  polyhedron_plot (polyhedron cr) (Some facecolor) kw ;;
  if print_active_set then
    c0 <- lift (getitem (Polyhedron.center (polyhedron cr)) 0) ;;
    c1 <- lift (getitem (Polyhedron.center (polyhedron cr)) 1) ;;
    plt.text c0 c1 (str_list (active_set cr))
  else ret tt.

Definition region_body (print_active_set : bool) (kw : kwargs)
    (cr : CriticalRegion) (_ : unit) : Py unit :=
  facecolor <- np.random_rand3 ;;
  region_drawing print_active_set kw cr facecolor.

(** The generator after [np.random.rand(3)]. *)
Definition advance (g : RandomState) : RandomState :=
  mk_rng (stream g) (3 + pos g).

(** ** What a computation may emit and raise *)

Definition sound {A : Type} (P : call -> Prop) (Q : exn -> Prop) (m : Py A)
  : Prop :=
  forall g, Forall P (calls m g) /\ forall e, result m g = inl e -> Q e.

Definition not_ValueError (e : exn) : Prop := is_ValueError e = false.

(** The run raises a [ValueError]. *)
Definition raises_ValueError {A : Type} (m : Py A) (g : RandomState) : bool :=
  match result m g with
  | inl e => is_ValueError e
  | inr _ => false
  end.

(** [cr.polyhedron.A.shape[1]] *)
Definition columns (cr : CriticalRegion) : Z :=
  Z.of_nat (snd (shape (Polyhedron.A (polyhedron cr)))).

(** The legend calls have [k] handles and [k] labels. *)
Definition legend_size (k : nat) (c : call) : Prop :=
  match c with
  | Legend handles labels _ =>
      List.length handles = k /\ List.length labels = k
  | _ => True
  end.

Definition entries (bounds : option (list vec)) : nat :=
  match bounds with Some _ => 2%nat | None => 1%nat end.

(** The legend of a figure of [n] stacked subplots: the first subplot has
    one, with an entry for the series and, when bounds are given, an entry
    for the bounds, named as [names] says, whose handles are lines of that
    subplot; the other subplots have none. *)
Definition legend_on_first_subplot (F : Figure) (n : nat)
    (bounds : option (list vec)) (names : string * string) : Prop :=
  forall i, (i < n)%nat ->
    let a := axes_at F (subplot_position n i) in
    if Nat.eqb i 0 then
      exists l,
        ax_legend a = Some l /\
        List.length l = entries bounds /\
        map snd l = firstn (entries bounds) [fst names; snd names] /\
        hd_error (map fst l) = hd_error (ax_lines a) /\
        incl (map fst l) (ax_lines a)
    else ax_legend a = None.

(** What the bounds must be for subplot [i] to be finished, when the local
    [bound_plot] is [s] on entry: a component [i] in every bound, and a
    bound to assign [bound_plot] before the legend of the first subplot
    reads it. *)
Definition bounds_fit (bounds : option (list vec)) (i : nat)
    (s : option Line2D) : Prop :=
  match bounds with
  | None => True
  | Some bs =>
      Forall (fun v => (i < List.length v)%nat) bs /\
      (i = 0%nat -> s = None -> bs <> [])
  end.

(** [aligned], decided. *)
Definition alignedb (C : ndarray) (x : list vec) : bool :=
  forallb (fun v => Nat.eqb (List.length v) (snd (shape C))) x.

(** A line of a bound: a red step line over the time axis [t], constant at
    the value [c]. *)
Definition horizontal (t : vec) (c : Q) (l : Line2D) : Prop :=
  style l = steps_pre /\ fmt l = Some "r" /\ xdata l = t /\
  List.length (ydata l) = List.length t /\
  Forall (fun y => (y == c)%Q) (ydata l).

(** The bounds as a list: none for [None]. *)
Definition bounds_list (bounds : option (list vec)) : list vec :=
  match bounds with Some bs => bs | None => [] end.

(** What is drawn for a critical region, the face colour left out: its
    polyhedron and, when asked for, its active set at its centre. *)
Definition region_drawn (print_active_set : bool) (kw : kwargs)
    (cr : CriticalRegion) : list call :=
  PolyhedronPlot (polyhedron cr) None kw ::
  (if print_active_set then
     [Text (nth 0 (Polyhedron.center (polyhedron cr)) 0%Q)
           (nth 1 (Polyhedron.center (polyhedron cr)) 0%Q)
           (str_list (active_set cr))]
   else []).

(** The arguments on which [plot_partition_explicit_solution] returns: a
    first critical region in two dimensions, no face colour among the
    keyword arguments and, when the active sets are printed, a centre with
    two coordinates in every region. *)
Definition partition_ok (es : ExplicitSolution) (print_active_set : bool)
    (kw : kwargs) : Prop :=
  (exists cr rest, critical_regions es = cr :: rest /\ columns cr = 2) /\
  has_key "facecolor" kw = false /\
  (print_active_set = true ->
   Forall (fun cr => (2 <= List.length (Polyhedron.center (polyhedron cr)))%nat)
          (critical_regions es)).

(** The values of [f] on the grid of the abscissae [x] and the ordinates
    [y]: row [i], column [j] holds [f([x[j], y[i]])]. *)
Definition grid_values (f : vec -> Q) (x y : vec) : list vec :=
  map (fun y_i => map (fun x_j => f [x_j; y_i]) x) y.

(** Coordinate [k] of every vertex. *)
Definition coordinates (k : nat) (vertices : list vec) : list Q :=
  map (fun v => nth k v 0%Q) vertices.

(** The arguments on which [plot_value_function_mpqp] returns: a first
    critical region in two dimensions, a feasible set with vertices of two
    coordinates at least, and a resolution that is not negative. *)
Definition value_function_ok (mpqp : MultiParametricQuadraticProgram)
    (es : ExplicitSolution) (resolution : Z) : Prop :=
  (exists cr rest, critical_regions es = cr :: rest /\ columns cr = 2) /\
  Polyhedron.vertices (get_feasible_set mpqp) <> [] /\
  Forall (fun v => (2 <= List.length v)%nat)
         (Polyhedron.vertices (get_feasible_set mpqp)) /\
  0 <= resolution.

Definition is_draw (c : call) : bool :=
  match c with Draw _ => true | _ => false end.
Definition is_scatter (c : call) : bool :=
  match c with Scatter _ _ _ _ _ => true | _ => false end.

(* ================================================================== *)
(** * Properties *)

(** ** Runs on concrete arguments *)

Example str_examples :
  (str 12, str (-5), str 0, str_list [0; 2; 13]) = ("12", "-5", "0", "[0, 2, 13]").
Proof. reflexivity. Qed.

Example negative_index : getitem [1; 2; 3] (-1) = inr 3 /\
                         getitem [1; 2; 3] (-4) = inl IndexError /\
                         getitem [1; 2; 3] 3 = inl IndexError.
Proof. repeat split. Qed.

Example linspace_example :
  np.linspace 0 (inject_Z 2 * (1 # 2)) 3 = inr [0 # 4; 2 # 4; 2 # 2]%Q.
Proof. reflexivity. Qed.

Example plot_state_trajectory_example :
  plot_state_trajectory two_vectors (1 # 2) None seed0
  = (inr tt,
     [Subplot 2 1 1;
      Draw (mk_line default_style [0 # 2; 1 # 2]%Q [1; 3]%Q (Some "b") None []);
      Ylabel "$x_{1}$"; Xlim 0 (1 # 2);
      Legend [mk_line default_style [0 # 2; 1 # 2]%Q [1; 3]%Q (Some "b") None []]
             ["Optimal trajectory"] 1;
      Subplot 2 1 2;
      Draw (mk_line default_style [0 # 2; 1 # 2]%Q [2; 4]%Q (Some "b") None []);
      Ylabel "$x_{2}$"; Xlim 0 (1 # 2);
      Xlabel "$t$"],
     seed0).
Proof. reflexivity. Qed.

Example plot_state_space_trajectory_example :
  calls (plot_state_space_trajectory [[1; 2; 7]; [3; 4; 8]]%Q [-1; 1] true
           (Some "run") []) seed0
  = [Draw (mk_line default_style [7; 8]%Q [2; 4]%Q None (Some "run") []);
     Draw (mk_line default_style [7; 8]%Q [2; 4]%Q None None []);
     Text 1 2 "$x(0)$"; Text 3 4 "$x(1)$";
     Scatter 7 2 "w" "k" 3; Xlabel "$x_{0}$"; Ylabel "$x_{2}$"].
Proof. reflexivity. Qed.

Example ragged_input_sequence :
  result (plot_input_sequence [[1; 2]; [3]]%Q 1 None) seed0 = inl IndexError.
Proof. reflexivity. Qed.

Example misaligned_output :
  result (plot_output_trajectory sum_matrix three_components 1 None) seed0
  = inl (ValueError "shapes not aligned").
Proof. reflexivity. Qed.

Example no_critical_region :
  result (plot_partition_explicit_solution (mk_es [] (fun _ => 0%Q)) false [])
         seed0
  = inl IndexError.
Proof. reflexivity. Qed.

Example facecolor_given_twice :
  result (plot_partition_explicit_solution two_regions false
            [("facecolor", "red")]) seed0
  = inl (TypeError "got multiple values for keyword argument 'facecolor'").
Proof. reflexivity. Qed.

Example feasible_set_without_vertices :
  result (plot_value_function_mpqp
            (mk_mpqp (Polyhedron.mk (of_rows []) [] [])) two_regions 3 [])
         seed0
  = inl (ValueError "max() arg is an empty sequence").
Proof. reflexivity. Qed.

Example value_function_example :
  calls (plot_value_function_mpqp (mk_mpqp triangle) two_regions 2 []) seed0
  = [PolyhedronPlot triangle None [];
     Contour [[0; 1]; [0; 1]]%Q [[0; 0]; [1; 1]]%Q [[0; 1]; [1; 2]]%Q;
     Colorbar; Title "$V^*(x)$"].
Proof. reflexivity. Qed.

(** ** Runs of the monad *)

Lemma after_nil {A : Type} (x : (exn + A) * list call * RandomState) :
  after [] x = x.
Proof. destruct x as [[r w] g]. reflexivity. Qed.

Lemma after_after {A : Type} (w w' : list call)
    (x : (exn + A) * list call * RandomState) :
  after w (after w' x) = after (w ++ w') x.
Proof. destruct x as [[r v] g]. simpl. now rewrite app_assoc. Qed.

Lemma bind_ok {A B : Type} (m : Py A) (k : A -> Py B) g a w g' :
  m g = (inr a, w, g') -> bind m k g = after w (k a g').
Proof. intros H. unfold bind. now rewrite H. Qed.

Lemma bind_err {A B : Type} (m : Py A) (k : A -> Py B) g e w g' :
  m g = (inl e, w, g') -> bind m k g = (inl e, w, g').
Proof. intros H. unfold bind. now rewrite H. Qed.

Lemma bind_lift_ok {A B : Type} (a : A) (k : A -> Py B) g :
  bind (lift (inr a)) k g = k a g.
Proof. unfold bind. simpl. apply after_nil. Qed.

Lemma bind_ret {A B : Type} (a : A) (k : A -> Py B) g :
  bind (ret a) k g = k a g.
Proof. unfold bind. simpl. apply after_nil. Qed.

Lemma bind_emit {B : Type} (c : call) (k : unit -> Py B) g :
  bind (emit c) k g = after [c] (k tt g).
Proof. reflexivity. Qed.

Lemma bind_step {B : Type} t ys f (k : Line2D -> Py B) g :
  bind (plt.step t ys f) k g
  = after [Draw (mk_line steps_pre t ys (Some f) None [])]
          (k (mk_line steps_pre t ys (Some f) None []) g).
Proof. reflexivity. Qed.

Lemma bind_plot {B : Type} xs ys f lbl kw (k : Line2D -> Py B) g :
  bind (plt.plot xs ys f lbl kw) k g
  = after [Draw (mk_line default_style xs ys f lbl kw)]
          (k (mk_line default_style xs ys f lbl kw) g).
Proof. reflexivity. Qed.

Lemma bind_assoc {A B C : Type} (m : Py A) (k : A -> Py B) (k' : B -> Py C) g :
  bind (bind m k) k' g = bind m (fun a => bind (k a) k') g.
Proof.
  unfold bind. destruct (m g) as [[[e | a] w] g1]; [reflexivity |].
  destruct (k a g1) as [[[e | b] w1] g2]; simpl; [reflexivity |].
  destruct (k' b g2) as [[r w2] g3]. simpl. now rewrite app_assoc.
Qed.

(** A loop whose iterations all return, whatever the locals are on entry. *)
Lemma for_runs {A S : Type} (l : list A) (body : A -> S -> Py S)
    (W : A -> list call) (next : A -> S -> S) g :
  (forall a s, In a l -> body a s g = (inr (next a s), W a, g)) ->
  forall s, exists s', for_ l body s g = (inr s', flat_map W l, g).
Proof.
  induction l as [| a l IH]; intros H s; simpl.
  - now exists s.
  - destruct (IH (fun b s0 Hb => H b s0 (or_intror Hb)) (next a s)) as [s' Hs'].
    exists s'. rewrite (bind_ok _ _ _ _ _ _ (H a s (or_introl eq_refl))).
    rewrite Hs'. reflexivity.
Qed.

(** ** Indexing, ranges and comprehensions *)

Lemma range_of_nat (n : nat) : range (Z.of_nat n) = map Z.of_nat (seq 0 n).
Proof. unfold range. now rewrite Nat2Z.id. Qed.

Lemma range_len {A : Type} (l : list A) :
  range (len l) = map Z.of_nat (seq 0 (List.length l)).
Proof. apply range_of_nat. Qed.

Lemma getitem_nat {A : Type} (l : list A) (i : nat) (d : A) :
  (i < List.length l)%nat -> getitem l (Z.of_nat i) = inr (nth i l d).
Proof.
  intros H. unfold getitem, len.
  destruct (Z.ltb_spec (Z.of_nat i) 0) as [Hn | _]; [lia |].
  destruct (Z.leb_spec 0 (Z.of_nat i)) as [_ | Hn]; [| lia].
  destruct (Z.ltb_spec (Z.of_nat i) (Z.of_nat (List.length l))) as [_ | Hn];
    [| lia].
  simpl. rewrite Nat2Z.id.
  destruct (nth_error l i) as [a |] eqn:E.
  - now rewrite (nth_error_nth _ _ d E).
  - apply nth_error_None in E. lia.
Qed.

Lemma getitem_first {A : Type} (a : A) (l : list A) :
  getitem (a :: l) 0 = inr a.
Proof. apply (getitem_nat (a :: l) 0 a). simpl. lia. Qed.

Lemma getitem_second {A : Type} (a b : A) (l : list A) :
  getitem (a :: b :: l) 1 = inr b.
Proof. apply (getitem_nat (a :: b :: l) 1 a). simpl. lia. Qed.

Lemma getitem_nil {A : Type} (i : Z) : getitem (@nil A) i = inl IndexError.
Proof.
  unfold getitem, len. simpl.
  destruct (i <? 0) eqn:E; simpl.
  - rewrite Z.add_0_r.
    destruct (Z.leb_spec 0 i); simpl; [apply Z.ltb_lt in E; lia | reflexivity].
  - destruct (Z.leb_spec 0 i); simpl; [| reflexivity].
    destruct (Z.ltb_spec i 0); [lia | reflexivity].
Qed.

(** Indexing raises nothing but [IndexError]. *)
Lemma getitem_error {A : Type} (l : list A) (i : Z) e :
  getitem l i = inl e -> e = IndexError.
Proof.
  unfold getitem.
  destruct ((0 <=? _) && _); [destruct (nth_error _ _) |]; congruence.
Qed.

Lemma getitem2_error (x : list vec) (i j : Z) e :
  getitem2 x i j = inl e -> e = IndexError.
Proof.
  unfold getitem2. destruct (getitem x i) eqn:E.
  - intros H. inversion H; subst. eauto using getitem_error.
  - apply getitem_error.
Qed.

Lemma getitem2_nat (x : list vec) (k i : nat) :
  (k < List.length x)%nat -> (i < List.length (nth k x []))%nat ->
  getitem2 x (Z.of_nat k) (Z.of_nat i) = inr (nth i (nth k x []) 0%Q).
Proof.
  intros Hk Hi. unfold getitem2.
  rewrite (getitem_nat x k [] Hk). now apply getitem_nat.
Qed.

Lemma comprehension_ok {A B : Type} (f : A -> exn + B) (v : A -> B) l :
  (forall a, In a l -> f a = inr (v a)) -> comprehension f l = inr (map v l).
Proof.
  induction l as [| a l IH]; intros H; simpl; [reflexivity |].
  rewrite (H a (or_introl eq_refl)), IH; [reflexivity |].
  intros b Hb. apply H. now right.
Qed.

Lemma comprehension_error {A B : Type} (f : A -> exn + B) l (P : exn -> Prop) e :
  (forall a e', f a = inl e' -> P e') -> comprehension f l = inl e -> P e.
Proof.
  intros Hf. induction l as [| a l IH]; simpl; [discriminate |].
  destruct (f a) eqn:Ea.
  - intros H. inversion H; subst. eauto.
  - destruct (comprehension f l); [| discriminate].
    intros H. inversion H; subst. now apply IH.
Qed.

Lemma nth_map_seq {A : Type} (f : nat -> A) (n k : nat) (d : A) :
  (k < n)%nat -> nth k (map f (seq 0 n)) d = f k.
Proof.
  intros H. rewrite (nth_indep _ d (f 0%nat)) by now rewrite length_map, length_seq.
  rewrite map_nth. now rewrite seq_nth.
Qed.

Lemma map_nth_seq {A : Type} (l : list A) (d : A) :
  map (fun k => nth k l d) (seq 0 (List.length l)) = l.
Proof.
  apply nth_ext with (d := d) (d' := d).
  - now rewrite length_map, length_seq.
  - intros n Hn. rewrite length_map, length_seq in Hn.
    now rewrite nth_map_seq.
Qed.

(** [[x[k][i] for k in range(len(x))]] is component [i] of the trajectory. *)
Lemma component_comprehension (x : list vec) (i : nat) :
  Forall (fun v => (i < List.length v)%nat) x ->
  comprehension (fun k => getitem2 x k (Z.of_nat i)) (range (len x))
  = inr (component_series i x).
Proof.
  intros H. rewrite range_len.
  rewrite (comprehension_ok _ (fun k => nth i (nth (Z.to_nat k) x []) 0%Q)).
  - f_equal. unfold component_series. rewrite map_map.
    rewrite <- (map_nth_seq x []) at 2. rewrite map_map.
    apply map_ext. intros k. now rewrite Nat2Z.id.
  - intros a Ha. apply in_map_iff in Ha. destruct Ha as [k [<- Hk]].
    apply in_seq in Hk. rewrite Nat2Z.id. apply getitem2_nat; [lia |].
    rewrite Forall_forall in H. apply H. apply nth_In. lia.
Qed.

(** ** The time axis *)

(** Over the rationals the points of the time axis are the multiples of
    the time step.  (In Python's floats they are so up to rounding only;
    the theorems on the time axis below state what holds in every
    arithmetic, see [linspace_samples].) *)
Lemma linspace_time_axis (h : Q) (N : nat) :
  exists t, np.linspace 0 (inject_Z (Z.of_nat N) * h) (Z.of_nat N + 1) = inr t
            /\ time_axis h t N.
Proof.
  unfold np.linspace, linspace_in.
  destruct (Z.ltb_spec (Z.of_nat N + 1) 0) as [Hn | _]; [lia |].
  replace (Z.to_nat (Z.of_nat N + 1)) with (S N) by lia.
  destruct N as [| n].
  - eexists. split; [reflexivity |]. split; [reflexivity |].
    intros k Hk. replace k with 0%nat by lia. simpl. ring.
  - eexists. split; [reflexivity |]. split.
    + now rewrite length_app, length_map, length_seq, Nat.add_comm.
    + intros k Hk. destruct (Nat.eq_dec k (S n)) as [-> | Hne].
      * rewrite app_nth2; rewrite length_map, length_seq; [| lia].
        rewrite Nat.sub_diag. simpl nth. reflexivity.
      * rewrite app_nth1 by (rewrite length_map, length_seq; lia).
        rewrite nth_map_seq by lia.
        replace (Z.of_nat (S n) + 1 - 1) with (Z.of_nat (S n)) by lia.
        assert (Hdiv : ~ (inject_Z (Z.of_nat (S n)) == 0)%Q).
        { intros H0.
          assert (H1 : (inject_Z (Z.of_nat (S n)) == inject_Z 0)%Q) by exact H0.
          rewrite inject_Z_injective in H1. lia. }
        unfold linspace_sample. cbn [exact of_int plus minus times over is_zero].
        destruct (Qeq_bool _ 0); field; exact Hdiv.
Qed.

Lemma time_points_axis (h : Q) (N : nat) :
  np.linspace 0 (inject_Z (Z.of_nat N) * h) (Z.of_nat N + 1)
  = inr (time_points h (Z.of_nat N))
  /\ time_axis h (time_points h (Z.of_nat N)) N.
Proof.
  destruct (linspace_time_axis h N) as [t [E Ht]].
  unfold time_points. rewrite E. now split.
Qed.


(** ** The calls of the time-series plots *)

Ltac py_run :=
  repeat first
    [ rewrite bind_assoc | rewrite bind_emit | rewrite bind_lift_ok
    | rewrite bind_step | rewrite bind_plot | rewrite bind_ret ].

Lemma for_range_runs {S : Type} (n : nat) (body : Z -> S -> Py S)
    (W : nat -> list call) (next : nat -> S -> S) g :
  (forall i s, (i < n)%nat ->
     body (Z.of_nat i) s g = (inr (next i s), W i, g)) ->
  forall s, exists s',
    for_ (range (Z.of_nat n)) body s g = (inr s', flat_map W (seq 0 n), g).
Proof.
  intros H s. rewrite range_of_nat.
  destruct (for_runs (map Z.of_nat (seq 0 n)) body
              (fun a => W (Z.to_nat a)) (fun a => next (Z.to_nat a)) g)
    with (s := s) as [s' Hs'].
  - intros a s0 Ha. apply in_map_iff in Ha. destruct Ha as [i [<- Hi]].
    apply in_seq in Hi. rewrite Nat2Z.id. apply H. lia.
  - exists s'. rewrite Hs'. f_equal. f_equal.
    rewrite flat_map_concat_map, map_map, <- flat_map_concat_map.
    apply flat_map_ext. intros i. now rewrite Nat2Z.id.
Qed.

Lemma plot_bounds_runs (t : vec) (i : nat) (bounds : list vec) bp g :
  Forall (fun v => (i < List.length v)%nat) bounds ->
  plot_bounds t (Z.of_nat i) bounds bp g
  = (inr (fold_left (fun _ b => Some (bound_line t i b)) bounds bp),
     map (fun b => Draw (bound_line t i b)) bounds, g).
Proof.
  unfold plot_bounds. intros H. revert bp.
  induction H as [| b bs Hb _ IH]; intros bp; cbn [for_ map fold_left];
    [reflexivity |].
  rewrite (getitem_nat b i 0%Q Hb). py_run. rewrite IH. reflexivity.
Qed.

Lemma last_bound_plot (t : vec) (i : nat) (bounds : list vec) bp :
  bounds <> [] ->
  fold_left (fun _ b => Some (bound_line t i b)) bounds bp
  = Some (bound_line t i (last bounds [])).
Proof.
  revert bp. induction bounds as [| b bs IH]; intros bp H; [congruence |].
  destruct bs as [| c bs]; [reflexivity |].
  change (fold_left (fun _ b0 => Some (bound_line t i b0)) (c :: bs)
            (Some (bound_line t i b))
          = Some (bound_line t i (last (c :: bs) []))).
  apply IH. discriminate.
Qed.

Lemma rectangular_component (x : list vec) (i : nat) :
  rectangular x -> (i < dimension x)%nat ->
  Forall (fun v => (i < List.length v)%nat) x.
Proof.
  unfold rectangular. intros H Hi. eapply Forall_impl; [| exact H].
  simpl. intros v Hv. lia.
Qed.

Lemma bounds_component (n i : nat) (bs : list vec) :
  Forall (fun v => (n <= List.length v)%nat) bs -> (i < n)%nat ->
  Forall (fun v => (i < List.length v)%nat) bs.
Proof.
  intros H Hi. eapply Forall_impl; [| exact H]. simpl. intros v Hv. lia.
Qed.

(** The part of an iteration after the series is drawn: bounds, label,
    limits and legend. *)
Ltac finish_subplot t i s Hb Hi :=
  let bs := fresh "bs" in
  let Hbs := fresh "Hbs" in
  let Hdim := fresh "Hdim" in
  match goal with
  | |- context [match ?b with Some _ => _ | None => _ end] =>
      destruct b as [bs |]
  end;
  [ destruct Hb as [Hbs Hdim];
    rewrite (bind_ok _ _ _ _ _ _
               (plot_bounds_runs t i bs s _ (bounds_component _ i bs Hdim Hi)));
    py_run; rewrite (last_bound_plot t i bs s Hbs)
  | py_run ];
  (destruct i;
   [ simpl (Z.of_nat 0 =? 0); unfold read_bound_plot, plt.legend; py_run
   | match goal with
     | |- context [Z.of_nat (S ?j) =? 0] =>
         replace (Z.of_nat (S j) =? 0) with false
           by (symmetry; apply Z.eqb_neq; lia)
     end; py_run ]);
  unfold subplot_calls; simpl; reflexivity.

Lemma time_points_eq (h : Q) (N : Z) :
  -1 <= N ->
  np.linspace 0 (inject_Z N * h) (N + 1) = inr (time_points h N).
Proof.
  intros H. unfold time_points, np.linspace, linspace_in.
  destruct (Z.ltb_spec (N + 1) 0) as [Hn | _]; [lia |].
  now destruct (Z.to_nat (N + 1)) as [| [| n]].
Qed.


Lemma plot_input_sequence_runs (u : list vec) (h : Q) u_bounds g :
  u <> [] -> rectangular u -> bounds_ok (dimension u) u_bounds ->
  plot_input_sequence u h u_bounds g
  = (inr tt,
     flat_map (subplot_calls (dimension u) (time_points h (len u))
                 (inject_Z (len u) * h) (input_line u h) u_bounds u_label
                 ("Optimal control", "Control bounds"))
              (seq 0 (dimension u)) ++ [Xlabel "$t$"],
     g).
Proof.
  intros Hne Hrect Hb. unfold plot_input_sequence.
  destruct u as [| u_0 u']; [congruence |].
  rewrite getitem_first. py_run.
  rewrite time_points_eq by (unfold len; lia). py_run.
  change (len u_0) with (Z.of_nat (dimension (u_0 :: u'))).
  set (u := u_0 :: u') in *. set (t := time_points h (len u)).
  match goal with
  | |- bind (for_ _ ?body _) _ _ = _ =>
      destruct (for_range_runs (dimension u) body
                  (subplot_calls (dimension u) t (inject_Z (len u) * h)
                     (input_line u h) u_bounds u_label
                     ("Optimal control", "Control bounds"))
                  (next_bound_plot t u_bounds) g) with (s := @None Line2D)
        as [s' Hs']
  end.
  - intros i s Hi. unfold plt.subplot, plt.ylabel, plt.xlim. py_run.
    rewrite (component_comprehension u i (rectangular_component u i Hrect Hi)).
    py_run. subst u. simpl component_series. rewrite getitem_first. py_run.
    finish_subplot t i s Hb Hi.
  - rewrite (bind_ok _ _ _ _ _ _ Hs'). unfold plt.xlabel, emit. reflexivity.
Qed.

Lemma plot_state_trajectory_runs (x : list vec) (h : Q) x_bounds g :
  x <> [] -> rectangular x -> bounds_ok (dimension x) x_bounds ->
  plot_state_trajectory x h x_bounds g
  = (inr tt,
     flat_map (subplot_calls (dimension x) (time_points h (len x - 1))
                 (inject_Z (len x - 1) * h) (state_line x h) x_bounds x_label
                 ("Optimal trajectory", "State bounds"))
              (seq 0 (dimension x)) ++ [Xlabel "$t$"],
     g).
Proof.
  intros Hne Hrect Hb. unfold plot_state_trajectory.
  destruct x as [| x_0 x']; [congruence |].
  rewrite getitem_first. py_run.
  rewrite time_points_eq by (unfold len; lia). py_run.
  change (len x_0) with (Z.of_nat (dimension (x_0 :: x'))).
  set (x := x_0 :: x') in *. set (t := time_points h (len x - 1)).
  replace (len x - 1 + 1) with (len x) by lia.
  match goal with
  | |- bind (for_ _ ?body _) _ _ = _ =>
      destruct (for_range_runs (dimension x) body
                  (subplot_calls (dimension x) t (inject_Z (len x - 1) * h)
                     (state_line x h) x_bounds x_label
                     ("Optimal trajectory", "State bounds"))
                  (next_bound_plot t x_bounds) g) with (s := @None Line2D)
        as [s' Hs']
  end.
  - intros i s Hi. unfold plt.subplot, plt.ylabel, plt.xlim. py_run.
    rewrite (component_comprehension x i (rectangular_component x i Hrect Hi)).
    py_run.
    finish_subplot t i s Hb Hi.
  - rewrite (bind_ok _ _ _ _ _ _ Hs'). unfold plt.xlabel, emit. reflexivity.
Qed.

Lemma dot_aligned (C : ndarray) (v : vec) :
  List.length v = snd (shape C) ->
  exists y, np.dot C v = inr y /\ List.length y = fst (shape C).
Proof.
  intros H. unfold np.dot. rewrite H, Nat.eqb_refl.
  eexists. split; [reflexivity |]. now rewrite length_map, length_seq.
Qed.

Lemma outputs_comprehension (C : ndarray) (x : list vec) :
  aligned C x -> comprehension (np.dot C) x = inr (outputs C x).
Proof.
  intros H. unfold outputs. apply comprehension_ok.
  intros v Hv. unfold aligned in H. rewrite Forall_forall in H.
  destruct (dot_aligned C v (H v Hv)) as [y [E _]]. now rewrite E.
Qed.

Lemma outputs_dimension (C : ndarray) (x : list vec) :
  aligned C x ->
  Forall (fun y_t => List.length y_t = fst (shape C)) (outputs C x).
Proof.
  intros H. unfold outputs. apply Forall_map.
  eapply Forall_impl; [| exact H]. simpl. intros v Hv.
  destruct (dot_aligned C v Hv) as [y [E Hy]]. now rewrite E.
Qed.

Lemma len_outputs (C : ndarray) (x : list vec) : len (outputs C x) = len x.
Proof. unfold len, outputs. now rewrite length_map. Qed.

Lemma plot_output_trajectory_runs (C : ndarray) (x : list vec) (h : Q)
    y_bounds g :
  aligned C x -> bounds_ok (fst (shape C)) y_bounds ->
  plot_output_trajectory C x h y_bounds g
  = (inr tt,
     flat_map (subplot_calls (fst (shape C)) (time_points h (len x - 1))
                 (inject_Z (len x - 1) * h) (output_line C x h) y_bounds
                 y_label ("Optimal trajectory", "Output bounds"))
              (seq 0 (fst (shape C))) ++ [Xlabel "$t$"],
     g).
Proof.
  intros Hal Hb. unfold plot_output_trajectory.
  rewrite (outputs_comprehension C x Hal). py_run.
  rewrite time_points_eq by (unfold len; lia). py_run.
  set (t := time_points h (len x - 1)).
  replace (len x - 1 + 1) with (len (outputs C x)) by (rewrite len_outputs; lia).
  match goal with
  | |- bind (for_ _ ?body _) _ _ = _ =>
      destruct (for_range_runs (fst (shape C)) body
                  (subplot_calls (fst (shape C)) t (inject_Z (len x - 1) * h)
                     (output_line C x h) y_bounds y_label
                     ("Optimal trajectory", "Output bounds"))
                  (next_bound_plot t y_bounds) g) with (s := @None Line2D)
        as [s' Hs']
  end.
  - intros i s Hi. unfold plt.subplot, plt.ylabel, plt.xlim. py_run.
    rewrite (component_comprehension (outputs C x) i).
    + py_run. finish_subplot t i s Hb Hi.
    + eapply Forall_impl; [| exact (outputs_dimension C x Hal)].
      simpl. intros y_t Hy. lia.
  - rewrite (bind_ok _ _ _ _ _ _ Hs'). unfold plt.xlabel, emit. reflexivity.
Qed.

(** ** The figure of a time-series plot *)

Lemma position_eqb_eq (p q : position) : position_eqb p q = true <-> p = q.
Proof.
  destruct p as [[a b] c], q as [[a' b'] c']. simpl.
  rewrite !andb_true_iff, !Z.eqb_eq. split.
  - intros [[-> ->] ->]. reflexivity.
  - intros H. inversion H. auto.
Qed.

Lemma position_eqb_refl (p : position) : position_eqb p p = true.
Proof. now apply position_eqb_eq. Qed.

Lemma position_eqb_neq (p q : position) : p <> q -> position_eqb p q = false.
Proof.
  intros H. destruct (position_eqb p q) eqn:E; [| reflexivity].
  apply position_eqb_eq in E. contradiction.
Qed.

Lemma render_app (f : Figure) (w w' : list call) :
  render f (w ++ w') = render (render f w) w'.
Proof. apply fold_left_app. Qed.

Lemma axes_at_set (f : Figure) (p q : position) (a : Axes) :
  axes_at (set_axes f p a) q = if position_eqb q p then a else axes_at f q.
Proof. unfold axes_at, set_axes. simpl. now destruct (position_eqb q p). Qed.

(** Calls other than [plt.subplot] act on the current axes and leave the
    others alone. *)
Lemma render_artists (body : list call) : forall (f : Figure) (p : position),
  current f = Some p ->
  forallb (fun c => negb (is_subplot c)) body = true ->
  current (render f body) = Some p /\
  forall q, axes_at (render f body) q
            = if position_eqb q p
              then fold_left (fun a c => artist c a) body (axes_at f p)
              else axes_at f q.
Proof.
  induction body as [| c body IH]; intros f p Hcur Hno.
  - split; [exact Hcur |]. intros q. simpl.
    destruct (position_eqb q p) eqn:E; [| reflexivity].
    apply position_eqb_eq in E. now subst.
  - simpl in Hno. apply andb_true_iff in Hno. destruct Hno as [Hc Hno].
    assert (Hd : draw f c = set_axes f p (artist c (axes_at f p))).
    { unfold draw, gca. rewrite Hcur. destruct c; try reflexivity. discriminate. }
    simpl render. rewrite Hd.
    destruct (IH (set_axes f p (artist c (axes_at f p))) p eq_refl Hno)
      as [Hcur' Hax].
    split; [exact Hcur' |]. intros q. rewrite Hax. simpl fold_left.
    rewrite !axes_at_set, position_eqb_refl.
    now destruct (position_eqb q p).
Qed.

Lemma fold_draws (ls : list Line2D) : forall a : Axes,
  fold_left (fun a c => artist c a) (map Draw ls) a
  = mk_axes (ax_lines a ++ ls) (ax_texts a) (ax_collections a) (ax_xlabel a)
            (ax_ylabel a) (ax_xlim a) (ax_legend a) (ax_title a).
Proof.
  induction ls as [| l ls IH]; intros a; simpl.
  - rewrite app_nil_r. now destruct a.
  - rewrite IH. simpl. now rewrite <- app_assoc.
Qed.

Section TimeSeriesFigure.

Variables (n : nat) (t : vec) (hi : Q) (line : nat -> Line2D).
Variables (bounds : option (list vec)) (ylab : Z -> string).
Variable names : string * string.

Let block := subplot_calls n t hi line bounds ylab names.
Let finished := subplot_axes t hi line bounds ylab names.

Lemma subplot_calls_artists (i : nat) :
  forallb (fun c => negb (is_subplot c)) (tl (block i)) = true.
Proof.
  unfold block, subplot_calls. simpl tl. cbn [forallb is_subplot negb andb].
  rewrite forallb_app. apply andb_true_iff. split.
  - rewrite forallb_forall. intros c Hc. apply in_map_iff in Hc.
    now destruct Hc as [b [<- _]].
  - destruct (Nat.eqb i 0); [destruct bounds |]; reflexivity.
Qed.

Lemma subplot_calls_axes (i : nat) (a : Axes) :
  fold_left (fun a c => artist c a) (tl (block i)) a = finished i a.
Proof.
  unfold block, finished, subplot_calls, subplot_axes, bound_lines,
    legend_entries.
  simpl tl. cbn [fold_left]. rewrite fold_left_app.
  rewrite <- (map_map (bound_line t i) Draw), fold_draws.
  destruct (Nat.eqb_spec i 0) as [-> | Hi]; [destruct bounds |];
    simpl; now rewrite <- app_assoc.
Qed.

(** One subplot: its position becomes current, its axes are finished,
    and the other axes are as before. *)
Lemma render_subplot (f : Figure) (i : nat) :
  current (render f (block i)) = Some (subplot_position n i) /\
  forall q, axes_at (render f (block i)) q
            = if position_eqb q (subplot_position n i)
              then finished i (axes_at f (subplot_position n i))
              else axes_at f q.
Proof.
  assert (E : block i = Subplot (Z.of_nat n) 1 (Z.of_nat i + 1) :: tl (block i))
    by reflexivity.
  rewrite E. simpl render.
  destruct (render_artists (tl (block i))
              (set_axes f (subplot_position n i)
                 (axes_at f (subplot_position n i)))
              (subplot_position n i) eq_refl (subplot_calls_artists i))
    as [Hcur Hax].
  split; [exact Hcur |]. intros q. rewrite Hax, subplot_calls_axes.
  rewrite !axes_at_set, position_eqb_refl.
  now destruct (position_eqb q (subplot_position n i)).
Qed.

(** The first [m] subplots. *)
Lemma render_subplots (f : Figure) (m : nat) :
  (forall i, (i < m)%nat ->
     axes_at (render f (flat_map block (seq 0 m))) (subplot_position n i)
     = finished i (axes_at f (subplot_position n i))) /\
  (forall q, (forall i, (i < m)%nat -> q <> subplot_position n i) ->
     axes_at (render f (flat_map block (seq 0 m))) q = axes_at f q) /\
  current (render f (flat_map block (seq 0 m)))
  = match m with
    | O => current f
    | S m' => Some (subplot_position n m')
    end.
Proof.
  induction m as [| m [IHin [IHout _]]].
  - simpl. repeat split; intros; lia || reflexivity.
  - rewrite seq_S, flat_map_app, render_app.
    replace (flat_map block [(0 + m)%nat]) with (block m)
      by (simpl; now rewrite app_nil_r).
    destruct (render_subplot (render f (flat_map block (seq 0 m))) m)
      as [Hcur Hax].
    repeat split.
    + intros i Hi. rewrite Hax.
      destruct (Nat.eq_dec i m) as [-> | Hne].
      * rewrite position_eqb_refl. f_equal. apply IHout.
        intros j Hj E. unfold subplot_position in E. inversion E. lia.
      * rewrite position_eqb_neq.
        -- apply IHin. lia.
        -- unfold subplot_position. intros E. inversion E. lia.
    + intros q Hq. rewrite Hax, position_eqb_neq by (apply Hq; lia).
      apply IHout. intros i Hi. apply Hq. lia.
    + exact Hcur.
Qed.

(** The whole figure, from a new one: every subplot is finished, the
    last one is current and carries the x label. *)
Lemma render_time_series :
  let F := render new_figure (flat_map block (seq 0 n) ++ [Xlabel "$t$"]) in
  (forall i, (i < n)%nat ->
     let a := axes_at F (subplot_position n i) in
     ax_lines a = line i :: bound_lines t bounds i /\
     ax_ylabel a = Some (ylab (Z.of_nat i)) /\
     ax_xlim a = Some (set_lim 0 hi) /\
     ax_legend a = (if Nat.eqb i 0
                    then Some (legend_entries t line bounds names)
                    else None)) /\
  ax_xlabel (axes_at F (gca F)) = Some "$t$" /\
  (forall m, n = S m -> gca F = subplot_position n m).
Proof.
  intros F. subst F. rewrite render_app.
  destruct (render_subplots new_figure n) as [Hin [_ Hcur]].
  set (F0 := render new_figure (flat_map block (seq 0 n))) in *.
  assert (HF : render F0 [Xlabel "$t$"]
               = set_axes F0 (gca F0) (artist (Xlabel "$t$") (axes_at F0 (gca F0))))
    by reflexivity.
  rewrite HF. repeat split.
  - destruct (position_eqb (subplot_position n i) (gca F0)) eqn:E;
      rewrite axes_at_set, E; [apply position_eqb_eq in E; rewrite <- E |];
      rewrite (Hin i H); simpl; reflexivity.
  - destruct (position_eqb (subplot_position n i) (gca F0)) eqn:E;
      rewrite axes_at_set, E; [apply position_eqb_eq in E; rewrite <- E |];
      rewrite (Hin i H); simpl; reflexivity.
  - destruct (position_eqb (subplot_position n i) (gca F0)) eqn:E;
      rewrite axes_at_set, E; [apply position_eqb_eq in E; rewrite <- E |];
      rewrite (Hin i H); simpl; reflexivity.
  - destruct (position_eqb (subplot_position n i) (gca F0)) eqn:E;
      rewrite axes_at_set, E; [apply position_eqb_eq in E; rewrite <- E |];
      rewrite (Hin i H); simpl; now destruct (Nat.eqb i 0).
  - unfold gca at 1. simpl current. rewrite axes_at_set, position_eqb_refl.
    reflexivity.
  - intros m Hm. unfold gca at 1. simpl current. unfold gca.
    rewrite Hcur, Hm. reflexivity.
Qed.

End TimeSeriesFigure.

(** ** What the computations emit and raise *)

Section Sound.

Context {P : call -> Prop} {Q : exn -> Prop}.

Lemma sound_ret {A : Type} (a : A) : sound P Q (ret a).
Proof. intros g. split; [constructor | discriminate]. Qed.

Lemma sound_raise {A : Type} (e : exn) : Q e -> sound P Q (@raise A e).
Proof.
  intros H g. split; [constructor |]. unfold result, raise. simpl.
  intros e' E. now inversion E; subst.
Qed.

Lemma sound_emit (c : call) : P c -> sound P Q (emit c).
Proof. intros H g. split; [now repeat constructor | discriminate]. Qed.

Lemma sound_lift {A : Type} (r : exn + A) :
  (forall e, r = inl e -> Q e) -> sound P Q (lift r).
Proof.
  intros H. destruct r as [e | a]; [apply sound_raise; auto | apply sound_ret].
Qed.

Lemma sound_bind {A B : Type} (m : Py A) (k : A -> Py B) :
  sound P Q m ->
  (forall a g g' w, m g = (inr a, w, g') -> sound P Q (k a)) ->
  sound P Q (bind m k).
Proof.
  intros Hm Hk g. destruct (Hm g) as [HP HQ].
  unfold calls, result, bind in *.
  destruct (m g) as [[[e | a] w] g1] eqn:E; simpl in *.
  - split; [exact HP |]. intros e0 He. inversion He; subst. now apply HQ.
  - destruct (Hk a g g1 w E g1) as [HP' HQ']. unfold calls, result in *.
    destruct (k a g1) as [[r w'] g2]. simpl in *. split.
    + apply Forall_app. now split.
    + exact HQ'.
Qed.

Lemma sound_seq {A B : Type} (m : Py A) (k : A -> Py B) :
  sound P Q m -> (forall a, sound P Q (k a)) -> sound P Q (bind m k).
Proof. intros Hm Hk. apply sound_bind; auto. Qed.

Lemma sound_for {A S : Type} (l : list A) (body : A -> S -> Py S) :
  (forall a s, sound P Q (body a s)) -> forall s, sound P Q (for_ l body s).
Proof.
  intros H. induction l as [| a l IH]; intros s; simpl.
  - apply sound_ret.
  - apply sound_seq; auto.
Qed.

End Sound.

Lemma lift_run {A : Type} (r : exn + A) g a w g' :
  lift r g = (inr a, w, g') -> r = inr a.
Proof.
  destruct r as [e | b]; unfold lift, raise, ret; intros H; now inversion H.
Qed.

(** ** The calls of the state-space plot *)

Lemma getitem_valid {A : Type} (v : list A) (d : Z) :
  valid_index v d -> exists a, getitem v d = inr a.
Proof.
  unfold valid_index, getitem. intros H.
  set (j := if d <? 0 then d + len v else d).
  assert (Hj : 0 <= j < len v) by (subst j; destruct (Z.ltb_spec d 0); lia).
  destruct (Z.leb_spec 0 j); [| lia]. destruct (Z.ltb_spec j (len v)); [| lia].
  simpl. destruct (nth_error v (Z.to_nat j)) as [a |] eqn:E; [now exists a |].
  apply nth_error_None in E. unfold len in Hj. lia.
Qed.

Lemma component_runs {B : Type} (x : list vec) (z : Z) (t : nat)
    (dim : list Z) (k d : Z) (K : Q -> Py B) g :
  z = Z.of_nat t -> (t < List.length x)%nat -> getitem dim k = inr d ->
  valid_index (nth t x []) d ->
  bind (component x z dim k) K g = K (coord x t d) g.
Proof.
  intros -> Ht Hd Hv. unfold component. py_run.
  rewrite (getitem_nat x t [] Ht). py_run. rewrite Hd. py_run.
  unfold coord. destruct (getitem_valid _ _ Hv) as [a ->]. now py_run.
Qed.

Lemma annotations_flat_map (x : list vec) (text : bool) (n : nat) :
  flat_map (fun t => if text then [annotation x t] else []) (seq 0 n)
  = if text then map (annotation x) (seq 0 n) else [].
Proof.
  destruct text.
  - rewrite flat_map_concat_map. induction (seq 0 n); simpl; congruence.
  - induction (seq 0 n); simpl; congruence.
Qed.

Lemma plot_state_space_trajectory_runs (x : list vec) (d0 d1 : Z)
    (text : bool) lbl kw g :
  x <> [] -> trajectory_ok x d0 d1 text ->
  plot_state_space_trajectory x [d0; d1] text lbl kw g
  = (inr tt, state_space_calls x d0 d1 text lbl kw, g).
Proof.
  intros Hne Hok. unfold plot_state_space_trajectory.
  change (negb (len [d0; d1] =? 2)) with false. cbv iota. py_run.
  assert (Hv : forall t, (t < List.length x)%nat ->
             valid_index (nth t x []) d0 /\ valid_index (nth t x []) d1 /\
             (text = true -> (2 <= List.length (nth t x []))%nat)).
  { intros t Ht. unfold trajectory_ok in Hok. rewrite Forall_forall in Hok.
    apply Hok. now apply nth_In. }
  assert (Hlen : (0 < List.length x)%nat) by (destruct x; simpl; [congruence | lia]).
  assert (E0 : getitem [d0; d1] 0 = inr d0) by apply getitem_first.
  assert (E1 : getitem [d0; d1] 1 = inr d1) by apply getitem_second.
  replace (len x - 1) with (Z.of_nat (List.length x - 1)) by (unfold len; lia).
  match goal with
  | |- bind (for_ _ ?body _) _ _ = _ =>
      destruct (for_range_runs (List.length x - 1) body
                  (segment_calls x d0 d1 lbl kw) (fun _ s => s) g)
        with (s := tt) as [[] Hs1]
  end.
  { intros t [] Ht.
    assert (Ht0 : (t < List.length x)%nat) by lia.
    assert (Ht1 : (S t < List.length x)%nat) by lia.
    assert (H0 : (0 < List.length x)%nat) by lia.
    assert (H1 : (1 < List.length x)%nat) by lia.
    destruct (Hv t Ht0) as [Va [Vb _]]. destruct (Hv (S t) Ht1) as [Vc [Vd _]].
    destruct (Hv 0%nat H0) as [Ve [Vf _]]. destruct (Hv 1%nat H1) as [Vg [Vh _]].
    replace (Z.of_nat t + 1) with (Z.of_nat (S t)) by lia.
    py_run.
    assert (Tail : forall w,
      after w (bind (component x (Z.of_nat t) [d0; d1] 0) (fun a0 =>
        bind (component x (Z.of_nat (S t)) [d0; d1] 0) (fun a1 =>
        bind (component x (Z.of_nat t) [d0; d1] 1) (fun b0 =>
        bind (component x (Z.of_nat (S t)) [d0; d1] 1) (fun b1 =>
        bind (plt.plot [a0; a1] [b0; b1] None None kw) (fun _ => ret tt))))) g)
      = (inr tt, w ++ [Draw (segment x d0 d1 None kw t)], g)).
    { intros w. rewrite (component_runs x _ t _ 0 d0 _ g eq_refl Ht0 E0 Va).
      rewrite (component_runs x _ (S t) _ 0 d0 _ g eq_refl Ht1 E0 Vc).
      rewrite (component_runs x _ t _ 1 d1 _ g eq_refl Ht0 E1 Vb).
      rewrite (component_runs x _ (S t) _ 1 d1 _ g eq_refl Ht1 E1 Vd).
      py_run. reflexivity. }
    destruct t as [| t].
    - change (Z.of_nat 0 =? 0) with true. cbv iota. py_run.
      rewrite (component_runs x 0 0 _ 0 d0 _ g eq_refl H0 E0 Ve). py_run.
      rewrite (component_runs x 1 1 _ 0 d0 _ g eq_refl H1 E0 Vg). py_run.
      rewrite (component_runs x 0 0 _ 1 d1 _ g eq_refl H0 E1 Vf). py_run.
      rewrite (component_runs x 1 1 _ 1 d1 _ g eq_refl H1 E1 Vh).
      py_run. rewrite Tail. reflexivity.
    - replace (Z.of_nat (S t) =? 0) with false by (symmetry; apply Z.eqb_neq; lia).
      py_run. rewrite <- (after_nil (bind _ _ g)). rewrite Tail. reflexivity. }
  rewrite (bind_ok _ _ _ _ _ _ Hs1).
  match goal with
  | |- after _ (bind (for_ _ ?body _) _ _) = _ =>
      destruct (for_range_runs (List.length x) body
                  (fun t => if text then [annotation x t] else [])
                  (fun _ s => s) g)
        with (s := tt) as [[] Hs2]
  end.
  { intros t [] Ht. destruct (Hv t Ht) as [_ [_ H2]].
    destruct text; [| reflexivity].
    specialize (H2 eq_refl). unfold getitem2. py_run.
    rewrite (getitem_nat x t [] Ht).
    change 0 with (Z.of_nat 0). rewrite (getitem_nat _ 0 0%Q) by lia. py_run.
    change 1 with (Z.of_nat 1). rewrite (getitem_nat _ 1 0%Q) by lia. py_run.
    reflexivity. }
  fold (len x). rewrite (bind_ok _ _ _ _ _ _ Hs2).
  rewrite (component_runs x 0 0 _ 0 d0 _ g eq_refl Hlen E0
             (proj1 (Hv 0%nat Hlen))).
  rewrite (component_runs x 0 0 _ 1 d1 _ g eq_refl Hlen E1
             (proj1 (proj2 (Hv 0%nat Hlen)))).
  unfold plt.scatter, plt.xlabel, plt.ylabel. py_run.
  rewrite annotations_flat_map. unfold state_space_calls, emit, x_label.
  simpl. reflexivity.
Qed.

(** ** From a run to its observations *)

Lemma run_result {A : Type} (m : Py A) g r w g' :
  m g = (r, w, g') -> result m g = r.
Proof. unfold result. now intros ->. Qed.

Lemma run_calls {A : Type} (m : Py A) g r w g' :
  m g = (r, w, g') -> calls m g = w.
Proof. unfold calls. now intros ->. Qed.

Lemma run_figure {A : Type} (m : Py A) g r w g' :
  m g = (r, w, g') -> figure_of m g = render new_figure w.
Proof. unfold figure_of, calls. now intros ->. Qed.


(** A figure drawn without [plt.subplot] has the default axes only. *)
Lemma render_default (c : call) (w : list call) :
  forallb (fun c => negb (is_subplot c)) (c :: w) = true ->
  gca (render new_figure (c :: w)) = (1, 1, 1) /\
  axes_at (render new_figure (c :: w)) (1, 1, 1)
  = fold_left (fun a c => artist c a) (c :: w) new_axes.
Proof.
  intros H. simpl in H. apply andb_true_iff in H. destruct H as [Hc Hw].
  assert (Hd : draw new_figure c = set_axes new_figure (1, 1, 1) (artist c new_axes)).
  { destruct c; try reflexivity. discriminate. }
  simpl render. rewrite Hd.
  destruct (render_artists w (set_axes new_figure (1, 1, 1) (artist c new_axes))
              (1, 1, 1) eq_refl Hw) as [Hcur Hax].
  split.
  - unfold gca. now rewrite Hcur.
  - rewrite Hax, position_eqb_refl, axes_at_set, position_eqb_refl. reflexivity.
Qed.

Lemma state_space_calls_artists x d0 d1 text lbl kw :
  forallb (fun c => negb (is_subplot c)) (state_space_calls x d0 d1 text lbl kw)
  = true.
Proof.
  unfold state_space_calls. rewrite !forallb_app.
  repeat (apply andb_true_iff; split); try reflexivity.
  - rewrite forallb_forall. intros c Hc. apply in_flat_map in Hc.
    destruct Hc as [t [_ Hc]]. unfold segment_calls in Hc.
    apply in_app_or in Hc. destruct Hc as [Hc | [<- | []]]; [| reflexivity].
    destruct (Nat.eqb t 0); [destruct Hc as [<- | []]; reflexivity | destruct Hc].
  - destruct text; [| reflexivity]. rewrite forallb_forall. intros c Hc.
    apply in_map_iff in Hc. now destruct Hc as [t [<- _]].
Qed.

Lemma state_space_axes x d0 d1 text lbl kw :
  let F := render new_figure (state_space_calls x d0 d1 text lbl kw) in
  ax_xlabel (axes_at F (gca F)) = Some (x_label d0) /\
  ax_ylabel (axes_at F (gca F)) = Some (x_label d1).
Proof.
  intros F. subst F.
  destruct (state_space_calls x d0 d1 text lbl kw) as [| c w] eqn:E.
  - unfold state_space_calls in E. apply app_eq_nil in E. destruct E as [_ E].
    apply app_eq_nil in E. destruct E as [_ E]. discriminate.
  - destruct (render_default c w) as [-> ->].
    + rewrite <- E. apply state_space_calls_artists.
    + rewrite <- E. unfold state_space_calls.
      rewrite !app_assoc, fold_left_app. split; reflexivity.
Qed.

(* ================================================================== *)
(** * The claims *)





Lemma legend_entries_size (t : vec) (line : nat -> Line2D) bounds names :
  List.length (legend_entries t line bounds names) = entries bounds.
Proof. now destruct bounds. Qed.

Lemma legend_entries_labels (t : vec) (line : nat -> Line2D) bounds names :
  map snd (legend_entries t line bounds names)
  = firstn (entries bounds) [fst names; snd names].
Proof. now destruct bounds. Qed.

(** The handles of the legend are the series and, with bounds, the line of
    the last bound: lines of the first subplot. *)
Lemma legend_entries_handles (t : vec) (line : nat -> Line2D) bounds names :
  bounds_ok 0 bounds ->
  hd_error (map fst (legend_entries t line bounds names)) = Some (line 0%nat) /\
  incl (map fst (legend_entries t line bounds names))
       (line 0%nat :: bound_lines t bounds 0).
Proof.
  intros H. split; [now destruct bounds |].
  destruct bounds as [bs |]; simpl.
  - destruct H as [Hne _]. intros l [<- | [<- | []]]; [now left | right].
    unfold bound_lines. apply in_map.
    destruct (exists_last Hne) as [bs' [b ->]]. rewrite last_last.
    apply in_or_app. right. now left.
  - intros l [<- | []]. now left.
Qed.

Lemma bounds_ok_weaken (n : nat) bounds : bounds_ok n bounds -> bounds_ok 0 bounds.
Proof.
  destruct bounds as [bs |]; [| trivial]. intros [Hne H]. split; [exact Hne |].
  eapply Forall_impl; [| exact H]. simpl. intros. lia.
Qed.

(** *** The limits that [plt.xlim((0., v))] sets *)

Lemma smallest_range_pos : (0 < smallest_range)%Q.
Proof. reflexivity. Qed.

Lemma Qle_bool_false (a b : Q) : (b < a)%Q -> Qle_bool a b = false.
Proof.
  intros H. destruct (Qle_bool a b) eqn:E; [| reflexivity].
  apply Qle_bool_iff in E. exfalso. exact (Qlt_not_le _ _ H E).
Qed.

Lemma Qle_bool_true (a b : Q) : (a <= b)%Q -> Qle_bool a b = true.
Proof. intros H. now apply Qle_bool_iff. Qed.

Lemma tiny_part (a : Q) : (0 < a)%Q -> (a * tiny < a)%Q.
Proof.
  intros H. rewrite <- (Qmult_1_r a) at 2.
  apply Qmult_lt_l; [exact H | reflexivity].
Qed.

(** A range from 0 to a number that is not singular is kept, in the order
    given. *)
Lemma set_lim_regular (v : Q) :
  (smallest_range <= Qabs v)%Q -> set_lim 0 v = (0%Q, v).
Proof.
  intros H.
  assert (Hpos : (0 < Qabs v)%Q)
    by (eapply Qlt_le_trans; [exact smallest_range_pos | exact H]).
  unfold set_lim, nonsingular, Qltb.
  destruct (Qle_bool 0 v) eqn:E; cbn [negb].
  - apply Qle_bool_iff in E.
    change (Qabs 0) with 0%Q.
    rewrite (Qle_bool_true 0 (Qabs v)) by apply Qabs_nonneg.
    rewrite (Qle_bool_true _ _ H). cbn [negb].
    rewrite Qle_bool_false; [reflexivity |].
    rewrite (Qabs_pos v E) in *.
    setoid_replace (v - 0)%Q with v by ring. now apply tiny_part.
  - change (Qabs 0) with 0%Q.
    rewrite (Qle_bool_false (Qabs v) 0 Hpos).
    rewrite (Qle_bool_true _ _ H). cbn [negb].
    rewrite Qle_bool_false; [reflexivity |].
    assert (Hv : (v <= 0)%Q).
    { destruct (Qlt_le_dec 0 v) as [Hlt | Hle]; [| exact Hle].
      apply Qlt_le_weak in Hlt. apply Qle_bool_iff in Hlt. congruence. }
    rewrite (Qabs_neg v Hv) in *.
    setoid_replace (0 - v)%Q with (- v)%Q by ring. now apply tiny_part.
Qed.

(** The range from 0 to 0 is widened to [(-0.05, 0.05)]. *)
Lemma set_lim_zero (v : Q) :
  (v == 0)%Q -> set_lim 0 v = ((- expander)%Q, expander).
Proof.
  intros H. unfold set_lim, nonsingular, Qltb.
  rewrite (Qle_bool_true 0 v) by (rewrite H; apply Qle_refl). cbn [negb].
  change (Qabs 0) with 0%Q.
  rewrite (Qle_bool_true 0 (Qabs v)) by apply Qabs_nonneg.
  rewrite (Qle_bool_false smallest_range (Qabs v)); [reflexivity |].
  rewrite H. reflexivity.
Qed.

(** C4, as the code and matplotlib have it.  For a non-empty input sequence
    [u] and a time step [h], [plot_input_sequence] calls
    [plt.xlim((0., N*h))] with [N = len(u)] in every subplot: the x limits
    are [(0, N*h)] when [N*h] is not singular (at least [1e21 * 2 ** -1022]
    in absolute value), and [(-0.05, 0.05)] when [N*h] is zero; subplot [i]
    (from 0) has the y label [$u_{i+1}$].  For a state sequence [x] of
    length at least 1, [plot_state_trajectory] does the same with
    [N = len(x) - 1] and the y label [$x_{i+1}$]: a trajectory of one state
    has [N = 0], hence the limits [(-0.05, 0.05)].  Both end by setting the
    x label of the last subplot to [$t$].  [plot_state_space_trajectory]
    labels its axes [$x_{dim[0]+1}$] and [$x_{dim[1]+1}$].  The arguments
    are well formed: vectors of one dimension, bounds absent or given for
    each component, selected components present. *)
Theorem axis_labels_and_limits :
  (forall (u : list vec) (h : Q) u_bounds g,
     u <> [] -> rectangular u -> bounds_ok (dimension u) u_bounds ->
     let F := figure_of (plot_input_sequence u h u_bounds) g in
     let Nh := (inject_Z (len u) * h)%Q in
     result (plot_input_sequence u h u_bounds) g = inr tt /\
     (forall i, (i < dimension u)%nat ->
        ((smallest_range <= Qabs Nh)%Q ->
         ax_xlim (axes_at F (subplot_position (dimension u) i))
         = Some (0%Q, Nh)) /\
        ((Nh == 0)%Q ->
         ax_xlim (axes_at F (subplot_position (dimension u) i))
         = Some ((-1 # 20)%Q, (1 # 20)%Q)) /\
        ax_ylabel (axes_at F (subplot_position (dimension u) i))
        = Some ("$u_{" ++ str (Z.of_nat i + 1) ++ "}$")%string) /\
     ax_xlabel (axes_at F (gca F)) = Some "$t$" /\
     (forall m, dimension u = S m -> gca F = subplot_position (dimension u) m))
  /\
  (forall (x : list vec) (h : Q) x_bounds g,
     x <> [] -> rectangular x -> bounds_ok (dimension x) x_bounds ->
     let F := figure_of (plot_state_trajectory x h x_bounds) g in
     let Nh := (inject_Z (len x - 1) * h)%Q in
     result (plot_state_trajectory x h x_bounds) g = inr tt /\
     (forall i, (i < dimension x)%nat ->
        ((smallest_range <= Qabs Nh)%Q ->
         ax_xlim (axes_at F (subplot_position (dimension x) i))
         = Some (0%Q, Nh)) /\
        ((Nh == 0)%Q ->
         ax_xlim (axes_at F (subplot_position (dimension x) i))
         = Some ((-1 # 20)%Q, (1 # 20)%Q)) /\
        (len x = 1 ->
         ax_xlim (axes_at F (subplot_position (dimension x) i))
         = Some ((-1 # 20)%Q, (1 # 20)%Q)) /\
        ax_ylabel (axes_at F (subplot_position (dimension x) i))
        = Some ("$x_{" ++ str (Z.of_nat i + 1) ++ "}$")%string) /\
     ax_xlabel (axes_at F (gca F)) = Some "$t$" /\
     (forall m, dimension x = S m -> gca F = subplot_position (dimension x) m))
  /\
  (forall (x : list vec) (d0 d1 : Z) (text : bool) lbl kw g,
     x <> [] -> trajectory_ok x d0 d1 text ->
     let F := figure_of (plot_state_space_trajectory x [d0; d1] text lbl kw) g in
     result (plot_state_space_trajectory x [d0; d1] text lbl kw) g = inr tt /\
     ax_xlabel (axes_at F (gca F)) = Some ("$x_{" ++ str (d0 + 1) ++ "}$")%string /\
     ax_ylabel (axes_at F (gca F)) = Some ("$x_{" ++ str (d1 + 1) ++ "}$")%string).
Proof.
  split; [| split].
  - intros u h u_bounds g Hne Hrect Hb F Nh. subst F Nh.
    pose proof (plot_input_sequence_runs u h u_bounds g Hne Hrect Hb) as Hrun.
    rewrite (run_figure _ _ _ _ _ Hrun), (run_result _ _ _ _ _ Hrun).
    destruct (render_time_series (dimension u) (time_points h (len u))
                (inject_Z (len u) * h) (input_line u h) u_bounds u_label
                ("Optimal control", "Control bounds")) as [Hax [Hxl Hcur]].
    split; [reflexivity |]. split; [| split; [exact Hxl | exact Hcur]].
    intros i Hi. destruct (Hax i Hi) as [_ [Hy [Hx _]]]. rewrite Hx.
    split; [intros H; now rewrite set_lim_regular |].
    split; [intros H; now rewrite set_lim_zero | exact Hy].
  - intros x h x_bounds g Hne Hrect Hb F Nh. subst F Nh.
    pose proof (plot_state_trajectory_runs x h x_bounds g Hne Hrect Hb) as Hrun.
    rewrite (run_figure _ _ _ _ _ Hrun), (run_result _ _ _ _ _ Hrun).
    destruct (render_time_series (dimension x) (time_points h (len x - 1))
                (inject_Z (len x - 1) * h) (state_line x h) x_bounds x_label
                ("Optimal trajectory", "State bounds")) as [Hax [Hxl Hcur]].
    split; [reflexivity |]. split; [| split; [exact Hxl | exact Hcur]].
    intros i Hi. destruct (Hax i Hi) as [_ [Hy [Hx _]]]. rewrite Hx.
    split; [intros H; now rewrite set_lim_regular |].
    split; [intros H; now rewrite set_lim_zero |].
    split; [| exact Hy].
    intros H. rewrite H. rewrite set_lim_zero; [reflexivity |].
    change (inject_Z (1 - 1)) with 0%Q. ring.
  - intros x d0 d1 text lbl kw g Hne Hok F. subst F.
    pose proof (plot_state_space_trajectory_runs x d0 d1 text lbl kw g Hne Hok)
      as Hrun.
    rewrite (run_figure _ _ _ _ _ Hrun), (run_result _ _ _ _ _ Hrun).
    split; [reflexivity |]. apply state_space_axes.
Qed.

Lemma axis_labels_and_limits_witness :
  (let F := figure_of (plot_input_sequence two_vectors (1 # 2) two_bounds) seed0 in
   ax_xlim (axes_at F (subplot_position 2 0)) = Some (0%Q, (2 # 2)%Q) /\
   ax_xlim (axes_at F (subplot_position 2 1)) = Some (0%Q, (2 # 2)%Q) /\
   ax_ylabel (axes_at F (subplot_position 2 0)) = Some "$u_{1}$" /\
   ax_ylabel (axes_at F (subplot_position 2 1)) = Some "$u_{2}$" /\
   ax_xlabel (axes_at F (subplot_position 2 1)) = Some "$t$")
  /\
  (let F := figure_of (plot_state_trajectory two_vectors (1 # 2) None) seed0 in
   ax_xlim (axes_at F (subplot_position 2 0)) = Some (0%Q, (1 # 2)%Q) /\
   ax_ylabel (axes_at F (subplot_position 2 0)) = Some "$x_{1}$" /\
   ax_ylabel (axes_at F (subplot_position 2 1)) = Some "$x_{2}$" /\
   ax_xlabel (axes_at F (subplot_position 2 1)) = Some "$t$")
  /\
  (let F := figure_of (plot_state_trajectory [[7; 8]]%Q (1 # 2) None) seed0 in
   ax_xlim (axes_at F (subplot_position 2 0))
   = Some ((-1 # 20)%Q, (1 # 20)%Q))
  /\
  (let F := figure_of (plot_state_space_trajectory two_vectors [1; -2] true
                         None []) seed0 in
   result (plot_state_space_trajectory two_vectors [1; -2] true None []) seed0
   = inr tt /\
   ax_xlabel (axes_at F (gca F)) = Some "$x_{2}$" /\
   ax_ylabel (axes_at F (gca F)) = Some "$x_{-1}$").
Proof.
  destruct axis_labels_and_limits as [Hu [Hx Hxx]].
  assert (Hreg1 : (smallest_range <= Qabs (inject_Z (len two_vectors) * (1 # 2)))%Q)
    by (vm_compute; discriminate).
  assert (Hreg2 : (smallest_range
                   <= Qabs (inject_Z (len two_vectors - 1) * (1 # 2)))%Q)
    by (vm_compute; discriminate).
  split; [| split; [| split]].
  - destruct (Hu two_vectors (1 # 2) two_bounds seed0) as [_ [Hi [Hl Hg]]].
    + discriminate.
    + repeat constructor.
    + split; [discriminate | repeat constructor].
    + assert (H0 : (0 < dimension two_vectors)%nat)
        by (unfold dimension, two_vectors; simpl; lia).
      assert (H1 : (1 < dimension two_vectors)%nat)
        by (unfold dimension, two_vectors; simpl; lia).
      destruct (Hi 0%nat H0) as [Hlim0 [_ Hy0]].
      destruct (Hi 1%nat H1) as [Hlim1 [_ Hy1]].
      rewrite (Hg 1%nat eq_refl) in Hl.
      split; [exact (Hlim0 Hreg1) |]. split; [exact (Hlim1 Hreg1) |].
      split; [exact Hy0 |]. split; [exact Hy1 | exact Hl].
  - destruct (Hx two_vectors (1 # 2) None seed0) as [_ [Hi [Hl Hg]]].
    + discriminate.
    + repeat constructor.
    + exact I.
    + assert (H0 : (0 < dimension two_vectors)%nat)
        by (unfold dimension, two_vectors; simpl; lia).
      assert (H1 : (1 < dimension two_vectors)%nat)
        by (unfold dimension, two_vectors; simpl; lia).
      destruct (Hi 0%nat H0) as [Hlim0 [_ [_ Hy0]]].
      destruct (Hi 1%nat H1) as [_ [_ [_ Hy1]]].
      rewrite (Hg 1%nat eq_refl) in Hl.
      split; [exact (Hlim0 Hreg2) |].
      split; [exact Hy0 |]. split; [exact Hy1 | exact Hl].
  - destruct (Hx [[7; 8]]%Q (1 # 2) None seed0) as [_ [Hi _]].
    + discriminate.
    + repeat constructor.
    + exact I.
    + assert (H0 : (0 < dimension [[7; 8]]%Q)%nat)
        by (unfold dimension; simpl; lia).
      destruct (Hi 0%nat H0) as [_ [_ [Hone _]]].
      exact (Hone eq_refl).
  - apply (Hxx two_vectors 1 (-2) true None [] seed0).
    + discriminate.
    + unfold trajectory_ok, valid_index, len, two_vectors.
      repeat apply Forall_cons; try apply Forall_nil; simpl; lia.
Defined.

(** C4 does not hold as stated for a state sequence of length 1: there
    [N = 0], [plot_state_trajectory] calls [plt.xlim((0., 0.))] (line 142),
    and matplotlib widens the singular range: the x limits of the subplots
    are [(-0.05, 0.05)], not [(0, N*h) = (0, 0)].  The same happens in
    [plot_input_sequence] with [h = 0]. *)
Lemma single_state_limits_are_widened :
  let x := [[7; 8]]%Q in
  let h := (1 # 2)%Q in
  let F := figure_of (plot_state_trajectory x h None) seed0 in
  let G := figure_of (plot_input_sequence two_vectors 0 None) seed0 in
  result (plot_state_trajectory x h None) seed0 = inr tt /\
  In (Xlim 0 (inject_Z (len x - 1) * h))
     (calls (plot_state_trajectory x h None) seed0) /\
  ax_xlim (axes_at F (subplot_position 2 0)) = Some ((-1 # 20)%Q, (1 # 20)%Q) /\
  ax_xlim (axes_at F (subplot_position 2 1)) = Some ((-1 # 20)%Q, (1 # 20)%Q) /\
  ax_xlim (axes_at F (subplot_position 2 0))
  <> Some (0%Q, (inject_Z (len x - 1) * h)%Q) /\
  ax_xlim (axes_at G (subplot_position 2 0)) = Some ((-1 # 20)%Q, (1 # 20)%Q).
Proof.
  repeat split; try reflexivity.
  - vm_compute. tauto.
  - vm_compute. discriminate.
Qed.

(** ** The legend *)

Lemma emitted_bounds (P : call -> Prop) (Q : exn -> Prop) t i bounds bp :
  (forall l, P (Draw l)) -> Q IndexError ->
  sound P Q (plot_bounds t i bounds bp).
Proof.
  intros HP HQ. unfold plot_bounds. apply sound_for. intros bound s.
  apply sound_seq.
  - apply sound_lift. intros e He. now rewrite (getitem_error _ _ _ He).
  - intros b_i. unfold plt.step. apply sound_seq; [| intros; apply sound_ret].
    apply sound_seq; [apply sound_emit, HP | intros; apply sound_ret].
Qed.


Section SoundPlots.

Variables (P : call -> Prop) (E : exn -> Prop).
Variable bounds : option (list vec).
Hypothesis P_other : forall c, is_legend c = false -> P c.
Hypothesis P_legend : forall handles labels loc,
  List.length handles = entries bounds ->
  List.length labels = entries bounds -> P (Legend handles labels loc).
Hypothesis E_index : E IndexError.
Hypothesis E_unbound : E (UnboundLocalError "bound_plot").

Lemma sound_getitem {A : Type} (l : list A) (i : Z) : sound P E (lift (getitem l i)).
Proof. apply sound_lift. intros e He. now rewrite (getitem_error _ _ _ He). Qed.

Lemma sound_components (x : list vec) (i : Z) (l : list Z) :
  sound P E (lift (comprehension (fun k => getitem2 x k i) l)).
Proof.
  apply sound_lift. intros e He.
  apply (comprehension_error _ _ (fun e => e = IndexError)) in He.
  - now subst.
  - intros a e'. apply getitem2_error.
Qed.

Lemma sound_linspace (a b : Q) (num : Z) :
  0 <= num -> sound P E (lift (np.linspace a b num)).
Proof.
  intros H. apply sound_lift. intros e. unfold np.linspace, linspace_in.
  destruct (Z.ltb_spec num 0); [lia |].
  now destruct (Z.to_nat num) as [| [| n]].
Qed.

Lemma sound_step t ys f : sound P E (plt.step t ys f).
Proof.
  unfold plt.step. apply sound_seq; [| intros; apply sound_ret].
  now apply sound_emit, P_other.
Qed.

Lemma sound_plot xs ys f lbl kw : sound P E (plt.plot xs ys f lbl kw).
Proof.
  unfold plt.plot. apply sound_seq; [| intros; apply sound_ret].
  now apply sound_emit, P_other.
Qed.

Lemma sound_bounds t i bs bp : sound P E (plot_bounds t i bs bp).
Proof.
  apply emitted_bounds; [| exact E_index]. intros l. now apply P_other.
Qed.

Lemma sound_read_bound_plot bp : sound P E (read_bound_plot bp).
Proof. destruct bp; [apply sound_ret | now apply sound_raise]. Qed.

Ltac sound_seqs :=
  repeat first
    [ apply sound_ret | apply sound_getitem | apply sound_components
    | apply sound_step | apply sound_plot | apply sound_bounds
    | apply sound_read_bound_plot
    | apply sound_emit; first [ now apply P_other | apply P_legend; reflexivity ]
    | apply sound_seq; [| intros ?] ].

(** Bounds, label, limits and legend of subplot [i], for a drawn series. *)
Lemma sound_subplot_tail (t : vec) (i : Z) (s : option Line2D) (ylab : string)
    (hi : Q) (series : Line2D) (names : string * string) :
  sound P E
    (bound_plot <- match bounds with
                   | Some bs => plot_bounds t i bs s
                   | None => ret s
                   end ;;
     plt.ylabel ylab ;;
     plt.xlim 0 hi ;;
     (if i =? 0 then
        match bounds with
        | Some _ =>
            b <- read_bound_plot bound_plot ;;
            plt.legend [series; b] [fst names; snd names] 1
        | None => plt.legend [series] [fst names] 1
        end
      else ret tt) ;;
     ret bound_plot).
Proof.
  unfold plt.ylabel, plt.xlim, plt.legend.
  destruct bounds as [bs |]; destruct (i =? 0); simpl in P_legend; sound_seqs.
Qed.

Lemma plot_input_sequence_sound (u : list vec) (h : Q) :
  sound P E (plot_input_sequence u h bounds).
Proof.
  unfold plot_input_sequence.
  apply sound_seq; [apply sound_getitem | intros u_0].
  apply sound_seq; [apply sound_linspace; unfold len; lia | intros t].
  apply sound_seq; [| intros; now apply sound_emit, P_other].
  apply sound_for. intros i s.
  apply sound_seq; [now apply sound_emit, P_other | intros _].
  apply sound_seq; [apply sound_components | intros u_i_sequence].
  apply sound_seq; [apply sound_getitem | intros u_i_0].
  apply sound_seq; [apply sound_step | intros input_plot].
  apply (sound_subplot_tail t i s _ _ input_plot
           ("Optimal control", "Control bounds")).
Qed.

Lemma plot_state_trajectory_sound (x : list vec) (h : Q) :
  sound P E (plot_state_trajectory x h bounds).
Proof.
  unfold plot_state_trajectory.
  apply sound_seq; [apply sound_getitem | intros x_0].
  apply sound_seq; [apply sound_linspace; unfold len; lia | intros t].
  apply sound_seq; [| intros; now apply sound_emit, P_other].
  apply sound_for. intros i s.
  apply sound_seq; [now apply sound_emit, P_other | intros _].
  apply sound_seq; [apply sound_components | intros x_i_trajectory].
  apply sound_seq; [apply sound_plot | intros state_plot].
  apply (sound_subplot_tail t i s _ _ state_plot
           ("Optimal trajectory", "State bounds")).
Qed.

Lemma plot_output_trajectory_sound (C : ndarray) (x : list vec) (h : Q)
    :
  (forall e, comprehension (np.dot C) x = inl e -> E e) ->
  sound P E (plot_output_trajectory C x h bounds).
Proof.
  intros Hdot. unfold plot_output_trajectory.
  apply sound_seq; [now apply sound_lift | intros y].
  apply sound_seq; [apply sound_linspace; unfold len; lia | intros t].
  apply sound_seq; [| intros; now apply sound_emit, P_other].
  apply sound_for. intros i s.
  apply sound_seq; [now apply sound_emit, P_other | intros _].
  apply sound_seq; [apply sound_components | intros y_i_trajectory].
  apply sound_seq; [apply sound_plot | intros output_plot].
  apply (sound_subplot_tail t i s _ _ output_plot
           ("Optimal trajectory", "Output bounds")).
Qed.

End SoundPlots.

Lemma time_series_legend (n : nat) (t : vec) (hi : Q) (line : nat -> Line2D)
    bounds (ylab : Z -> string) names :
  bounds_ok n bounds ->
  legend_on_first_subplot
    (render new_figure
       (flat_map (subplot_calls n t hi line bounds ylab names) (seq 0 n)
        ++ [Xlabel "$t$"]))
    n bounds names.
Proof.
  intros Hb i Hi.
  destruct (render_time_series n t hi line bounds ylab names) as [Hax _].
  destruct (Hax i Hi) as [Hlines [_ [_ Hleg]]]. simpl.
  destruct (Nat.eqb_spec i 0) as [-> | Hne]; [| exact Hleg].
  exists (legend_entries t line bounds names).
  rewrite Hlines.
  destruct (legend_entries_handles t line bounds names
              (bounds_ok_weaken n bounds Hb)) as [Hhd Hincl].
  repeat split; auto using legend_entries_size, legend_entries_labels.
Qed.

Lemma legend_size_other (k : nat) (c : call) :
  is_legend c = false -> legend_size k c.
Proof. now destruct c. Qed.

(** C5.  In [plot_input_sequence], [plot_state_trajectory] and
    [plot_output_trajectory] the legend has exactly two entries (the series
    and the bounds) when the bounds argument is not [None] and exactly one
    (the series) when it is [None], and it is made on the first subplot
    only.  Every legend call that these functions make, on any arguments,
    has that number of entries; on well-formed arguments the first subplot
    gets this legend, and no other subplot gets one. *)
Theorem legend_entries_match_bounds (bounds : option (list vec)) :
  (forall u h g,
     Forall (legend_size (entries bounds))
            (calls (plot_input_sequence u h bounds) g)) /\
  (forall x h g,
     Forall (legend_size (entries bounds))
            (calls (plot_state_trajectory x h bounds) g)) /\
  (forall C x h g,
     Forall (legend_size (entries bounds))
            (calls (plot_output_trajectory C x h bounds) g)) /\
  (forall u h g,
     u <> [] -> rectangular u -> bounds_ok (dimension u) bounds ->
     legend_on_first_subplot (figure_of (plot_input_sequence u h bounds) g)
       (dimension u) bounds ("Optimal control", "Control bounds")) /\
  (forall x h g,
     x <> [] -> rectangular x -> bounds_ok (dimension x) bounds ->
     legend_on_first_subplot (figure_of (plot_state_trajectory x h bounds) g)
       (dimension x) bounds ("Optimal trajectory", "State bounds")) /\
  (forall C x h g,
     aligned C x -> bounds_ok (fst (shape C)) bounds ->
     legend_on_first_subplot (figure_of (plot_output_trajectory C x h bounds) g)
       (fst (shape C)) bounds ("Optimal trajectory", "Output bounds")).
Proof.
  assert (Hleg : forall handles labels loc,
            List.length handles = entries bounds ->
            List.length labels = entries bounds ->
            legend_size (entries bounds) (Legend handles labels loc))
    by (intros; now split).
  split; [| split; [| split; [| split; [| split]]]].
  - intros u h g.
    apply (plot_input_sequence_sound _ (fun _ => True) bounds
             (legend_size_other _) Hleg I I u h g).
  - intros x h g.
    apply (plot_state_trajectory_sound _ (fun _ => True) bounds
             (legend_size_other _) Hleg I I x h g).
  - intros C x h g.
    apply (plot_output_trajectory_sound _ (fun _ => True) bounds
             (legend_size_other _) Hleg I I C x h (fun _ _ => I) g).
  - intros u h g Hne Hrect Hb.
    rewrite (run_figure _ _ _ _ _ (plot_input_sequence_runs u h bounds g Hne Hrect Hb)).
    now apply time_series_legend.
  - intros x h g Hne Hrect Hb.
    rewrite (run_figure _ _ _ _ _ (plot_state_trajectory_runs x h bounds g Hne Hrect Hb)).
    now apply time_series_legend.
  - intros C x h g Hal Hb.
    rewrite (run_figure _ _ _ _ _ (plot_output_trajectory_runs C x h bounds g Hal Hb)).
    now apply time_series_legend.
Qed.

Lemma legend_entries_match_bounds_witness :
  legend_on_first_subplot
    (figure_of (plot_input_sequence two_vectors (1 # 2) two_bounds) seed0)
    (dimension two_vectors) two_bounds ("Optimal control", "Control bounds") /\
  legend_on_first_subplot
    (figure_of (plot_state_trajectory two_vectors (1 # 2) None) seed0)
    (dimension two_vectors) None ("Optimal trajectory", "State bounds") /\
  legend_on_first_subplot
    (figure_of (plot_output_trajectory sum_matrix two_vectors (1 # 2) two_bounds)
               seed0)
    (fst (shape sum_matrix)) two_bounds ("Optimal trajectory", "Output bounds").
Proof.
  split; [| split].
  - apply (proj1 (proj2 (proj2 (proj2 (legend_entries_match_bounds two_bounds))))).
    + discriminate.
    + repeat constructor.
    + split; [discriminate | repeat constructor].
  - apply (proj1 (proj2 (proj2 (proj2 (proj2 (legend_entries_match_bounds None)))))).
    + discriminate.
    + repeat constructor.
    + exact I.
  - apply (proj2 (proj2 (proj2 (proj2 (proj2 (legend_entries_match_bounds two_bounds)))))).
    + repeat constructor.
    + split; [discriminate | repeat constructor].
Defined.

(** ** The output trajectory *)









(** ** The annotations of the state-space plot *)

Lemma state_space_calls_texts x d0 d1 lbl kw :
  filter is_text (state_space_calls x d0 d1 true lbl kw)
  = map (annotation x) (seq 0 (List.length x)).
Proof.
  unfold state_space_calls. rewrite !filter_app. simpl filter at 3.
  rewrite app_nil_r.
  replace (filter is_text (flat_map _ _)) with (@nil call).
  - simpl. induction (seq 0 (List.length x)); simpl; congruence.
  - symmetry. induction (seq 0 (List.length x - 1)) as [| t l IH];
      [reflexivity |].
    cbn [flat_map]. rewrite filter_app, IH, app_nil_r.
    unfold segment_calls. now destruct (Nat.eqb t 0).
Qed.

(** C9.  With [text=True], [plot_state_space_trajectory] places for every
    time index [t] the annotation [$x(t)$] at the coordinates
    [(x[t][0], x[t][1])]: at the components 0 and 1 of the state, whatever
    components [dim] selects. *)
Theorem text_annotations_ignore_dim (x : list vec) (d0 d1 : Z)
    (lbl : option string) (kw : kwargs) (g : RandomState) :
  trajectory_ok x d0 d1 true ->
  filter is_text (calls (plot_state_space_trajectory x [d0; d1] true lbl kw) g)
  = map (fun t => Text (nth 0 (nth t x []) 0%Q) (nth 1 (nth t x []) 0%Q)
                       ("$x(" ++ str (Z.of_nat t) ++ ")$"))
        (seq 0 (List.length x)).
Proof.
  intros Hok. destruct x as [| x_0 x']; [reflexivity |].
  assert (Hne : x_0 :: x' <> []) by discriminate.
  rewrite (run_calls _ _ _ _ _
             (plot_state_space_trajectory_runs _ d0 d1 true lbl kw g Hne Hok)).
  apply state_space_calls_texts.
Qed.

Lemma text_annotations_ignore_dim_witness :
  filter is_text
    (calls (plot_state_space_trajectory [[1; 2; 7]; [3; 4; 8]; [5; 6; 9]]%Q
              [2; -2] true None []) seed0)
  = [Text 1 2 "$x(0)$"; Text 3 4 "$x(1)$"; Text 5 6 "$x(2)$"].
Proof.
  apply (text_annotations_ignore_dim [[1; 2; 7]; [3; 4; 8]; [5; 6; 9]]%Q
           2 (-2) None [] seed0).
  unfold trajectory_ok, valid_index, len.
  repeat apply Forall_cons; try apply Forall_nil; simpl; lia.
Defined.

(** ** Empty bounds *)

Lemma bind_raise {A B : Type} (e : exn) (k : A -> Py B) g :
  bind (raise e) k g = (inl e, [], g).
Proof. reflexivity. Qed.

Lemma nonempty_component (x : list vec) :
  Forall (fun v => v <> []) x ->
  Forall (fun v => (0 < List.length v)%nat) x.
Proof.
  intros H. eapply Forall_impl; [| exact H]. simpl. intros [| a v] Hv;
    [congruence | simpl; lia].
Qed.

Ltac first_iteration :=
  unfold plt.subplot, plt.ylabel, plt.xlim, plot_bounds, read_bound_plot;
  cbn [for_]; py_run;
  change (Z.of_nat 0 =? 0) with true; cbv iota; py_run;
  rewrite bind_raise.

Lemma plot_input_sequence_empty_bounds (u : list vec) (h : Q) g :
  u <> [] -> Forall (fun v => v <> []) u ->
  exists w,
    plot_input_sequence u h (Some []) g
    = (inl (UnboundLocalError "bound_plot"), w, g) /\
    filter is_legend w = [].
Proof.
  intros Hne Hc. unfold plot_input_sequence.
  destruct u as [| u_0 u']; [congruence |].
  assert (H0 : u_0 <> []) by now inversion Hc.
  destruct u_0 as [| a u_0']; [congruence |].
  rewrite getitem_first. py_run.
  rewrite time_points_eq by (unfold len; lia). py_run.
  rewrite range_len. cbn [List.length seq map for_]. py_run.
  unfold plt.subplot. py_run.
  rewrite (component_comprehension _ 0 (nonempty_component _ Hc)). py_run.
  cbn [component_series map]. rewrite getitem_first. py_run.
  first_iteration. eexists. split; reflexivity.
Qed.

Lemma plot_state_trajectory_empty_bounds (x : list vec) (h : Q) g :
  x <> [] -> Forall (fun v => v <> []) x ->
  exists w,
    plot_state_trajectory x h (Some []) g
    = (inl (UnboundLocalError "bound_plot"), w, g) /\
    filter is_legend w = [].
Proof.
  intros Hne Hc. unfold plot_state_trajectory.
  replace (range (len x - 1 + 1)) with (range (len x)) by (f_equal; lia).
  destruct x as [| x_0 x']; [congruence |].
  assert (H0 : x_0 <> []) by now inversion Hc.
  destruct x_0 as [| a x_0']; [congruence |].
  rewrite getitem_first. py_run.
  rewrite time_points_eq by (unfold len; lia). py_run.
  rewrite range_len. cbn [List.length seq map for_]. py_run.
  unfold plt.subplot. py_run.
  rewrite (component_comprehension _ 0 (nonempty_component _ Hc)). py_run.
  first_iteration. eexists. split; reflexivity.
Qed.

Lemma plot_output_trajectory_empty_bounds (C : ndarray) (x : list vec)
    (h : Q) g :
  aligned C x -> (0 < fst (shape C))%nat ->
  exists w,
    plot_output_trajectory C x h (Some []) g
    = (inl (UnboundLocalError "bound_plot"), w, g) /\
    filter is_legend w = [].
Proof.
  intros Hal Hny. unfold plot_output_trajectory.
  rewrite (outputs_comprehension C x Hal). py_run.
  rewrite time_points_eq by (unfold len; lia). py_run.
  destruct (fst (shape C)) as [| ny] eqn:E; [lia |].
  rewrite range_of_nat. cbn [seq map for_]. py_run.
  unfold plt.subplot. py_run.
  replace (len x - 1 + 1) with (len (outputs C x)) by (rewrite len_outputs; lia).
  rewrite (component_comprehension (outputs C x) 0).
  - py_run. first_iteration. eexists. split; reflexivity.
  - eapply Forall_impl; [| exact (outputs_dimension C x Hal)].
    simpl. intros y_t Hy. lia.
Qed.

(** C10.  When [plot_input_sequence], [plot_state_trajectory] or
    [plot_output_trajectory] is called with bounds that are an empty list
    (not [None]) and an input with at least one component, the legend
    branch for supplied bounds reads the local [bound_plot], which was never
    assigned: the call fails with an [UnboundLocalError] and makes no
    legend. *)
Theorem empty_bounds_unbound_local :
  (forall (u : list vec) (h : Q) g,
     u <> [] -> Forall (fun v => v <> []) u ->
     result (plot_input_sequence u h (Some [])) g
     = inl (UnboundLocalError "bound_plot") /\
     filter is_legend (calls (plot_input_sequence u h (Some [])) g) = []) /\
  (forall (x : list vec) (h : Q) g,
     x <> [] -> Forall (fun v => v <> []) x ->
     result (plot_state_trajectory x h (Some [])) g
     = inl (UnboundLocalError "bound_plot") /\
     filter is_legend (calls (plot_state_trajectory x h (Some [])) g) = []) /\
  (forall (C : ndarray) (x : list vec) (h : Q) g,
     aligned C x -> (0 < fst (shape C))%nat ->
     result (plot_output_trajectory C x h (Some [])) g
     = inl (UnboundLocalError "bound_plot") /\
     filter is_legend (calls (plot_output_trajectory C x h (Some [])) g) = []).
Proof.
  split; [| split].
  - intros u h g Hne Hc.
    destruct (plot_input_sequence_empty_bounds u h g Hne Hc) as [w [E Hw]].
    now rewrite (run_result _ _ _ _ _ E), (run_calls _ _ _ _ _ E).
  - intros x h g Hne Hc.
    destruct (plot_state_trajectory_empty_bounds x h g Hne Hc) as [w [E Hw]].
    now rewrite (run_result _ _ _ _ _ E), (run_calls _ _ _ _ _ E).
  - intros C x h g Hal Hny.
    destruct (plot_output_trajectory_empty_bounds C x h g Hal Hny) as [w [E Hw]].
    now rewrite (run_result _ _ _ _ _ E), (run_calls _ _ _ _ _ E).
Qed.

Lemma empty_bounds_unbound_local_witness :
  (result (plot_input_sequence two_vectors (1 # 2) (Some [])) seed0
   = inl (UnboundLocalError "bound_plot") /\
   filter is_legend (calls (plot_input_sequence two_vectors (1 # 2) (Some []))
                           seed0) = []) /\
  (result (plot_state_trajectory two_vectors (1 # 2) (Some [])) seed0
   = inl (UnboundLocalError "bound_plot") /\
   filter is_legend (calls (plot_state_trajectory two_vectors (1 # 2) (Some []))
                           seed0) = []) /\
  (result (plot_output_trajectory sum_matrix two_vectors (1 # 2) (Some [])) seed0
   = inl (UnboundLocalError "bound_plot") /\
   filter is_legend
     (calls (plot_output_trajectory sum_matrix two_vectors (1 # 2) (Some []))
            seed0) = []).
Proof.
  destruct empty_bounds_unbound_local as [Hu [Hx Hy]].
  split; [| split].
  - apply (Hu two_vectors (1 # 2) seed0); [discriminate |].
    repeat constructor; discriminate.
  - apply (Hx two_vectors (1 # 2) seed0); [discriminate |].
    repeat constructor; discriminate.
  - apply (Hy sum_matrix two_vectors (1 # 2) seed0).
    + repeat constructor.
    + simpl. lia.
Defined.

(** ** The dimension checks *)

Lemma comprehension_length {A B : Type} (f : A -> exn + B) l bs :
  comprehension f l = inr bs -> List.length bs = List.length l.
Proof.
  revert bs. induction l as [| a l IH]; intros bs; simpl.
  - intros H. now inversion H.
  - destruct (f a); [discriminate |].
    destruct (comprehension f l) as [| bs']; [discriminate |].
    intros H. inversion H; subst. simpl. f_equal. now apply IH.
Qed.

Lemma raises_ValueError_sound {A : Type} (P : call -> Prop) (m : Py A) g :
  sound P not_ValueError m -> raises_ValueError m g = false.
Proof.
  intros H. destruct (H g) as [_ Hr]. unfold raises_ValueError.
  destruct (result m g) as [e |]; [now apply Hr | reflexivity].
Qed.

Section NoValueError.

Let P : call -> Prop := fun _ => True.
Let E : exn -> Prop := not_ValueError.

Lemma sound_item {A : Type} (l : list A) (i : Z) : sound P E (lift (getitem l i)).
Proof. apply sound_lift. intros e He. now rewrite (getitem_error _ _ _ He). Qed.

Lemma sound_item2 (x : list vec) (i j : Z) : sound P E (lift (getitem2 x i j)).
Proof. apply sound_lift. intros e He. now rewrite (getitem2_error _ _ _ _ He). Qed.

Lemma sound_component (x : list vec) (t : Z) (dim : list Z) (k : Z) :
  sound P E (component x t dim k).
Proof.
  unfold component. repeat (apply sound_seq; [apply sound_item | intros ?]).
  apply sound_item.
Qed.

Lemma sound_draw xs ys f lbl kw : sound P E (plt.plot xs ys f lbl kw).
Proof.
  unfold plt.plot. apply sound_seq; [now apply sound_emit | intros; apply sound_ret].
Qed.

Lemma sound_polyhedron_plot p fc kw : sound P E (polyhedron_plot p fc kw).
Proof.
  unfold polyhedron_plot. destruct fc; [destruct (has_key _ _) |];
    first [now apply sound_emit | now apply sound_raise].
Qed.

Lemma sound_random_rand3 : sound P E np.random_rand3.
Proof. intros g. split; [constructor | discriminate]. Qed.

Ltac no_value_error :=
  repeat first
    [ apply sound_ret | apply sound_item | apply sound_item2
    | apply sound_component | apply sound_draw | apply sound_polyhedron_plot
    | apply sound_random_rand3
    | apply sound_emit; exact I
    | apply sound_for; intros ? ?
    | apply sound_seq; [| intros ?]
    | match goal with
      | |- sound _ _ (if ?b then _ else _) => destruct b
      end ].

(** What follows the check of [plot_state_space_trajectory] raises no
    [ValueError]. *)
Lemma state_space_after_check x dim text lbl kw g :
  (len dim =? 2) = true ->
  raises_ValueError (plot_state_space_trajectory x dim text lbl kw) g = false.
Proof.
  intros H. apply (raises_ValueError_sound P).
  unfold plot_state_space_trajectory. rewrite H. simpl negb. cbv iota.
  unfold plt.text, plt.scatter, plt.xlabel, plt.ylabel. no_value_error.
Qed.

Lemma partition_after_check es (print : bool) kw g :
  raises_ValueError
    (for_ (critical_regions es) (fun (cr : CriticalRegion) (_ : unit) =>
       facecolor <- np.random_rand3 ;;
       polyhedron_plot (polyhedron cr) (Some facecolor) kw ;;
       if print then
         c0 <- lift (getitem (Polyhedron.center (polyhedron cr)) 0) ;;
         c1 <- lift (getitem (Polyhedron.center (polyhedron cr)) 1) ;;
         plt.text c0 c1 (str_list (active_set cr))
       else ret tt) tt) g = false.
Proof.
  apply (raises_ValueError_sound P). unfold plt.text. no_value_error.
Qed.

End NoValueError.

Lemma linspace_error (a b : Q) (num : Z) e :
  np.linspace a b num = inl e ->
  num < 0 /\
  e = ValueError ("Number of samples, " ++ str num ++ ", must be non-negative.").
Proof.
  unfold np.linspace, linspace_in. destruct (Z.ltb_spec num 0) as [Hn | Hn].
  - intros H. inversion H. now split.
  - now destruct (Z.to_nat num) as [| [| n]].
Qed.

Lemma py_max_error (l : list Q) e :
  py_max l = inl e -> l = [] /\ e = ValueError "max() arg is an empty sequence".
Proof. destruct l; [intros H; inversion H; now split | discriminate]. Qed.

Lemma py_min_error (l : list Q) e :
  py_min l = inl e -> l = [] /\ e = ValueError "min() arg is an empty sequence".
Proof. destruct l; [intros H; inversion H; now split | discriminate]. Qed.

Lemma partition_dimension_run (cr : CriticalRegion) rest Vf g :
  partition_dimension (mk_es (cr :: rest) Vf) g = (inr (columns cr), [], g).
Proof.
  unfold partition_dimension. simpl critical_regions.
  rewrite getitem_first. now py_run.
Qed.

(** The coordinates [[v[i] for v in vertices]]: an [IndexError] or as many
    numbers as vertices. *)
Lemma sound_vertex_coordinates (E : exn -> Prop) (vertices : list vec) (i : Z) :
  E IndexError ->
  sound (fun _ => True) E (lift (comprehension (fun v => getitem v i) vertices)).
Proof.
  intros HE. apply sound_lift. intros e He.
  apply (comprehension_error _ _ (fun e => e = IndexError)) in He; [now subst |].
  intros a e'. apply getitem_error.
Qed.

(** The errors that [plot_value_function_mpqp] lets through once the
    dimension check has passed: an [IndexError] of a vertex, the
    [ValueError] of [max] on a feasible set without vertices, and the
    [ValueError] of [np.linspace] on a negative resolution. *)
Lemma value_function_after_check (E : exn -> Prop) mpqp cr rest Vf
    (resolution : Z) kw :
  columns cr = 2 ->
  E IndexError ->
  (Polyhedron.vertices (get_feasible_set mpqp) = [] ->
   E (ValueError "max() arg is an empty sequence")) ->
  (resolution < 0 ->
   E (ValueError ("Number of samples, " ++ str resolution
                  ++ ", must be non-negative."))) ->
  sound (fun _ => True) E
        (plot_value_function_mpqp mpqp (mk_es (cr :: rest) Vf) resolution kw).
Proof.
  intros Hcol Hidx Hmax Hlin. unfold plot_value_function_mpqp.
  set (vertices := Polyhedron.vertices (get_feasible_set mpqp)) in *.
  assert (Hlen : forall (i : Z) v g g' w,
            lift (comprehension (fun v => getitem v i) vertices) g = (inr v, w, g') ->
            List.length v = List.length vertices).
  { intros i v g g' w Hrun. apply lift_run in Hrun.
    now apply comprehension_length in Hrun. }
  apply sound_bind.
  { intros g. rewrite (run_calls _ _ _ _ _ (partition_dimension_run cr rest Vf g)),
      (run_result _ _ _ _ _ (partition_dimension_run cr rest Vf g)).
    split; [constructor | discriminate]. }
  intros n g g' w Hn. rewrite partition_dimension_run in Hn.
  assert (Hc : n = columns cr) by congruence. subst n. clear Hn.
  rewrite Hcol. simpl negb. cbv iota.
  apply sound_seq; [apply sound_ret | intros _].
  apply sound_bind; [now apply sound_vertex_coordinates | intros v0 g1 g1' w1 H1].
  apply Hlen in H1.
  apply sound_bind.
  { apply sound_lift. intros e He. apply py_max_error in He.
    destruct He as [Hv ->]. apply Hmax. subst v0.
    destruct vertices; [reflexivity | discriminate]. }
  intros x_max g2 g2' w2 H2. apply lift_run in H2.
  assert (Hne : vertices <> []).
  { intros Hv. rewrite Hv in H1. destruct v0; discriminate. }
  clear H2 H1 v0.
  assert (Hfull : forall (i : Z) v g g' w,
            lift (comprehension (fun v => getitem v i) vertices) g = (inr v, w, g') ->
            v <> []).
  { intros i v g3 g3' w3 Hrun Hv. apply Hlen in Hrun. subst v.
    destruct vertices; [congruence | discriminate]. }
  apply sound_bind; [now apply sound_vertex_coordinates | intros v0 g3 g3' w3 H3].
  apply Hfull in H3.
  apply sound_seq.
  { apply sound_lift. intros e He. apply py_min_error in He. now destruct He. }
  intros x_min.
  apply sound_bind; [now apply sound_vertex_coordinates | intros v1 g4 g4' w4 H4].
  apply Hfull in H4.
  apply sound_seq.
  { apply sound_lift. intros e He. apply py_max_error in He. now destruct He. }
  intros y_max.
  apply sound_bind; [now apply sound_vertex_coordinates | intros v1' g5 g5' w5 H5].
  apply Hfull in H5.
  apply sound_seq.
  { apply sound_lift. intros e He. apply py_min_error in He. now destruct He. }
  intros y_min.
  assert (Hspace : forall a b, sound (fun _ => True) E
                                     (lift (np.linspace a b resolution))).
  { intros a b. apply sound_lift. intros e He. apply linspace_error in He.
    destruct He as [Hr ->]. now apply Hlin. }
  apply sound_seq; [apply Hspace | intros x].
  apply sound_seq; [apply Hspace | intros y].
  unfold np.meshgrid, polyhedron_plot, plt.contour, plt.colorbar, plt.title.
  repeat (apply sound_seq; [now apply sound_emit | intros _]).
  now apply sound_emit.
Qed.

Lemma result_bind_ok {A B : Type} (m : Py A) (k : A -> Py B) g a w g' :
  m g = (inr a, w, g') -> result (bind m k) g = result (k a) g'.
Proof.
  intros H. unfold result. rewrite (bind_ok _ _ _ _ _ _ H).
  now destruct (k a g') as [[r w'] g''].
Qed.

Lemma state_space_check_fails x dim text lbl kw g :
  (len dim =? 2) = false ->
  plot_state_space_trajectory x dim text lbl kw g
  = (inl (ValueError "can plot only 2-dimensional trajectories."), [], g).
Proof. intros H. unfold plot_state_space_trajectory. now rewrite H. Qed.

Lemma partition_check_fails cr rest Vf print kw g :
  (columns cr =? 2) = false ->
  plot_partition_explicit_solution (mk_es (cr :: rest) Vf) print kw g
  = (inl (ValueError "can plot only 2-dimensional partitions."), [], g).
Proof.
  intros H. unfold plot_partition_explicit_solution.
  rewrite (bind_ok _ _ _ _ _ _ (partition_dimension_run cr rest Vf g)).
  now rewrite H.
Qed.

Lemma value_function_check_fails mpqp cr rest Vf resolution kw g :
  (columns cr =? 2) = false ->
  plot_value_function_mpqp mpqp (mk_es (cr :: rest) Vf) resolution kw g
  = (inl (ValueError "can plot only 2-dimensional partitions."), [], g).
Proof.
  intros H. unfold plot_value_function_mpqp.
  rewrite (bind_ok _ _ _ _ _ _ (partition_dimension_run cr rest Vf g)).
  now rewrite H.
Qed.

Lemma partition_check_passes cr rest Vf print kw g :
  (columns cr =? 2) = true ->
  raises_ValueError
    (plot_partition_explicit_solution (mk_es (cr :: rest) Vf) print kw) g
  = false.
Proof.
  intros H. unfold raises_ValueError, plot_partition_explicit_solution.
  rewrite (result_bind_ok _ _ _ _ _ _ (partition_dimension_run cr rest Vf g)).
  rewrite H. simpl negb. cbv iota.
  rewrite (result_bind_ok _ _ g tt [] g eq_refl).
  apply partition_after_check.
Qed.

(** A check that raises [e], a [ValueError], exactly when [b] is false. *)
Lemma check_iff {A : Type} (m : Py A) g (e : exn) (b : bool) :
  is_ValueError e = true ->
  (b = true -> raises_ValueError m g = false) ->
  (b = false -> result m g = inl e) ->
  raises_ValueError m g = negb b /\ (result m g = inl e <-> b = false).
Proof.
  intros He Ht Hf. destruct b; simpl.
  - specialize (Ht eq_refl). split; [exact Ht |]. split; [| discriminate].
    intros H. unfold raises_ValueError in Ht. rewrite H in Ht. congruence.
  - specialize (Hf eq_refl). split; [| tauto].
    unfold raises_ValueError. now rewrite Hf.
Qed.

Lemma trajectory_check_iff x dim text lbl kw g :
  result (plot_state_space_trajectory x dim text lbl kw) g
  = inl (ValueError "can plot only 2-dimensional trajectories.")
  <-> len dim <> 2.
Proof.
  rewrite <- Z.eqb_neq. apply check_iff; [reflexivity | |].
  - apply state_space_after_check.
  - intros H. exact (run_result _ _ _ _ _ (state_space_check_fails _ _ _ _ _ g H)).
Qed.

Lemma value_function_check_iff mpqp cr rest Vf resolution kw g :
  result (plot_value_function_mpqp mpqp (mk_es (cr :: rest) Vf) resolution kw) g
  = inl (ValueError "can plot only 2-dimensional partitions.")
  <-> columns cr <> 2.
Proof.
  rewrite <- Z.eqb_neq. split.
  - intros H. destruct (columns cr =? 2) eqn:E; [| reflexivity].
    apply Z.eqb_eq in E.
    destruct (value_function_after_check
                (fun e => e <> ValueError "can plot only 2-dimensional partitions.")
                mpqp cr rest Vf resolution kw E) with (g := g) as [_ Hr];
      try discriminate.
    exfalso. now apply (Hr _ H).
  - intros H.
    exact (run_result _ _ _ _ _ (value_function_check_fails _ _ _ _ _ _ g H)).
Qed.

(** C2.  [plot_state_space_trajectory] raises a [ValueError] if and only if
    [len(dim)] is different from 2; with [len(dim) == 2] the check raises
    nothing (and no other [ValueError] arises). *)
Theorem state_space_trajectory_dimension_check (x : list vec) (dim : list Z)
    (text : bool) (lbl : option string) (kw : kwargs) (g : RandomState) :
  raises_ValueError (plot_state_space_trajectory x dim text lbl kw) g
  = negb (len dim =? 2) /\
  (result (plot_state_space_trajectory x dim text lbl kw) g
   = inl (ValueError "can plot only 2-dimensional trajectories.")
   <-> len dim <> 2).
Proof.
  rewrite <- Z.eqb_neq. apply check_iff; [reflexivity | |].
  - apply state_space_after_check.
  - intros H. exact (run_result _ _ _ _ _ (state_space_check_fails _ _ _ _ _ g H)).
Qed.

(** C1, as the code has it.  The three 2-d plots make one check of the
    dimension each and raise its [ValueError] exactly when the dimension is
    not 2.  The three time-series plots make no such check: they plot
    sequences of every dimension, one subplot per component, and raise no
    [ValueError] ([plot_output_trajectory]: as long as the states fit the
    columns of [C]). *)
Theorem which_plots_check_the_dimension :
  (forall x dim text lbl kw g,
     result (plot_state_space_trajectory x dim text lbl kw) g
     = inl (ValueError "can plot only 2-dimensional trajectories.")
     <-> len dim <> 2) /\
  (forall cr rest Vf print kw g,
     result (plot_partition_explicit_solution (mk_es (cr :: rest) Vf) print kw) g
     = inl (ValueError "can plot only 2-dimensional partitions.")
     <-> columns cr <> 2) /\
  (forall mpqp cr rest Vf resolution kw g,
     result (plot_value_function_mpqp mpqp (mk_es (cr :: rest) Vf) resolution kw) g
     = inl (ValueError "can plot only 2-dimensional partitions.")
     <-> columns cr <> 2) /\
  (forall u h u_bounds g,
     raises_ValueError (plot_input_sequence u h u_bounds) g = false /\
     (u <> [] -> rectangular u -> bounds_ok (dimension u) u_bounds ->
      result (plot_input_sequence u h u_bounds) g = inr tt)) /\
  (forall x h x_bounds g,
     raises_ValueError (plot_state_trajectory x h x_bounds) g = false /\
     (x <> [] -> rectangular x -> bounds_ok (dimension x) x_bounds ->
      result (plot_state_trajectory x h x_bounds) g = inr tt)) /\
  (forall C x h y_bounds g,
     aligned C x ->
     raises_ValueError (plot_output_trajectory C x h y_bounds) g = false /\
     (bounds_ok (fst (shape C)) y_bounds ->
      result (plot_output_trajectory C x h y_bounds) g = inr tt)).
Proof.
  assert (HP : forall (b : option (list vec)) c,
            is_legend c = false -> (fun _ : call => True) c) by (intros; exact I).
  assert (HL : forall (b : option (list vec)) (hs : list Line2D)
                      (ls : list string) (loc : Z),
            List.length hs = entries b -> List.length ls = entries b ->
            (fun _ : call => True) (Legend hs ls loc)) by (intros; exact I).
  split; [| split; [| split; [| split; [| split]]]].
  - intros x dim text lbl kw g.
    apply (trajectory_check_iff x dim text lbl kw g).
  - intros cr rest Vf print kw g. rewrite <- Z.eqb_neq.
    apply check_iff; [reflexivity | apply partition_check_passes |].
    intros H. exact (run_result _ _ _ _ _ (partition_check_fails _ _ _ _ _ g H)).
  - intros mpqp cr rest Vf resolution kw g.
    apply (value_function_check_iff mpqp cr rest Vf resolution kw g).
  - intros u h u_bounds g. split.
    + apply (raises_ValueError_sound (fun _ => True)).
      now apply (plot_input_sequence_sound _ _ u_bounds (HP u_bounds) (HL u_bounds)).
    + intros Hne Hrect Hb.
      exact (run_result _ _ _ _ _ (plot_input_sequence_runs u h u_bounds g Hne Hrect Hb)).
  - intros x h x_bounds g. split.
    + apply (raises_ValueError_sound (fun _ => True)).
      now apply (plot_state_trajectory_sound _ _ x_bounds (HP x_bounds) (HL x_bounds)).
    + intros Hne Hrect Hb.
      exact (run_result _ _ _ _ _ (plot_state_trajectory_runs x h x_bounds g Hne Hrect Hb)).
  - intros C x h y_bounds g Hal. split.
    + apply (raises_ValueError_sound (fun _ => True)).
      apply (plot_output_trajectory_sound _ _ y_bounds (HP y_bounds) (HL y_bounds));
        try reflexivity.
      intros e He. rewrite (outputs_comprehension C x Hal) in He. discriminate.
    + intros Hb.
      exact (run_result _ _ _ _ _ (plot_output_trajectory_runs C x h y_bounds g Hal Hb)).
Qed.

Lemma which_plots_check_the_dimension_witness :
  (raises_ValueError (plot_input_sequence three_components 1 None) seed0 = false /\
   result (plot_input_sequence three_components 1 None) seed0 = inr tt) /\
  (raises_ValueError (plot_state_trajectory three_components 1 None) seed0 = false /\
   result (plot_state_trajectory three_components 1 None) seed0 = inr tt) /\
  (raises_ValueError
     (plot_output_trajectory three_columns three_components 1 None) seed0 = false /\
   result (plot_output_trajectory three_columns three_components 1 None) seed0
   = inr tt).
Proof.
  destruct which_plots_check_the_dimension as [_ [_ [_ [Hu [Hx Hy]]]]].
  split; [| split].
  - destruct (Hu three_components 1%Q None seed0) as [H1 H2].
    split; [exact H1 |]. apply H2; [discriminate | repeat constructor | exact I].
  - destruct (Hx three_components 1%Q None seed0) as [H1 H2].
    split; [exact H1 |]. apply H2; [discriminate | repeat constructor | exact I].
  - destruct (Hy three_columns three_components 1%Q None seed0) as [H1 H2].
    + repeat constructor.
    + split; [exact H1 |]. apply H2. exact I.
Defined.

(** C1 does not hold as stated: the three time-series plots take a sequence
    of dimension 3 and return without any error. *)
Lemma time_series_plots_do_not_check_dimension :
  dimension three_components = 3%nat /\
  fst (shape three_columns) = 3%nat /\
  result (plot_input_sequence three_components 1 None) seed0 = inr tt /\
  result (plot_state_trajectory three_components 1 None) seed0 = inr tt /\
  result (plot_output_trajectory three_columns three_components 1 None) seed0
  = inr tt.
Proof. repeat split. Qed.

(** ** Determinism and the random colours *)

Lemma det_ret {A : Type} (a : A) : deterministic (ret a).
Proof. intros g g'. now repeat split. Qed.

Lemma det_raise {A : Type} (e : exn) : deterministic (@raise A e).
Proof. intros g g'. now repeat split. Qed.

Lemma det_emit (c : call) : deterministic (emit c).
Proof. intros g g'. now repeat split. Qed.

Lemma det_lift {A : Type} (r : exn + A) : deterministic (lift r).
Proof. destruct r; [apply det_raise | apply det_ret]. Qed.

Lemma det_bind {A B : Type} (m : Py A) (k : A -> Py B) :
  deterministic m -> (forall a, deterministic (k a)) -> deterministic (bind m k).
Proof.
  intros Hm Hk g g'. destruct (Hm g g') as [Hr [Hw Hg]].
  destruct (Hm g' g) as [_ [_ Hg']].
  unfold result, calls, generator, bind in *.
  destruct (m g) as [[r w] g1], (m g') as [[r' w'] g1']. simpl in *. subst.
  destruct r' as [e | a]; [now repeat split |].
  destruct (Hk a g g') as [Kr [Kw Kg]]. unfold result, calls, generator in *.
  destruct (k a g) as [[r1 w1] g2], (k a g') as [[r2 w2] g2']. simpl in *.
  now subst.
Qed.

Lemma det_for {A S : Type} (l : list A) (body : A -> S -> Py S) :
  (forall a s, deterministic (body a s)) -> forall s, deterministic (for_ l body s).
Proof.
  intros H. induction l as [| a l IH]; intros s; simpl.
  - apply det_ret.
  - apply det_bind; auto.
Qed.

Ltac det :=
  unfold plt.subplot, plt.plot, plt.step, plt.text, plt.scatter, plt.xlabel,
    plt.ylabel, plt.xlim, plt.legend, plt.contour, plt.colorbar, plt.title,
    component, plot_bounds, read_bound_plot, partition_dimension,
    polyhedron_plot, np.meshgrid;
  repeat first
    [ apply det_ret | apply det_raise | apply det_emit | apply det_lift
    | apply det_for; intros ? ?
    | apply det_bind; [| intros ?]
    | match goal with
      | |- deterministic (if ?b then _ else _) => destruct b
      | |- deterministic (match ?o with Some _ => _ | None => _ end) =>
          destruct o
      end ].

Lemma plot_state_space_trajectory_det x dim text lbl kw :
  deterministic (plot_state_space_trajectory x dim text lbl kw).
Proof. unfold plot_state_space_trajectory. det. Qed.

Lemma plot_input_sequence_det u h u_bounds :
  deterministic (plot_input_sequence u h u_bounds).
Proof. unfold plot_input_sequence. det. Qed.

Lemma plot_state_trajectory_det x h x_bounds :
  deterministic (plot_state_trajectory x h x_bounds).
Proof. unfold plot_state_trajectory. det. Qed.

Lemma plot_output_trajectory_det C x h y_bounds :
  deterministic (plot_output_trajectory C x h y_bounds).
Proof. unfold plot_output_trajectory. det. Qed.

Lemma plot_value_function_mpqp_det mpqp es resolution kw :
  deterministic (plot_value_function_mpqp mpqp es resolution kw).
Proof. unfold plot_value_function_mpqp. det. Qed.

Lemma region_body_run print kw cr g :
  region_body print kw cr tt g
  = region_drawing print kw cr (rand3_at g 0) (advance g).
Proof.
  unfold region_body, bind, np.random_rand3, rand3_at, advance.
  rewrite after_nil. simpl Nat.mul. now rewrite Nat.add_0_r.
Qed.

(** Drawing a region: the colour does not decide the result, it shows in
    the polyhedron call only, and the generator is not used. *)
Lemma region_drawing_run print kw cr fc g :
  exists r w,
    region_drawing print kw cr fc g = (r, w, g) /\
    (forall fc' g', exists w',
        region_drawing print kw cr fc' g' = (r, w', g') /\
        map erase_facecolor w = map erase_facecolor w') /\
    ((facecolors w = [] /\ exists e, r = inl e) \/ facecolors w = [fc]).
Proof.
  unfold region_drawing, polyhedron_plot, plt.text.
  destruct (has_key "facecolor" kw).
  - do 2 eexists. split; [reflexivity |]. split.
    + intros fc' g'. eexists. split; reflexivity.
    + left. split; [reflexivity | eauto].
  - destruct print.
    + destruct (getitem (Polyhedron.center (polyhedron cr)) 0) as [e0 | c0].
      * do 2 eexists. split; [reflexivity |]. split.
        -- intros fc' g'. eexists. split; reflexivity.
        -- now right.
      * destruct (getitem (Polyhedron.center (polyhedron cr)) 1) as [e1 | c1].
        -- do 2 eexists. split; [reflexivity |]. split.
           ++ intros fc' g'. eexists. split; reflexivity.
           ++ now right.
        -- do 2 eexists. split; [reflexivity |]. split.
           ++ intros fc' g'. eexists. split; reflexivity.
           ++ now right.
    + do 2 eexists. split; [reflexivity |]. split.
      * intros fc' g'. eexists. split; reflexivity.
      * now right.
Qed.

Lemma rand3_at_advance (g : RandomState) (j : nat) :
  rand3_at (advance g) j = rand3_at g (S j).
Proof.
  assert (E : (3 + pos g + 3 * j = pos g + 3 * S j)%nat) by lia.
  unfold rand3_at, advance. cbn [stream pos]. now rewrite E.
Qed.

Lemma facecolors_app (w w' : list call) :
  facecolors (w ++ w') = facecolors w ++ facecolors w'.
Proof. unfold facecolors. now rewrite flat_map_app. Qed.

(** The loop over the critical regions, started on two generators. *)
Lemma regions_loop print kw crs : forall g g',
  result (for_ crs (region_body print kw) tt) g
  = result (for_ crs (region_body print kw) tt) g' /\
  map erase_facecolor (calls (for_ crs (region_body print kw) tt) g)
  = map erase_facecolor (calls (for_ crs (region_body print kw) tt) g') /\
  forall j fc,
    nth_error (facecolors (calls (for_ crs (region_body print kw) tt) g)) j
    = Some fc ->
    fc = rand3_at g j.
Proof.
  induction crs as [| cr crs IH]; intros g g'.
  - repeat split. intros [| j] fc H; discriminate.
  - cbn [for_]. unfold result, calls, bind. rewrite !region_body_run.
    destruct (region_drawing_run print kw cr (rand3_at g 0) (advance g))
      as [r [w [Hrun [Hsim Hcol]]]].
    destruct (Hsim (rand3_at g' 0) (advance g')) as [w' [Hrun' Hw]].
    rewrite Hrun, Hrun'.
    destruct r as [e | []].
    + simpl. repeat split; [exact Hw |]. intros j fc H.
      destruct Hcol as [[Hc _] | Hc]; rewrite Hc in H.
      * destruct j; discriminate.
      * destruct j as [| [| j]]; [| discriminate | discriminate].
        simpl in H. congruence.
    + destruct (IH (advance g) (advance g')) as [Hr [Hc Hf]].
      unfold result, calls in Hr, Hc, Hf.
      destruct (for_ crs (region_body print kw) tt (advance g)) as [[r1 w1] g1].
      destruct (for_ crs (region_body print kw) tt (advance g')) as [[r2 w2] g2].
      simpl in *. repeat split; [exact Hr | |].
      * rewrite !map_app. now rewrite Hw, Hc.
      * intros j fc H. rewrite facecolors_app in H.
        destruct Hcol as [[_ [e He]] | Hcol]; [discriminate |].
        rewrite Hcol in H. destruct j as [| j].
        -- simpl in H. congruence.
        -- simpl in H. rewrite <- rand3_at_advance. now apply Hf.
Qed.

Lemma plot_partition_explicit_solution_run es print kw g :
  plot_partition_explicit_solution es print kw g
  = match critical_regions es with
    | [] => (inl IndexError, [], g)
    | cr :: _ =>
        if columns cr =? 2
        then for_ (critical_regions es) (region_body print kw) tt g
        else (inl (ValueError "can plot only 2-dimensional partitions."), [], g)
    end.
Proof.
  unfold plot_partition_explicit_solution, partition_dimension.
  destruct (critical_regions es) as [| cr crs].
  - now rewrite getitem_nil.
  - rewrite getitem_first. py_run. fold (columns cr).
    destruct (columns cr =? 2); simpl negb; cbv iota; [| reflexivity].
    now py_run.
Qed.

(** C7, as the code has it.  The functions keep no state, and five of them
    are deterministic: the calls they make depend on their arguments only.
    [plot_partition_explicit_solution] draws the face colour of every
    critical region from numpy's global random generator: two calls on the
    same solution and keyword arguments end in the same way and make the
    same calls in the same order up to the face colours, and the face
    colour of the [j]-th polyhedron is the [j]-th triple of numbers that
    the generator holds at the call. *)
Theorem drawing_calls_up_to_facecolors :
  (forall x dim text lbl kw,
     deterministic (plot_state_space_trajectory x dim text lbl kw)) /\
  (forall u h u_bounds, deterministic (plot_input_sequence u h u_bounds)) /\
  (forall x h x_bounds, deterministic (plot_state_trajectory x h x_bounds)) /\
  (forall C x h y_bounds, deterministic (plot_output_trajectory C x h y_bounds)) /\
  (forall mpqp es resolution kw,
     deterministic (plot_value_function_mpqp mpqp es resolution kw)) /\
  (forall es print kw g g',
     result (plot_partition_explicit_solution es print kw) g
     = result (plot_partition_explicit_solution es print kw) g' /\
     map erase_facecolor (calls (plot_partition_explicit_solution es print kw) g)
     = map erase_facecolor (calls (plot_partition_explicit_solution es print kw) g')
     /\
     forall j fc,
       nth_error (facecolors (calls (plot_partition_explicit_solution es print kw)
                                    g)) j = Some fc ->
       fc = rand3_at g j).
Proof.
  split; [exact plot_state_space_trajectory_det |].
  split; [exact plot_input_sequence_det |].
  split; [exact plot_state_trajectory_det |].
  split; [exact plot_output_trajectory_det |].
  split; [exact plot_value_function_mpqp_det |].
  intros es print kw g g'. unfold result, calls.
  rewrite !plot_partition_explicit_solution_run.
  destruct (critical_regions es) as [| cr crs] eqn:E.
  - repeat split. intros [| j] fc H; discriminate.
  - destruct (columns cr =? 2).
    + apply regions_loop.
    + repeat split. intros [| j] fc H; discriminate.
Qed.

Lemma drawing_calls_up_to_facecolors_witness :
  [1 # 5; 1 # 6; 1 # 7]%Q = rand3_at seed0 1.
Proof.
  destruct drawing_calls_up_to_facecolors as [_ [_ [_ [_ [_ H]]]]].
  destruct (H two_regions false [] seed0 seed0) as [_ [_ Hf]].
  apply (Hf 1%nat). reflexivity.
Defined.

(** C7 does not hold as stated: a second call of
    [plot_partition_explicit_solution] on the same solution and keyword
    arguments finds the generator where the first call left it, and colours
    the critical regions differently. *)
Lemma second_call_draws_other_facecolors :
  let first := plot_partition_explicit_solution two_regions false [] in
  facecolors (calls first seed0)
  = [[1 # 2; 1 # 3; 1 # 4]; [1 # 5; 1 # 6; 1 # 7]]%Q /\
  facecolors (calls first (generator first seed0))
  = [[1 # 8; 1 # 9; 1 # 10]; [1 # 11; 1 # 12; 1 # 13]]%Q /\
  calls first seed0 <> calls first (generator first seed0).
Proof.
  split; [reflexivity |]. split; [reflexivity |].
  intros H. apply (f_equal facecolors) in H. vm_compute in H. discriminate.
Qed.

(* ================================================================== *)
(** * Further properties of the plotting functions *)

(** ** Runs that return *)

Lemma after_inv {A : Type} (w : list call) x (a : A) w' g' :
  after w x = (inr a, w', g') ->
  exists w2, x = (inr a, w2, g') /\ w' = w ++ w2.
Proof.
  destruct x as [[r v] g]. simpl. intros H. inversion H; subst. now exists v.
Qed.

Lemma bind_inv {A B : Type} (m : Py A) (k : A -> Py B) g b w g' :
  bind m k g = (inr b, w, g') ->
  exists a w1 g1 w2,
    m g = (inr a, w1, g1) /\ k a g1 = (inr b, w2, g') /\ w = w1 ++ w2.
Proof.
  unfold bind. destruct (m g) as [[[e | a] w1] g1]; [discriminate |].
  intros H. apply after_inv in H. destruct H as [w2 [H ->]].
  now exists a, w1, g1, w2.
Qed.

Lemma lift_inv {A : Type} (r : exn + A) g a w g' :
  lift r g = (inr a, w, g') -> r = inr a /\ w = [] /\ g' = g.
Proof.
  destruct r as [e | b]; unfold lift, raise, ret; intros H; inversion H.
  now subst.
Qed.

Lemma emit_inv (c : call) g a w g' :
  emit c g = (inr a, w, g') -> w = [c] /\ g' = g.
Proof. unfold emit. intros H. inversion H. now subst. Qed.

(** Every iteration of a loop that returns has returned, and the first one
    started from the locals given to the loop. *)
Lemma for_inv {A S : Type} (l : list A) (body : A -> S -> Py S) :
  forall s g s' w g',
    for_ l body s g = (inr s', w, g') ->
    forall a, In a l ->
      exists s1 g1 s2 w2 g2, body a s1 g1 = (inr s2, w2, g2).
Proof.
  induction l as [| a0 l IH]; intros s g s' w g' H a Ha; [destruct Ha |].
  cbn [for_] in H. apply bind_inv in H.
  destruct H as [s1 [w1 [g1 [w2 [Hb [Hl _]]]]]].
  destruct Ha as [<- | Ha]; [now exists s, g, s1, w1, g1 |].
  exact (IH _ _ _ _ _ Hl a Ha).
Qed.

Lemma for_inv_head {A S : Type} (a : A) (l : list A) (body : A -> S -> Py S)
    s g s' w g' :
  for_ (a :: l) body s g = (inr s', w, g') ->
  exists s1 w1 g1, body a s g = (inr s1, w1, g1).
Proof.
  cbn [for_]. intros H. apply bind_inv in H.
  destruct H as [s1 [w1 [g1 [w2 [Hb _]]]]]. now exists s1, w1, g1.
Qed.

Lemma for_range_inv {S : Type} (n : nat) (body : Z -> S -> Py S) s g s' w g' :
  for_ (range (Z.of_nat n)) body s g = (inr s', w, g') ->
  (forall i, (i < n)%nat ->
     exists s1 g1 s2 w2 g2, body (Z.of_nat i) s1 g1 = (inr s2, w2, g2)) /\
  ((0 < n)%nat -> exists s2 w2 g2, body 0 s g = (inr s2, w2, g2)).
Proof.
  rewrite range_of_nat. intros H. split.
  - intros i Hi. apply (for_inv _ _ _ _ _ _ _ H).
    apply in_map, in_seq. lia.
  - intros Hn. destruct n as [| n]; [lia |]. cbn [seq map] in H.
    exact (for_inv_head _ _ _ _ _ _ _ _ H).
Qed.

Lemma comprehension_inv {A B : Type} (f : A -> exn + B) l bs :
  comprehension f l = inr bs -> forall a, In a l -> exists b, f a = inr b.
Proof.
  revert bs. induction l as [| a0 l IH]; intros bs H a Ha; [destruct Ha |].
  simpl in H. destruct (f a0) as [e | b0] eqn:E0; [discriminate |].
  destruct (comprehension f l) as [e | bs'] eqn:El; [discriminate |].
  destruct Ha as [<- | Ha]; [now exists b0 | exact (IH _ eq_refl a Ha)].
Qed.

Lemma getitem_nat_inv {A : Type} (l : list A) (i : nat) a :
  getitem l (Z.of_nat i) = inr a -> (i < List.length l)%nat.
Proof.
  unfold getitem, len.
  destruct (Z.ltb_spec (Z.of_nat i) 0); [lia |].
  destruct (Z.leb_spec 0 (Z.of_nat i)); [| discriminate].
  destruct (Z.ltb_spec (Z.of_nat i) (Z.of_nat (List.length l)));
    [lia | discriminate].
Qed.

Lemma getitem_inv {A : Type} (l : list A) (d : Z) a :
  getitem l d = inr a -> valid_index l d.
Proof.
  unfold getitem, valid_index.
  set (j := if d <? 0 then d + len l else d).
  destruct (Z.leb_spec 0 j), (Z.ltb_spec j (len l)); simpl; try discriminate.
  intros _. subst j. unfold len in *. destruct (Z.ltb_spec d 0); lia.
Qed.

(** The comprehension [[x[k][i] for k in range(len(x))]] returns only if
    every vector has a component [i]. *)
Lemma component_comprehension_inv (x : list vec) (i : nat) ys :
  comprehension (fun k => getitem2 x k (Z.of_nat i)) (range (len x)) = inr ys ->
  Forall (fun v => (i < List.length v)%nat) x.
Proof.
  intros H. apply Forall_forall. intros v Hv.
  destruct (In_nth x v [] Hv) as [k [Hk <-]].
  destruct (comprehension_inv _ _ _ H (Z.of_nat k)) as [b Hb].
  - rewrite range_len. apply in_map, in_seq. lia.
  - unfold getitem2 in Hb. rewrite (getitem_nat x k [] Hk) in Hb.
    exact (getitem_nat_inv _ _ _ Hb).
Qed.

Lemma plot_bounds_inv (t : vec) (i : nat) (bounds : list vec) :
  forall bp g r w g',
    plot_bounds t (Z.of_nat i) bounds bp g = (inr r, w, g') ->
    Forall (fun v => (i < List.length v)%nat) bounds /\
    (bounds = [] -> r = bp).
Proof.
  unfold plot_bounds.
  induction bounds as [| b bs IH]; intros bp g r w g' H.
  - split; [constructor |]. intros _. cbn [for_] in H. unfold ret in H.
    now inversion H.
  - cbn [for_] in H. apply bind_inv in H.
    destruct H as [s1 [w1 [g1 [w2 [Hb [Hl _]]]]]].
    apply bind_inv in Hb. destruct Hb as [b_i [w3 [g3 [w4 [Hg _]]]]].
    apply lift_inv in Hg. destruct Hg as [Hg _].
    split; [| discriminate].
    constructor; [exact (getitem_nat_inv _ _ _ Hg) |].
    exact (proj1 (IH _ _ _ _ _ Hl)).
Qed.

Lemma subplot_tail_inv (bounds : option (list vec)) (t : vec) (i : nat)
    (s : option Line2D) (ylab : string) (hi : Q) (series : Line2D)
    (names : string * string) g r w g' :
  (bound_plot <- match bounds with
                 | Some bs => plot_bounds t (Z.of_nat i) bs s
                 | None => ret s
                 end ;;
   plt.ylabel ylab ;;
   plt.xlim 0 hi ;;
   (if Z.of_nat i =? 0 then
      match bounds with
      | Some _ =>
          b <- read_bound_plot bound_plot ;;
          plt.legend [series; b] [fst names; snd names] 1
      | None => plt.legend [series] [fst names] 1
      end
    else ret tt) ;;
   ret bound_plot) g = (inr r, w, g') ->
  bounds_fit bounds i s.
Proof.
  destruct bounds as [bs |]; [| intros _; exact I].
  intros H. apply bind_inv in H.
  destruct H as [bp [w1 [g1 [w2 [Hb [H _]]]]]].
  apply plot_bounds_inv in Hb. destruct Hb as [Hall Hnil].
  split; [exact Hall |]. intros -> -> ->.
  specialize (Hnil eq_refl). subst bp.
  unfold plt.ylabel, plt.xlim in H. rewrite !bind_emit in H.
  apply after_inv in H. destruct H as [w3 [H _]].
  apply after_inv in H. destruct H as [w4 [H _]].
  change (Z.of_nat 0 =? 0) with true in H. cbv iota in H.
  apply bind_inv in H. destruct H as [u0 [w5 [g5 [w6 [H _]]]]].
  apply bind_inv in H. destruct H as [b [w7 [g7 [w8 [H _]]]]].
  discriminate H.
Qed.

(** From the components that every subplot needs to the shape of the
    arguments. *)
Lemma rectangular_of_components (x : list vec) :
  (forall i, (i < dimension x)%nat ->
             Forall (fun v => (i < List.length v)%nat) x) ->
  rectangular x.
Proof.
  intros H. unfold rectangular. destruct (dimension x) as [| n] eqn:E.
  - apply Forall_forall. intros; lia.
  - eapply Forall_impl; [| exact (H n (Nat.lt_succ_diag_r n))].
    simpl. intros; lia.
Qed.

Lemma bounds_ok_of_fit (n : nat) (bounds : option (list vec)) :
  (forall i, (i < n)%nat -> exists s, bounds_fit bounds i s) ->
  ((0 < n)%nat -> bounds_fit bounds 0 None) ->
  n = 0%nat \/ bounds_ok n bounds.
Proof.
  intros Hall Hfirst. destruct n as [| n]; [now left | right].
  destruct bounds as [bs |]; [| exact I]. split.
  - destruct (Hfirst (Nat.lt_0_succ n)) as [_ H]. now apply H.
  - destruct (Hall n (Nat.lt_succ_diag_r n)) as [s [H _]].
    eapply Forall_impl; [| exact H]. simpl. intros; lia.
Qed.

Lemma result_run {A : Type} (m : Py A) g a :
  result m g = inr a -> exists w g', m g = (inr a, w, g').
Proof.
  unfold result. destruct (m g) as [[r w] g']. simpl. intros ->.
  now exists w, g'.
Qed.

(** X1.  [plot_input_sequence] returns exactly on these arguments: a
    non-empty sequence whose vectors all have the components of the first
    one and, unless the vectors are empty, bounds that are absent or a
    non-empty list of vectors with these components.  (Here and below,
    the calls of pyplot are taken to return.) *)
Theorem plot_input_sequence_returns_iff (u : list vec) (h : Q)
    (u_bounds : option (list vec)) (g : RandomState) :
  result (plot_input_sequence u h u_bounds) g = inr tt <->
  u <> [] /\ rectangular u /\
  (dimension u = 0%nat \/ bounds_ok (dimension u) u_bounds).
Proof.
  split.
  - intros H. apply result_run in H. destruct H as [w [g' H]].
    unfold plot_input_sequence in H.
    apply bind_inv in H. destruct H as [u_0 [w1 [g1 [w2 [H0 [H _]]]]]].
    apply lift_inv in H0. destruct H0 as [H0 _].
    destruct u as [| v u']; [rewrite getitem_nil in H0; discriminate |].
    rewrite getitem_first in H0. inversion H0; subst u_0. clear H0.
    apply bind_inv in H. destruct H as [t [w3 [g3 [w4 [_ [H _]]]]]].
    apply bind_inv in H. destruct H as [s' [w5 [g5 [w6 [H _]]]]].
    change (len v) with (Z.of_nat (dimension (v :: u'))) in H.
    set (u := v :: u') in *.
    destruct (for_range_inv _ _ _ _ _ _ _ H) as [Hall Hhead].
    match type of H with
    | for_ _ ?body _ _ = _ =>
        assert (Hbody : forall (i : nat) s g0 r w0 g0',
                  body (Z.of_nat i) s g0 = (inr r, w0, g0') ->
                  Forall (fun x_k => (i < List.length x_k)%nat) u /\
                  bounds_fit u_bounds i s)
    end.
    { intros i s g0 r w0 g0' Hr. cbv beta in Hr.
      unfold plt.subplot in Hr. rewrite bind_emit in Hr.
      apply after_inv in Hr. destruct Hr as [w7 [Hr _]].
      apply bind_inv in Hr. destruct Hr as [ys [w8 [g8 [w9 [Hc [Hr _]]]]]].
      apply lift_inv in Hc. destruct Hc as [Hc _].
      apply component_comprehension_inv in Hc. split; [exact Hc |].
      apply bind_inv in Hr. destruct Hr as [y0 [wa [ga [wb [_ [Hr _]]]]]].
      rewrite bind_step in Hr. apply after_inv in Hr. destruct Hr as [wc [Hr _]].
      exact (subplot_tail_inv _ _ _ _ _ _ _
               ("Optimal control", "Control bounds") _ _ _ _ Hr). }
    split; [discriminate |]. split.
    + apply rectangular_of_components. intros i Hi.
      destruct (Hall i Hi) as [s1 [g1' [s2 [w2' [g2' Hr]]]]].
      exact (proj1 (Hbody _ _ _ _ _ _ Hr)).
    + apply bounds_ok_of_fit.
      * intros i Hi. destruct (Hall i Hi) as [s1 [g1' [s2 [w2' [g2' Hr]]]]].
        exists s1. exact (proj2 (Hbody _ _ _ _ _ _ Hr)).
      * intros Hn. destruct (Hhead Hn) as [s2 [w2' [g2' Hr]]].
        exact (proj2 (Hbody 0%nat _ _ _ _ _ Hr)).
  - intros [Hne [Hrect [Hzero | Hb]]].
    + destruct u as [| v u']; [congruence |].
      destruct v as [| a v]; [| discriminate].
      unfold result, plot_input_sequence. rewrite getitem_first. py_run.
      rewrite time_points_eq by (unfold len; lia). py_run. reflexivity.
    + exact (run_result _ _ _ _ _
               (plot_input_sequence_runs u h u_bounds g Hne Hrect Hb)).
Qed.

(** X2.  [plot_state_trajectory] returns exactly on these arguments: a
    non-empty trajectory whose states all have the components of the first
    one and, unless the states are empty, bounds that are absent or a
    non-empty list of vectors with these components. *)
Theorem plot_state_trajectory_returns_iff (x : list vec) (h : Q)
    (x_bounds : option (list vec)) (g : RandomState) :
  result (plot_state_trajectory x h x_bounds) g = inr tt <->
  x <> [] /\ rectangular x /\
  (dimension x = 0%nat \/ bounds_ok (dimension x) x_bounds).
Proof.
  split.
  - intros H. apply result_run in H. destruct H as [w [g' H]].
    unfold plot_state_trajectory in H.
    replace (range (len x - 1 + 1)) with (range (len x)) in H
      by (f_equal; lia).
    apply bind_inv in H. destruct H as [x_0 [w1 [g1 [w2 [H0 [H _]]]]]].
    apply lift_inv in H0. destruct H0 as [H0 _].
    destruct x as [| v x']; [rewrite getitem_nil in H0; discriminate |].
    rewrite getitem_first in H0. inversion H0; subst x_0. clear H0.
    apply bind_inv in H. destruct H as [t [w3 [g3 [w4 [_ [H _]]]]]].
    apply bind_inv in H. destruct H as [s' [w5 [g5 [w6 [H _]]]]].
    change (len v) with (Z.of_nat (dimension (v :: x'))) in H.
    set (xs := v :: x') in *.
    destruct (for_range_inv _ _ _ _ _ _ _ H) as [Hall Hhead].
    match type of H with
    | for_ _ ?body _ _ = _ =>
        assert (Hbody : forall (i : nat) s g0 r w0 g0',
                  body (Z.of_nat i) s g0 = (inr r, w0, g0') ->
                  Forall (fun x_k => (i < List.length x_k)%nat) xs /\
                  bounds_fit x_bounds i s)
    end.
    { intros i s g0 r w0 g0' Hr. cbv beta in Hr.
      unfold plt.subplot in Hr. rewrite bind_emit in Hr.
      apply after_inv in Hr. destruct Hr as [w7 [Hr _]].
      apply bind_inv in Hr. destruct Hr as [ys [w8 [g8 [w9 [Hc [Hr _]]]]]].
      apply lift_inv in Hc. destruct Hc as [Hc _].
      apply component_comprehension_inv in Hc. split; [exact Hc |].
      rewrite bind_plot in Hr. apply after_inv in Hr. destruct Hr as [wc [Hr _]].
      exact (subplot_tail_inv _ _ _ _ _ _ _
               ("Optimal trajectory", "State bounds") _ _ _ _ Hr). }
    split; [discriminate |]. split.
    + apply rectangular_of_components. intros i Hi.
      destruct (Hall i Hi) as [s1 [g1' [s2 [w2' [g2' Hr]]]]].
      exact (proj1 (Hbody _ _ _ _ _ _ Hr)).
    + apply bounds_ok_of_fit.
      * intros i Hi. destruct (Hall i Hi) as [s1 [g1' [s2 [w2' [g2' Hr]]]]].
        exists s1. exact (proj2 (Hbody _ _ _ _ _ _ Hr)).
      * intros Hn. destruct (Hhead Hn) as [s2 [w2' [g2' Hr]]].
        exact (proj2 (Hbody 0%nat _ _ _ _ _ Hr)).
  - intros [Hne [Hrect [Hzero | Hb]]].
    + destruct x as [| v x']; [congruence |].
      destruct v as [| a v]; [| discriminate].
      unfold result, plot_state_trajectory. rewrite getitem_first. py_run.
      rewrite time_points_eq by (unfold len; lia). py_run. reflexivity.
    + exact (run_result _ _ _ _ _
               (plot_state_trajectory_runs x h x_bounds g Hne Hrect Hb)).
Qed.

Lemma dot_inv (C : ndarray) (v : vec) y :
  np.dot C v = inr y -> List.length v = snd (shape C).
Proof.
  unfold np.dot. destruct (Nat.eqb_spec (snd (shape C)) (List.length v));
    [congruence | discriminate].
Qed.

Lemma aligned_of_outputs (C : ndarray) (x : list vec) y :
  comprehension (np.dot C) x = inr y -> aligned C x.
Proof.
  intros H. apply Forall_forall. intros v Hv.
  destruct (comprehension_inv _ _ _ H v Hv) as [y_t Hy].
  exact (dot_inv _ _ _ Hy).
Qed.

(** X3.  [plot_output_trajectory] returns exactly on these arguments: states
    with as many components as [C] has columns (an empty sequence of states
    among them) and, unless [C] has no row, bounds that are absent or a
    non-empty list of vectors with a component for every row of [C]. *)
Theorem plot_output_trajectory_returns_iff (C : ndarray) (x : list vec)
    (h : Q) (y_bounds : option (list vec)) (g : RandomState) :
  result (plot_output_trajectory C x h y_bounds) g = inr tt <->
  aligned C x /\
  (fst (shape C) = 0%nat \/ bounds_ok (fst (shape C)) y_bounds).
Proof.
  split.
  - intros H. apply result_run in H. destruct H as [w [g' H]].
    unfold plot_output_trajectory in H.
    apply bind_inv in H. destruct H as [y [w1 [g1 [w2 [H0 [H _]]]]]].
    apply lift_inv in H0. destruct H0 as [H0 _].
    apply aligned_of_outputs in H0. split; [exact H0 |].
    apply bind_inv in H. destruct H as [t [w3 [g3 [w4 [_ [H _]]]]]].
    apply bind_inv in H. destruct H as [s' [w5 [g5 [w6 [H _]]]]].
    destruct (for_range_inv _ _ _ _ _ _ _ H) as [Hall Hhead].
    match type of H with
    | for_ _ ?body _ _ = _ =>
        assert (Hbody : forall (i : nat) s g0 r w0 g0',
                  body (Z.of_nat i) s g0 = (inr r, w0, g0') ->
                  bounds_fit y_bounds i s)
    end.
    { intros i s g0 r w0 g0' Hr. cbv beta in Hr.
      unfold plt.subplot in Hr. rewrite bind_emit in Hr.
      apply after_inv in Hr. destruct Hr as [w7 [Hr _]].
      apply bind_inv in Hr. destruct Hr as [ys [w8 [g8 [w9 [_ [Hr _]]]]]].
      rewrite bind_plot in Hr. apply after_inv in Hr. destruct Hr as [wc [Hr _]].
      exact (subplot_tail_inv _ _ _ _ _ _ _
               ("Optimal trajectory", "Output bounds") _ _ _ _ Hr). }
    apply bounds_ok_of_fit.
    + intros i Hi. destruct (Hall i Hi) as [s1 [g1' [s2 [w2' [g2' Hr]]]]].
      exists s1. exact (Hbody _ _ _ _ _ _ Hr).
    + intros Hn. destruct (Hhead Hn) as [s2 [w2' [g2' Hr]]].
      exact (Hbody 0%nat _ _ _ _ _ Hr).
  - intros [Hal [Hzero | Hb]].
    + unfold result, plot_output_trajectory.
      rewrite (outputs_comprehension C x Hal). py_run.
      rewrite time_points_eq by (unfold len; lia). py_run.
      rewrite Hzero. reflexivity.
    + exact (run_result _ _ _ _ _
               (plot_output_trajectory_runs C x h y_bounds g Hal Hb)).
Qed.

Lemma component_inv {B : Type} (x : list vec) (z : Z) (t : nat)
    (dim : list Z) (k d : Z) (K : Q -> Py B) g b w g' :
  z = Z.of_nat t -> (t < List.length x)%nat -> getitem dim k = inr d ->
  bind (component x z dim k) K g = (inr b, w, g') ->
  valid_index (nth t x []) d /\ exists a, K a g = (inr b, w, g').
Proof.
  intros -> Ht Hd H. unfold component in H. rewrite !bind_assoc in H.
  rewrite (getitem_nat x t [] Ht), bind_lift_ok in H. cbv beta in H.
  rewrite bind_assoc, Hd, bind_lift_ok in H. cbv beta in H.
  apply bind_inv in H. destruct H as [a [w1 [g1 [w2 [Ha [H ->]]]]]].
  apply lift_inv in Ha. destruct Ha as [Ha [-> ->]].
  split; [exact (getitem_inv _ _ _ Ha) | now exists a].
Qed.

Lemma two_indices (dim : list Z) :
  (len dim =? 2) = true -> exists d0 d1, dim = [d0; d1].
Proof.
  unfold len. intros H. apply Z.eqb_eq in H.
  destruct dim as [| d0 [| d1 [| d2 dim]]]; simpl in H; try lia.
  now exists d0, d1.
Qed.

(** X4.  [plot_state_space_trajectory] returns exactly on these arguments:
    two indices in [dim], a trajectory with a first state, both indices
    valid in every state (negative ones count from the end) and, when the
    annotations are wanted, at least two components in every state. *)
Theorem plot_state_space_trajectory_returns_iff (x : list vec) (dim : list Z)
    (text : bool) (lbl : option string) (kw : kwargs) (g : RandomState) :
  result (plot_state_space_trajectory x dim text lbl kw) g = inr tt <->
  exists d0 d1, dim = [d0; d1] /\ x <> [] /\ trajectory_ok x d0 d1 text.
Proof.
  split.
  - intros H. destruct (len dim =? 2) eqn:Edim.
    2: { rewrite (run_result _ _ _ _ _
                    (state_space_check_fails x dim text lbl kw g Edim)) in H.
         discriminate. }
    destruct (two_indices dim Edim) as [d0 [d1 ->]]. exists d0, d1.
    split; [reflexivity |].
    apply result_run in H. destruct H as [w [g' H]].
    unfold plot_state_space_trajectory in H.
    change (negb (len [d0; d1] =? 2)) with false in H. cbv iota in H.
    rewrite bind_ret in H.
    assert (E0 : getitem [d0; d1] 0 = inr d0) by apply getitem_first.
    assert (E1 : getitem [d0; d1] 1 = inr d1) by apply getitem_second.
    apply bind_inv in H. destruct H as [[] [w1 [g1 [w2 [Hseg [H _]]]]]].
    apply bind_inv in H. destruct H as [[] [w3 [g3 [w4 [Htext [H _]]]]]].
    assert (Hne : x <> []).
    { intros ->. unfold component in H. rewrite !bind_assoc in H.
      rewrite getitem_nil in H. discriminate. }
    assert (Hlen : (0 < List.length x)%nat)
      by (destruct x; [congruence | simpl; lia]).
    split; [exact Hne |].
    destruct (component_inv x 0 0 _ 0 d0 _ _ _ _ _ eq_refl Hlen E0 H)
      as [V00 [a Ha]].
    destruct (component_inv x 0 0 _ 1 d1 _ _ _ _ _ eq_refl Hlen E1 Ha)
      as [V01 _].
    replace (len x - 1) with (Z.of_nat (List.length x - 1)) in Hseg
      by (unfold len; lia).
    destruct (for_range_inv _ _ _ _ _ _ _ Hseg) as [Hsegs _].
    fold (len x) in Htext. unfold len in Htext.
    destruct (for_range_inv _ _ _ _ _ _ _ Htext) as [Htexts _].
    apply Forall_forall. intros v Hv.
    destruct (In_nth x v [] Hv) as [k [Hk <-]].
    split; [| split].
    + destruct k as [| t]; [exact V00 |].
      destruct (Hsegs t ltac:(lia)) as [[] [g5 [[] [w5 [g5' Hr]]]]].
      cbv beta in Hr. apply bind_inv in Hr.
      destruct Hr as [[] [w6 [g6 [w7 [_ [Hr _]]]]]].
      destruct (component_inv x _ t _ 0 d0 _ _ _ _ _ eq_refl ltac:(lia) E0 Hr)
        as [_ [a0 Hr1]].
      replace (Z.of_nat t + 1) with (Z.of_nat (S t)) in Hr1 by lia.
      exact (proj1 (component_inv x _ (S t) _ 0 d0 _ _ _ _ _ eq_refl Hk E0 Hr1)).
    + destruct k as [| t]; [exact V01 |].
      destruct (Hsegs t ltac:(lia)) as [[] [g5 [[] [w5 [g5' Hr]]]]].
      cbv beta in Hr. apply bind_inv in Hr.
      destruct Hr as [[] [w6 [g6 [w7 [_ [Hr _]]]]]].
      destruct (component_inv x _ t _ 0 d0 _ _ _ _ _ eq_refl ltac:(lia) E0 Hr)
        as [_ [a0 Hr1]].
      replace (Z.of_nat t + 1) with (Z.of_nat (S t)) in Hr1 by lia.
      destruct (component_inv x _ (S t) _ 0 d0 _ _ _ _ _ eq_refl Hk E0 Hr1)
        as [_ [a1 Hr2]].
      destruct (component_inv x _ t _ 1 d1 _ _ _ _ _ eq_refl ltac:(lia) E1 Hr2)
        as [_ [b0 Hr3]].
      exact (proj1 (component_inv x _ (S t) _ 1 d1 _ _ _ _ _ eq_refl Hk E1 Hr3)).
    + intros ->. destruct (Htexts k Hk) as [[] [g5 [[] [w5 [g5' Hr]]]]].
      cbv beta iota in Hr. apply bind_inv in Hr.
      destruct Hr as [c0 [w6 [g6 [w7 [_ [Hr _]]]]]].
      apply bind_inv in Hr. destruct Hr as [c1 [w8 [g8 [w9 [Hb _]]]]].
      apply lift_inv in Hb. destruct Hb as [Hb _].
      unfold getitem2 in Hb. rewrite (getitem_nat x k [] Hk) in Hb.
      apply (getitem_nat_inv _ 1) in Hb. lia.
  - intros [d0 [d1 [-> [Hne Hok]]]].
    exact (run_result _ _ _ _ _
             (plot_state_space_trajectory_runs x d0 d1 text lbl kw g Hne Hok)).
Qed.

(** ** Misaligned states *)

Lemma alignedb_aligned (C : ndarray) (x : list vec) :
  alignedb C x = true <-> aligned C x.
Proof.
  unfold alignedb, aligned. rewrite forallb_forall, Forall_forall.
  split; intros H v Hv; [apply Nat.eqb_eq | apply Nat.eqb_eq]; auto.
Qed.

Lemma misaligned_outputs (C : ndarray) (x : list vec) :
  alignedb C x = false ->
  comprehension (np.dot C) x = inl (ValueError "shapes not aligned").
Proof.
  induction x as [| v x IH]; [discriminate |]. cbn [alignedb forallb].
  intros H. cbn [comprehension]. unfold np.dot at 1.
  rewrite (Nat.eqb_sym (snd (shape C))).
  destruct (Nat.eqb (List.length v) (snd (shape C))); [| reflexivity].
  simpl in H. now rewrite (IH H).
Qed.

(** X5.  [plot_output_trajectory] raises a [ValueError] exactly when some
    state has not as many components as [C] has columns; it is the error
    of [C.dot], raised before anything is drawn. *)
Theorem plot_output_trajectory_misaligned (C : ndarray) (x : list vec)
    (h : Q) (y_bounds : option (list vec)) (g : RandomState) :
  if alignedb C x
  then raises_ValueError (plot_output_trajectory C x h y_bounds) g = false
  else plot_output_trajectory C x h y_bounds g
       = (inl (ValueError "shapes not aligned"), [], g).
Proof.
  destruct (alignedb C x) eqn:E.
  - apply alignedb_aligned in E.
    apply (raises_ValueError_sound (fun _ => True)).
    apply (plot_output_trajectory_sound _ _ y_bounds); try reflexivity;
      try (intros; exact I).
    intros e He. rewrite (outputs_comprehension C x E) in He. discriminate.
  - unfold plot_output_trajectory. now rewrite (misaligned_outputs C x E).
Qed.

(** ** The lines of the bounds *)

Lemma bound_line_horizontal (t : vec) (i : nat) (bound : vec) :
  horizontal t (nth i bound 0%Q) (bound_line t i bound).
Proof.
  unfold horizontal, bound_line, np.scale, np.ones. simpl.
  repeat split; [now rewrite !length_map |].
  rewrite map_map. apply Forall_forall. intros y Hy.
  apply in_map_iff in Hy. destruct Hy as [a [<- _]]. ring.
Qed.

Lemma bound_lines_horizontal (t : vec) (bounds : option (list vec)) (i : nat) :
  Forall2 (fun bound l => horizontal t (nth i bound 0%Q) l)
          (bounds_list bounds) (bound_lines t bounds i).
Proof.
  unfold bound_lines, bounds_list.
  induction (match bounds with Some bs => bs | None => [] end); simpl;
    constructor; auto using bound_line_horizontal.
Qed.

(** X6.  In the three time-series plots, on well-formed arguments, subplot
    [i] holds the line of the series and then one line per bound, in the
    order of the bounds: a red step line over the time axis of the series,
    constant at component [i] of the bound. *)
Theorem bounds_are_horizontal_lines :
  (forall u h u_bounds g i,
     u <> [] -> rectangular u -> bounds_ok (dimension u) u_bounds ->
     (i < dimension u)%nat ->
     exists series ls,
       ax_lines (axes_at (figure_of (plot_input_sequence u h u_bounds) g)
                         (subplot_position (dimension u) i))
       = series :: ls /\
       Forall2 (fun bound l => horizontal (xdata series) (nth i bound 0%Q) l)
               (bounds_list u_bounds) ls) /\
  (forall x h x_bounds g i,
     x <> [] -> rectangular x -> bounds_ok (dimension x) x_bounds ->
     (i < dimension x)%nat ->
     exists series ls,
       ax_lines (axes_at (figure_of (plot_state_trajectory x h x_bounds) g)
                         (subplot_position (dimension x) i))
       = series :: ls /\
       Forall2 (fun bound l => horizontal (xdata series) (nth i bound 0%Q) l)
               (bounds_list x_bounds) ls) /\
  (forall C x h y_bounds g i,
     aligned C x -> bounds_ok (fst (shape C)) y_bounds ->
     (i < fst (shape C))%nat ->
     exists series ls,
       ax_lines (axes_at (figure_of (plot_output_trajectory C x h y_bounds) g)
                         (subplot_position (fst (shape C)) i))
       = series :: ls /\
       Forall2 (fun bound l => horizontal (xdata series) (nth i bound 0%Q) l)
               (bounds_list y_bounds) ls).
Proof.
  split; [| split].
  - intros u h u_bounds g i Hne Hrect Hb Hi.
    rewrite (run_figure _ _ _ _ _ (plot_input_sequence_runs u h u_bounds g Hne Hrect Hb)).
    destruct (render_time_series (dimension u) (time_points h (len u))
                (inject_Z (len u) * h) (input_line u h) u_bounds u_label
                ("Optimal control", "Control bounds")) as [Hax _].
    destruct (Hax i Hi) as [Hl _]. rewrite Hl. do 2 eexists.
    split; [reflexivity | apply bound_lines_horizontal].
  - intros x h x_bounds g i Hne Hrect Hb Hi.
    rewrite (run_figure _ _ _ _ _ (plot_state_trajectory_runs x h x_bounds g Hne Hrect Hb)).
    destruct (render_time_series (dimension x) (time_points h (len x - 1))
                (inject_Z (len x - 1) * h) (state_line x h) x_bounds x_label
                ("Optimal trajectory", "State bounds")) as [Hax _].
    destruct (Hax i Hi) as [Hl _]. rewrite Hl. do 2 eexists.
    split; [reflexivity | apply bound_lines_horizontal].
  - intros C x h y_bounds g i Hal Hb Hi.
    rewrite (run_figure _ _ _ _ _ (plot_output_trajectory_runs C x h y_bounds g Hal Hb)).
    destruct (render_time_series (fst (shape C)) (time_points h (len x - 1))
                (inject_Z (len x - 1) * h) (output_line C x h) y_bounds y_label
                ("Optimal trajectory", "Output bounds")) as [Hax _].
    destruct (Hax i Hi) as [Hl _]. rewrite Hl. do 2 eexists.
    split; [reflexivity | apply bound_lines_horizontal].
Qed.

Lemma bounds_are_horizontal_lines_witness :
  exists series ls,
    ax_lines (axes_at (figure_of (plot_input_sequence two_vectors (1 # 2)
                                    two_bounds) seed0)
                      (subplot_position (dimension two_vectors) 1))
    = series :: ls /\
    Forall2 (fun bound l => horizontal (xdata series) (nth 1 bound 0%Q) l)
            (bounds_list two_bounds) ls.
Proof.
  apply (proj1 bounds_are_horizontal_lines two_vectors (1 # 2) two_bounds
           seed0 1%nat).
  - discriminate.
  - repeat constructor.
  - split; [discriminate | repeat constructor].
  - unfold dimension, two_vectors. simpl. lia.
Defined.

(** ** The partition *)

Lemma region_drawing_ok (print : bool) kw cr fc g :
  has_key "facecolor" kw = false ->
  (print = true -> (2 <= List.length (Polyhedron.center (polyhedron cr)))%nat) ->
  exists w,
    region_drawing print kw cr fc g = (inr tt, w, g) /\
    map erase_facecolor w = region_drawn print kw cr /\
    facecolors w = [fc].
Proof.
  intros Hkey Hc. unfold region_drawing, polyhedron_plot, region_drawn, plt.text.
  rewrite Hkey. destruct print.
  - specialize (Hc eq_refl). py_run.
    change 0 with (Z.of_nat 0). rewrite (getitem_nat _ 0 0%Q) by lia. py_run.
    change 1 with (Z.of_nat 1). rewrite (getitem_nat _ 1 0%Q) by lia. py_run.
    eexists. split; [reflexivity |]. split; reflexivity.
  - eexists. split; [reflexivity |]. split; reflexivity.
Qed.

Lemma regions_loop_runs (print : bool) kw crs :
  has_key "facecolor" kw = false ->
  (print = true ->
   Forall (fun cr => (2 <= List.length (Polyhedron.center (polyhedron cr)))%nat)
          crs) ->
  forall g, exists w g',
    for_ crs (region_body print kw) tt g = (inr tt, w, g') /\
    map erase_facecolor w = flat_map (region_drawn print kw) crs /\
    facecolors w = map (rand3_at g) (seq 0 (List.length crs)) /\
    stream g' = stream g /\ pos g' = (pos g + 3 * List.length crs)%nat.
Proof.
  intros Hkey. induction crs as [| cr crs IH]; intros Hc g.
  - exists [], g. repeat split. simpl. lia.
  - assert (Hcr : print = true ->
              (2 <= List.length (Polyhedron.center (polyhedron cr)))%nat)
      by (intros Hp; specialize (Hc Hp); now inversion Hc).
    assert (Hcrs : print = true ->
              Forall (fun cr => (2 <= List.length
                                        (Polyhedron.center (polyhedron cr)))%nat)
                     crs)
      by (intros Hp; specialize (Hc Hp); now inversion Hc).
    destruct (region_drawing_ok print kw cr (rand3_at g 0) (advance g) Hkey Hcr)
      as [w1 [Hrun [Her Hfc]]].
    destruct (IH Hcrs (advance g)) as [w2 [g' [Hloop [Her2 [Hfc2 [Hs Hp]]]]]].
    exists (w1 ++ w2), g'. cbn [for_].
    rewrite (bind_ok _ _ _ _ _ _ (eq_trans (region_body_run print kw cr g) Hrun)).
    rewrite Hloop. split; [reflexivity |].
    split; [| split; [| split]].
    + rewrite map_app, Her, Her2. reflexivity.
    + rewrite facecolors_app, Hfc, Hfc2. cbn [List.length seq map app].
      f_equal. rewrite <- seq_shift, map_map.
      apply map_ext. intros j. apply rand3_at_advance.
    + exact Hs.
    + rewrite Hp. unfold advance. cbn [pos List.length]. lia.
Qed.

(** X7.  On the arguments it accepts, [plot_partition_explicit_solution]
    draws every critical region once, in the order of the solution (the
    polyhedron, then the active set at the centre when asked for), colours
    region [j] with the [j]-th triple of numbers of the random generator,
    and leaves the generator three numbers further for every region. *)
Theorem partition_draws_every_region (es : ExplicitSolution) (print : bool)
    (kw : kwargs) (g : RandomState) :
  partition_ok es print kw ->
  let n := List.length (critical_regions es) in
  result (plot_partition_explicit_solution es print kw) g = inr tt /\
  map erase_facecolor (calls (plot_partition_explicit_solution es print kw) g)
  = flat_map (region_drawn print kw) (critical_regions es) /\
  facecolors (calls (plot_partition_explicit_solution es print kw) g)
  = map (rand3_at g) (seq 0 n) /\
  stream (generator (plot_partition_explicit_solution es print kw) g) = stream g /\
  pos (generator (plot_partition_explicit_solution es print kw) g)
  = (pos g + 3 * n)%nat.
Proof.
  intros [[cr [rest [Hcrs Hcol]]] [Hkey Hc]] n. subst n.
  unfold result, calls, generator.
  rewrite plot_partition_explicit_solution_run, Hcrs.
  apply Z.eqb_eq in Hcol. rewrite Hcol. rewrite <- Hcrs.
  destruct (regions_loop_runs print kw (critical_regions es) Hkey Hc g)
    as [w [g' [Hrun H]]].
  rewrite Hrun. simpl. split; [reflexivity | exact H].
Qed.

Lemma partition_draws_every_region_witness :
  result (plot_partition_explicit_solution two_regions true []) seed0 = inr tt /\
  map erase_facecolor
      (calls (plot_partition_explicit_solution two_regions true []) seed0)
  = flat_map (region_drawn true []) (critical_regions two_regions) /\
  facecolors (calls (plot_partition_explicit_solution two_regions true []) seed0)
  = map (rand3_at seed0) (seq 0 (List.length (critical_regions two_regions))) /\
  stream (generator (plot_partition_explicit_solution two_regions true []) seed0)
  = stream seed0 /\
  pos (generator (plot_partition_explicit_solution two_regions true []) seed0)
  = (pos seed0 + 3 * List.length (critical_regions two_regions))%nat.
Proof.
  apply (partition_draws_every_region two_regions true [] seed0).
  split; [| split].
  - exists (mk_cr triangle [0; 2]), [mk_cr triangle []]. now split.
  - reflexivity.
  - intros _. repeat constructor.
Defined.

(** X8.  [plot_partition_explicit_solution] returns exactly on the arguments
    of [partition_ok] ([Polyhedron.plot] is taken to return when no keyword
    is given twice). *)
Theorem plot_partition_returns_iff (es : ExplicitSolution) (print : bool)
    (kw : kwargs) (g : RandomState) :
  result (plot_partition_explicit_solution es print kw) g = inr tt <->
  partition_ok es print kw.
Proof.
  split.
  - intros H. apply result_run in H. destruct H as [w [g' H]].
    rewrite plot_partition_explicit_solution_run in H.
    destruct (critical_regions es) as [| cr rest] eqn:Hcrs; [discriminate |].
    destruct (columns cr =? 2) eqn:Hcol; [| discriminate].
    apply Z.eqb_eq in Hcol.
    assert (Hreg : forall c, In c (cr :: rest) ->
              has_key "facecolor" kw = false /\
              (print = true ->
               (2 <= List.length (Polyhedron.center (polyhedron c)))%nat)).
    { intros c Hin.
      destruct (for_inv _ _ _ _ _ _ _ H c Hin) as [[] [g1 [[] [w2 [g2 Hr]]]]].
      rewrite region_body_run in Hr.
      unfold region_drawing, polyhedron_plot, plt.text in Hr.
      destruct (has_key "facecolor" kw); [discriminate |].
      split; [reflexivity |]. intros ->.
      rewrite bind_emit in Hr. apply after_inv in Hr. destruct Hr as [w3 [Hr _]].
      apply bind_inv in Hr. destruct Hr as [c0 [w4 [g4 [w5 [_ [Hr _]]]]]].
      apply bind_inv in Hr. destruct Hr as [c1 [w6 [g6 [w7 [Hc1 _]]]]].
      apply lift_inv in Hc1. destruct Hc1 as [Hc1 _].
      apply (getitem_nat_inv _ 1) in Hc1. lia. }
    split; [now exists cr, rest |]. split.
    + exact (proj1 (Hreg cr (or_introl eq_refl))).
    + intros Hp. apply Forall_forall. intros c Hin. rewrite Hcrs in Hin.
      exact (proj2 (Hreg c Hin) Hp).
  - intros H. exact (proj1 (partition_draws_every_region es print kw g H)).
Qed.

(** X9.  A face colour among the keyword arguments makes
    [plot_partition_explicit_solution] fail at the first critical region
    with a [TypeError]: nothing is drawn, and the random generator has
    given the three numbers of the colour that was not used. *)
Theorem facecolor_keyword_is_rejected (es : ExplicitSolution) (print : bool)
    (kw : kwargs) (g : RandomState) (cr : CriticalRegion)
    (rest : list CriticalRegion) :
  critical_regions es = cr :: rest -> columns cr = 2 ->
  has_key "facecolor" kw = true ->
  plot_partition_explicit_solution es print kw g
  = (inl (TypeError "got multiple values for keyword argument 'facecolor'"),
     [], mk_rng (stream g) (3 + pos g)).
Proof.
  intros Hcrs Hcol Hkey. rewrite plot_partition_explicit_solution_run, Hcrs.
  apply Z.eqb_eq in Hcol. rewrite Hcol. cbn [for_].
  unfold bind. rewrite region_body_run.
  unfold region_drawing, polyhedron_plot, bind. rewrite Hkey. reflexivity.
Qed.

Lemma facecolor_keyword_is_rejected_witness :
  plot_partition_explicit_solution two_regions false [("facecolor", "red")] seed0
  = (inl (TypeError "got multiple values for keyword argument 'facecolor'"),
     [], mk_rng (stream seed0) (3 + pos seed0)).
Proof.
  apply (facecolor_keyword_is_rejected two_regions false [("facecolor", "red")]
           seed0 (mk_cr triangle [0; 2]) [mk_cr triangle []]); reflexivity.
Defined.

(** ** The value function on a grid *)

Lemma combine_app_eq {A B : Type} (a a' : list A) (b b' : list B) :
  List.length a = List.length b ->
  combine (a ++ a') (b ++ b') = combine a b ++ combine a' b'.
Proof.
  revert b. induction a as [| x a IH]; intros [| y b] H; simpl in *;
    try discriminate; [reflexivity |].
  f_equal. apply IH. congruence.
Qed.

Lemma combine_constant {A B C : Type} (f : A * B -> C) (x : list A) (c : B) :
  map f (combine x (map (fun _ => c) x)) = map (fun a => f (a, c)) x.
Proof. induction x as [| a x IH]; simpl; congruence. Qed.

(** Flattening the two grids, evaluating pointwise and folding the values
    back gives the table of the values. *)
Lemma reshape_meshgrid (f : Q * Q -> Q) (x y : vec) :
  np.reshape (map f (combine (np.ravel (fst (np.meshgrid x y)))
                             (np.ravel (snd (np.meshgrid x y)))))
             (List.length y) (List.length x)
  = map (fun y_i => map (fun x_j => f (x_j, y_i)) x) y.
Proof.
  unfold np.meshgrid, np.ravel. cbn [fst snd].
  induction y as [| y_i y IH]; [reflexivity |].
  cbn [map List.concat List.length np.reshape].
  rewrite combine_app_eq by now rewrite length_map.
  rewrite map_app, combine_constant.
  rewrite firstn_app, skipn_app, length_map, Nat.sub_diag.
  rewrite firstn_all2, skipn_all2 by (rewrite length_map; lia).
  cbn [firstn skipn app]. rewrite app_nil_r. f_equal. exact IH.
Qed.

Lemma fold_max (l : list Q) : forall a,
  let m := fold_left (fun m b => if Qlt_le_dec m b then b else m) l a in
  (a <= m)%Q /\ Forall (fun b => (b <= m)%Q) l /\ (m = a \/ In m l).
Proof.
  induction l as [| b l IH]; intros a; cbn [fold_left].
  - split; [apply Qle_refl |]. split; [constructor | now left].
  - destruct (IH (if Qlt_le_dec a b then b else a)) as [H1 [H2 H3]].
    destruct (Qlt_le_dec a b) as [Hlt | Hle].
    + split; [eapply Qle_trans; [apply Qlt_le_weak, Hlt | exact H1] |].
      split; [now constructor |]. right. destruct H3 as [-> | H3];
        [now left | now right].
    + split; [exact H1 |].
      split; [constructor; [eapply Qle_trans; eassumption | exact H2] |].
      destruct H3 as [-> | H3]; [now left | right; now right].
Qed.

Lemma fold_min (l : list Q) : forall a,
  let m := fold_left (fun m b => if Qlt_le_dec b m then b else m) l a in
  (m <= a)%Q /\ Forall (fun b => (m <= b)%Q) l /\ (m = a \/ In m l).
Proof.
  induction l as [| b l IH]; intros a; cbn [fold_left].
  - split; [apply Qle_refl |]. split; [constructor | now left].
  - destruct (IH (if Qlt_le_dec b a then b else a)) as [H1 [H2 H3]].
    destruct (Qlt_le_dec b a) as [Hlt | Hle].
    + split; [eapply Qle_trans; [exact H1 | apply Qlt_le_weak, Hlt] |].
      split; [now constructor |]. right. destruct H3 as [-> | H3];
        [now left | now right].
    + split; [exact H1 |].
      split; [constructor; [eapply Qle_trans; eassumption | exact H2] |].
      destruct H3 as [-> | H3]; [now left | right; now right].
Qed.

(** [max] and [min] of a non-empty list: an element, and a bound of all. *)
Lemma py_max_spec (l : list Q) :
  l <> [] ->
  exists m, py_max l = inr m /\ In m l /\ Forall (fun b => (b <= m)%Q) l.
Proof.
  destruct l as [| a l]; [congruence |]. intros _. eexists.
  split; [reflexivity |]. destruct (fold_max l a) as [H1 [H2 H3]].
  split; [destruct H3 as [-> | H3]; [now left | now right] | now constructor].
Qed.

Lemma py_min_spec (l : list Q) :
  l <> [] ->
  exists m, py_min l = inr m /\ In m l /\ Forall (fun b => (m <= b)%Q) l.
Proof.
  destruct l as [| a l]; [congruence |]. intros _. eexists.
  split; [reflexivity |]. destruct (fold_min l a) as [H1 [H2 H3]].
  split; [destruct H3 as [-> | H3]; [now left | now right] | now constructor].
Qed.

Lemma coordinates_comprehension (k : nat) (vertices : list vec) :
  Forall (fun v => (k < List.length v)%nat) vertices ->
  comprehension (fun v => getitem v (Z.of_nat k)) vertices
  = inr (coordinates k vertices).
Proof.
  intros H. apply comprehension_ok. intros v Hv.
  rewrite Forall_forall in H. now apply getitem_nat, H.
Qed.

Lemma linspace_returns (a b : Q) (num : Z) :
  0 <= num ->
  exists l, np.linspace a b num = inr l /\ List.length l = Z.to_nat num /\
            (2 <= num -> (hd 0 l == a)%Q /\ last l 0%Q = b).
Proof.
  intros H. unfold np.linspace, linspace_in. destruct (Z.ltb_spec num 0); [lia |].
  destruct (Z.to_nat num) as [| [| n]] eqn:E.
  - exists []. repeat split; lia.
  - eexists. split; [reflexivity |]. repeat split; lia.
  - eexists. split; [reflexivity |]. split.
    + rewrite length_app, length_map, length_seq. simpl. lia.
    + intros Hnum. split; [| apply last_last]. cbn [seq map app hd].
      assert (Hdiv : ~ (inject_Z (num - 1) == 0)%Q).
      { intros Hz.
        assert (Hz' : (inject_Z (num - 1) == inject_Z 0)%Q) by exact Hz.
        rewrite inject_Z_injective in Hz'. lia. }
      unfold linspace_sample. cbn [exact of_int plus minus times over is_zero].
      destruct (Qeq_bool _ 0); change (inject_Z (Z.of_nat 0)) with 0%Q;
        field; exact Hdiv.
Qed.

Lemma at_least_one (vertices : list vec) :
  Forall (fun v => (2 <= List.length v)%nat) vertices ->
  Forall (fun v => (0 < List.length v)%nat) vertices /\
  Forall (fun v => (1 < List.length v)%nat) vertices.
Proof.
  intros H. split; (eapply Forall_impl; [| exact H]); simpl; intros; lia.
Qed.

Lemma coordinates_nonempty (k : nat) (vertices : list vec) :
  vertices <> [] -> coordinates k vertices <> [].
Proof. destruct vertices; [congruence | discriminate]. Qed.

(** The run of [plot_value_function_mpqp] on the arguments it accepts. *)
Lemma plot_value_function_mpqp_runs mpqp es (resolution : Z) kw g :
  value_function_ok mpqp es resolution ->
  let vertices := Polyhedron.vertices (get_feasible_set mpqp) in
  exists x_min x_max y_min y_max x y,
    py_min (coordinates 0 vertices) = inr x_min /\
    py_max (coordinates 0 vertices) = inr x_max /\
    py_min (coordinates 1 vertices) = inr y_min /\
    py_max (coordinates 1 vertices) = inr y_max /\
    np.linspace x_min x_max resolution = inr x /\
    np.linspace y_min y_max resolution = inr y /\
    plot_value_function_mpqp mpqp es resolution kw g
    = (inr tt,
       [PolyhedronPlot (get_feasible_set mpqp) None kw;
        Contour (map (fun _ => x) y) (map (fun y_i => map (fun _ => y_i) x) y)
                (grid_values (V es) x y);
        Colorbar; Title "$V^*(x)$"],
       g).
Proof.
  intros [[cr [rest [Hcrs Hcol]]] [Hne [Hdim Hres]]] vertices. subst vertices.
  destruct (at_least_one _ Hdim) as [H0 H1].
  destruct (py_min_spec _ (coordinates_nonempty 0 _ Hne)) as [x_min [Exmin _]].
  destruct (py_max_spec _ (coordinates_nonempty 0 _ Hne)) as [x_max [Exmax _]].
  destruct (py_min_spec _ (coordinates_nonempty 1 _ Hne)) as [y_min [Eymin _]].
  destruct (py_max_spec _ (coordinates_nonempty 1 _ Hne)) as [y_max [Eymax _]].
  destruct (linspace_returns x_min x_max resolution Hres) as [x [Ex _]].
  destruct (linspace_returns y_min y_max resolution Hres) as [y [Ey _]].
  exists x_min, x_max, y_min, y_max, x, y.
  repeat (split; [assumption |]).
  unfold plot_value_function_mpqp.
  destruct es as [crs Vf]. simpl in Hcrs. subst crs.
  rewrite (bind_ok _ _ _ _ _ _ (partition_dimension_run cr rest Vf g)).
  apply Z.eqb_eq in Hcol. rewrite Hcol. simpl negb. cbv iota. py_run.
  cbv zeta.
  pose proof (coordinates_comprehension 0 _ H0) as C0.
  pose proof (coordinates_comprehension 1 _ H1) as C1.
  change (Z.of_nat 0) with 0 in C0. change (Z.of_nat 1) with 1 in C1.
  rewrite C0. py_run. rewrite Exmax. py_run. rewrite Exmin. py_run.
  rewrite C1. py_run. rewrite Eymax. py_run. rewrite Eymin. py_run.
  rewrite Ex. py_run. rewrite Ey. py_run.
  pose proof (reshape_meshgrid (fun p => Vf [fst p; snd p]) x y) as HR.
  unfold np.meshgrid in *. cbn [fst snd V] in *. rewrite HR, after_nil.
  unfold polyhedron_plot, plt.contour, plt.colorbar, plt.title. py_run.
  reflexivity.
Qed.

(** X10.  On the arguments it accepts, with a resolution of two or more,
    [plot_value_function_mpqp] draws the feasible set, then the contours of
    a square table of values: the abscissae [x] are
    [np.linspace(x_min, x_max, resolution)] and the ordinates [y] are
    [np.linspace(y_min, y_max, resolution)], for the least and greatest
    first and second coordinates of the vertices of the feasible set; row
    [i] and column [j] of the table hold [V([x[j], y[i]])], the abscissae
    run along the rows of [X] and the ordinates along the columns of [Y];
    then the colour bar and the title. *)
Theorem value_function_on_the_grid mpqp es (resolution : Z) kw g :
  value_function_ok mpqp es resolution -> 2 <= resolution ->
  let vertices := Polyhedron.vertices (get_feasible_set mpqp) in
  exists x_min x_max y_min y_max x y,
    py_min (coordinates 0 vertices) = inr x_min /\
    py_max (coordinates 0 vertices) = inr x_max /\
    py_min (coordinates 1 vertices) = inr y_min /\
    py_max (coordinates 1 vertices) = inr y_max /\
    np.linspace x_min x_max resolution = inr x /\
    np.linspace y_min y_max resolution = inr y /\
    List.length x = Z.to_nat resolution /\
    List.length y = Z.to_nat resolution /\
    plot_value_function_mpqp mpqp es resolution kw g
    = (inr tt,
       [PolyhedronPlot (get_feasible_set mpqp) None kw;
        Contour (map (fun _ => x) y) (map (fun y_i => map (fun _ => y_i) x) y)
                (map (fun y_i => map (fun x_j => V es [x_j; y_i]) x) y);
        Colorbar; Title "$V^*(x)$"],
       g).
Proof.
  intros Hok _ vertices. subst vertices.
  destruct (plot_value_function_mpqp_runs mpqp es resolution kw g Hok)
    as [x_min [x_max [y_min [y_max [x [y [Hxmin [Hxmax [Hymin [Hymax
         [Ex [Ey Hrun]]]]]]]]]]]].
  destruct Hok as [_ [_ [_ Hres]]].
  destruct (linspace_returns x_min x_max resolution Hres) as [x' [Ex' [Lx _]]].
  destruct (linspace_returns y_min y_max resolution Hres) as [y' [Ey' [Ly _]]].
  assert (x' = x) by congruence. assert (y' = y) by congruence. subst x' y'.
  exists x_min, x_max, y_min, y_max, x, y.
  repeat (split; [assumption |]). exact Hrun.
Qed.

Lemma value_function_on_the_grid_witness :
  (let vertices := Polyhedron.vertices (get_feasible_set (mk_mpqp triangle)) in
   exists x_min x_max y_min y_max x y,
     py_min (coordinates 0 vertices) = inr x_min /\
     py_max (coordinates 0 vertices) = inr x_max /\
     py_min (coordinates 1 vertices) = inr y_min /\
     py_max (coordinates 1 vertices) = inr y_max /\
     np.linspace x_min x_max 3 = inr x /\
     np.linspace y_min y_max 3 = inr y /\
     List.length x = Z.to_nat 3 /\
     List.length y = Z.to_nat 3 /\
     plot_value_function_mpqp (mk_mpqp triangle) two_regions 3 [] seed0
     = (inr tt,
        [PolyhedronPlot (get_feasible_set (mk_mpqp triangle)) None [];
         Contour (map (fun _ => x) y) (map (fun y_i => map (fun _ => y_i) x) y)
                 (map (fun y_i => map (fun x_j => V two_regions [x_j; y_i]) x) y);
         Colorbar; Title "$V^*(x)$"],
        seed0)) /\
  calls (plot_value_function_mpqp (mk_mpqp triangle) two_regions 3 []) seed0
  = [PolyhedronPlot triangle None [];
     Contour
       [[0 # 2; 1 # 2; 1]; [0 # 2; 1 # 2; 1]; [0 # 2; 1 # 2; 1]]%Q
       [[0 # 2; 0 # 2; 0 # 2]; [1 # 2; 1 # 2; 1 # 2]; [1; 1; 1]]%Q
       [[0 # 4; 2 # 4; 2 # 2]; [2 # 4; 4 # 4; 3 # 2]; [2 # 2; 3 # 2; 2]]%Q;
     Colorbar; Title "$V^*(x)$"].
Proof.
  split; [| reflexivity].
  apply (value_function_on_the_grid (mk_mpqp triangle) two_regions 3 [] seed0);
    [| lia].
  split; [| split; [| split]].
  - exists (mk_cr triangle [0; 2]), [mk_cr triangle []]. now split.
  - discriminate.
  - repeat constructor.
  - lia.
Defined.

(** X11.  With a resolution of two or more, the grid of
    [plot_value_function_mpqp] spans the bounding box of the vertices of the
    feasible set: the abscissae go from the least to the greatest first
    coordinate of a vertex, the ordinates from the least to the greatest
    second coordinate, so every vertex lies between the ends of the grid. *)
Theorem value_function_grid_spans_vertices mpqp es (resolution : Z) kw g :
  value_function_ok mpqp es resolution -> 2 <= resolution ->
  exists x y Zs,
    calls (plot_value_function_mpqp mpqp es resolution kw) g
    = [PolyhedronPlot (get_feasible_set mpqp) None kw;
       Contour (map (fun _ => x) y) (map (fun y_i => map (fun _ => y_i) x) y) Zs;
       Colorbar; Title "$V^*(x)$"] /\
    (exists v, In v (Polyhedron.vertices (get_feasible_set mpqp)) /\
               (hd 0 x == nth 0 v 0)%Q) /\
    (exists v, In v (Polyhedron.vertices (get_feasible_set mpqp)) /\
               last x 0%Q = nth 0 v 0%Q) /\
    (exists v, In v (Polyhedron.vertices (get_feasible_set mpqp)) /\
               (hd 0 y == nth 1 v 0)%Q) /\
    (exists v, In v (Polyhedron.vertices (get_feasible_set mpqp)) /\
               last y 0%Q = nth 1 v 0%Q) /\
    forall v, In v (Polyhedron.vertices (get_feasible_set mpqp)) ->
      (hd 0 x <= nth 0 v 0 <= last x 0)%Q /\
      (hd 0 y <= nth 1 v 0 <= last y 0)%Q.
Proof.
  intros Hok Hres.
  destruct (plot_value_function_mpqp_runs mpqp es resolution kw g Hok)
    as [x_min [x_max [y_min [y_max [x [y [Exmin [Exmax [Eymin [Eymax
         [Ex [Ey Hrun]]]]]]]]]]]].
  destruct Hok as [_ [Hne [_ Hres0]]].
  set (vertices := Polyhedron.vertices (get_feasible_set mpqp)) in *.
  destruct (py_min_spec _ (coordinates_nonempty 0 _ Hne)) as [m1 [E1 [I1 B1]]].
  destruct (py_max_spec _ (coordinates_nonempty 0 _ Hne)) as [m2 [E2 [I2 B2]]].
  destruct (py_min_spec _ (coordinates_nonempty 1 _ Hne)) as [m3 [E3 [I3 B3]]].
  destruct (py_max_spec _ (coordinates_nonempty 1 _ Hne)) as [m4 [E4 [I4 B4]]].
  assert (m1 = x_min) by congruence. assert (m2 = x_max) by congruence.
  assert (m3 = y_min) by congruence. assert (m4 = y_max) by congruence.
  subst m1 m2 m3 m4.
  destruct (linspace_returns x_min x_max resolution Hres0) as [x' [Ex' [_ Hx]]].
  destruct (linspace_returns y_min y_max resolution Hres0) as [y' [Ey' [_ Hy]]].
  assert (x' = x) by congruence. assert (y' = y) by congruence. subst x' y'.
  destruct (Hx Hres) as [Hx0 Hx1]. destruct (Hy Hres) as [Hy0 Hy1].
  unfold coordinates in I1, I2, I3, I4.
  apply in_map_iff in I1, I2, I3, I4.
  exists x, y, (grid_values (V es) x y).
  split; [exact (run_calls _ _ _ _ _ Hrun) |].
  split; [destruct I1 as [v [Hv Hin]]; exists v; split;
          [exact Hin | now rewrite Hx0, Hv] |].
  split; [destruct I2 as [v [Hv Hin]]; exists v; split;
          [exact Hin | now rewrite Hx1, Hv] |].
  split; [destruct I3 as [v [Hv Hin]]; exists v; split;
          [exact Hin | now rewrite Hy0, Hv] |].
  split; [destruct I4 as [v [Hv Hin]]; exists v; split;
          [exact Hin | now rewrite Hy1, Hv] |].
  intros v Hv. rewrite Hx0, Hx1, Hy0, Hy1.
  unfold coordinates in B1, B2, B3, B4.
  rewrite Forall_forall in B1, B2, B3, B4.
  repeat split.
  - apply B1. now apply (in_map (fun v => nth 0 v 0%Q)).
  - apply B2. now apply (in_map (fun v => nth 0 v 0%Q)).
  - apply B3. now apply (in_map (fun v => nth 1 v 0%Q)).
  - apply B4. now apply (in_map (fun v => nth 1 v 0%Q)).
Qed.

Lemma value_function_grid_spans_vertices_witness :
  exists x y Zs,
    calls (plot_value_function_mpqp (mk_mpqp triangle) two_regions 3 []) seed0
    = [PolyhedronPlot (get_feasible_set (mk_mpqp triangle)) None [];
       Contour (map (fun _ => x) y) (map (fun y_i => map (fun _ => y_i) x) y) Zs;
       Colorbar; Title "$V^*(x)$"] /\
    (exists v, In v (Polyhedron.vertices (get_feasible_set (mk_mpqp triangle))) /\
               (hd 0 x == nth 0 v 0)%Q) /\
    (exists v, In v (Polyhedron.vertices (get_feasible_set (mk_mpqp triangle))) /\
               last x 0%Q = nth 0 v 0%Q) /\
    (exists v, In v (Polyhedron.vertices (get_feasible_set (mk_mpqp triangle))) /\
               (hd 0 y == nth 1 v 0)%Q) /\
    (exists v, In v (Polyhedron.vertices (get_feasible_set (mk_mpqp triangle))) /\
               last y 0%Q = nth 1 v 0%Q) /\
    forall v, In v (Polyhedron.vertices (get_feasible_set (mk_mpqp triangle))) ->
      (hd 0 x <= nth 0 v 0 <= last x 0)%Q /\
      (hd 0 y <= nth 1 v 0 <= last y 0)%Q.
Proof.
  apply (value_function_grid_spans_vertices (mk_mpqp triangle) two_regions 3 []
           seed0); [| lia].
  split; [| split; [| split]].
  - exists (mk_cr triangle [0; 2]), [mk_cr triangle []]. now split.
  - discriminate.
  - repeat constructor.
  - lia.
Defined.

Lemma coordinates_comprehension_inv (k : nat) (vertices : list vec) l :
  comprehension (fun v => getitem v (Z.of_nat k)) vertices = inr l ->
  Forall (fun v => (k < List.length v)%nat) vertices /\
  List.length l = List.length vertices.
Proof.
  intros H. split; [| exact (comprehension_length _ _ _ H)].
  apply Forall_forall. intros v Hv.
  destruct (comprehension_inv _ _ _ H v Hv) as [a Ha].
  exact (getitem_nat_inv _ _ _ Ha).
Qed.

(** All that [plot_value_function_mpqp] draws comes after the last
    statement of its own that can raise. *)
Lemma value_function_draws_last mpqp es (resolution : Z) kw g :
  calls (plot_value_function_mpqp mpqp es resolution kw) g <> [] ->
  result (plot_value_function_mpqp mpqp es resolution kw) g = inr tt.
Proof.
  unfold calls, result, plot_value_function_mpqp, partition_dimension.
  rewrite bind_assoc.
  destruct (getitem (critical_regions es) 0) as [e | cr];
    [intros H; now elim H |].
  rewrite bind_lift_ok, bind_ret.
  destruct (negb _); [intros H; now elim H |]. rewrite bind_ret. cbv zeta.
  repeat match goal with
         | |- context [bind (lift ?c) _ _] =>
             destruct c; [intros H; now elim H | rewrite bind_lift_ok]
         end.
  destruct (np.meshgrid _ _) as [X Y]. unfold polyhedron_plot, plt.contour,
    plt.colorbar, plt.title. py_run. reflexivity.
Qed.

(** X12.  [plot_value_function_mpqp] gets through the statements of its
    own (the check, the box of the vertices, the grid) exactly on the
    arguments of [value_function_ok], whatever the keyword arguments are,
    and it is exactly on these arguments that it draws anything: on the
    others it raises before the first drawing call.  (The calls of
    [Polyhedron.plot], [V] and pyplot are taken to return.) *)
Theorem plot_value_function_returns_iff mpqp es (resolution : Z) kw g :
  (result (plot_value_function_mpqp mpqp es resolution kw) g = inr tt <->
   value_function_ok mpqp es resolution) /\
  (calls (plot_value_function_mpqp mpqp es resolution kw) g <> [] <->
   value_function_ok mpqp es resolution).
Proof.
  assert (Hiff : result (plot_value_function_mpqp mpqp es resolution kw) g
                 = inr tt <-> value_function_ok mpqp es resolution);
    [| split; [exact Hiff |];
       split; [intros H; now apply Hiff, value_function_draws_last |];
       intros Hok;
       destruct (plot_value_function_mpqp_runs mpqp es resolution kw g Hok)
         as [x_min [x_max [y_min [y_max [x [y [_ [_ [_ [_ [_ [_ Hrun]]]]]]]]]]]];
       rewrite (run_calls _ _ _ _ _ Hrun); discriminate].
  split.
  - intros H. apply result_run in H. destruct H as [w [g' H]].
    unfold plot_value_function_mpqp in H.
    apply bind_inv in H. destruct H as [n [w1 [g1 [w2 [Hn [H _]]]]]].
    unfold partition_dimension in Hn. apply bind_inv in Hn.
    destruct Hn as [cr [w3 [g3 [w4 [Hcr [Hn _]]]]]].
    apply lift_inv in Hcr. destruct Hcr as [Hcr _].
    destruct (critical_regions es) as [| cr0 rest] eqn:Hcrs;
      [rewrite getitem_nil in Hcr; discriminate |].
    rewrite getitem_first in Hcr. inversion Hcr; subst cr0. clear Hcr.
    unfold ret in Hn. inversion Hn; subst n. clear Hn.
    fold (columns cr) in H.
    destruct (columns cr =? 2) eqn:Hcol; simpl negb in H; cbv iota in H.
    2: { rewrite bind_raise in H. discriminate. }
    rewrite bind_ret in H. cbv zeta in H.
    apply bind_inv in H. destruct H as [v0 [w5 [g5 [w6 [Hv0 [H _]]]]]].
    apply lift_inv in Hv0. destruct Hv0 as [Hv0 _].
    apply (coordinates_comprehension_inv 0) in Hv0. destruct Hv0 as [_ Hlen0].
    apply bind_inv in H. destruct H as [x_max [w7 [g7 [w8 [Hmax [H _]]]]]].
    apply lift_inv in Hmax. destruct Hmax as [Hmax _].
    apply bind_inv in H. destruct H as [v0' [w9 [g9 [wa [_ [H _]]]]]].
    apply bind_inv in H. destruct H as [x_min [wb [gb [wc [_ [H _]]]]]].
    apply bind_inv in H. destruct H as [v1 [wd [gd [we [Hv1 [H _]]]]]].
    apply lift_inv in Hv1. destruct Hv1 as [Hv1 _].
    apply (coordinates_comprehension_inv 1) in Hv1. destruct Hv1 as [Hdim _].
    apply bind_inv in H. destruct H as [y_max [wf [gf [wg [_ [H _]]]]]].
    apply bind_inv in H. destruct H as [v1' [wh [gh [wi [_ [H _]]]]]].
    apply bind_inv in H. destruct H as [y_min [wj [gj [wk [_ [H _]]]]]].
    apply bind_inv in H. destruct H as [x [wl [gl [wm [Hx _]]]]].
    apply lift_inv in Hx. destruct Hx as [Hx _].
    split; [| split; [| split]].
    + exists cr, rest. split; [exact Hcrs | now apply Z.eqb_eq].
    + intros Hnil. rewrite Hnil in Hlen0. destruct v0; discriminate.
    + eapply Forall_impl; [| exact Hdim]. simpl. intros; lia.
    + destruct (Z.ltb_spec resolution 0) as [Hneg | Hpos]; [| exact Hpos].
      unfold np.linspace, linspace_in in Hx. apply Z.ltb_lt in Hneg. rewrite Hneg in Hx.
      discriminate.
  - intros Hok.
    destruct (plot_value_function_mpqp_runs mpqp es resolution kw g Hok)
      as [x_min [x_max [y_min [y_max [x [y [_ [_ [_ [_ [_ [_ Hrun]]]]]]]]]]]].
    exact (run_result _ _ _ _ _ Hrun).
Qed.

(** ** The errors of the two partition plots *)

(** Past its check, [plot_value_function_mpqp] raises the [ValueError] of
    [max] when the feasible set has no vertex. *)
Lemma value_function_no_vertex mpqp cr rest Vf (resolution : Z) kw g :
  columns cr = 2 -> Polyhedron.vertices (get_feasible_set mpqp) = [] ->
  plot_value_function_mpqp mpqp (mk_es (cr :: rest) Vf) resolution kw g
  = (inl (ValueError "max() arg is an empty sequence"), [], g).
Proof.
  intros Hcol Hv. unfold plot_value_function_mpqp.
  rewrite (bind_ok _ _ _ _ _ _ (partition_dimension_run cr rest Vf g)).
  apply Z.eqb_eq in Hcol. rewrite Hcol. simpl negb. cbv iota. py_run.
  cbv zeta. rewrite Hv. reflexivity.
Qed.

(** Past its check and the box of the vertices, it raises the [ValueError]
    of [np.linspace] when the resolution is negative. *)
Lemma value_function_negative_resolution mpqp cr rest Vf (resolution : Z)
    kw g :
  columns cr = 2 -> Polyhedron.vertices (get_feasible_set mpqp) <> [] ->
  Forall (fun v => (2 <= List.length v)%nat)
         (Polyhedron.vertices (get_feasible_set mpqp)) ->
  resolution < 0 ->
  plot_value_function_mpqp mpqp (mk_es (cr :: rest) Vf) resolution kw g
  = (inl (ValueError ("Number of samples, " ++ str resolution
                      ++ ", must be non-negative.")), [], g).
Proof.
  intros Hcol Hne Hdim Hres.
  destruct (at_least_one _ Hdim) as [H0 H1].
  destruct (py_min_spec _ (coordinates_nonempty 0 _ Hne)) as [x_min [Exmin _]].
  destruct (py_max_spec _ (coordinates_nonempty 0 _ Hne)) as [x_max [Exmax _]].
  destruct (py_min_spec _ (coordinates_nonempty 1 _ Hne)) as [y_min [Eymin _]].
  destruct (py_max_spec _ (coordinates_nonempty 1 _ Hne)) as [y_max [Eymax _]].
  unfold plot_value_function_mpqp.
  rewrite (bind_ok _ _ _ _ _ _ (partition_dimension_run cr rest Vf g)).
  apply Z.eqb_eq in Hcol. rewrite Hcol. simpl negb. cbv iota. py_run.
  cbv zeta.
  pose proof (coordinates_comprehension 0 _ H0) as C0.
  pose proof (coordinates_comprehension 1 _ H1) as C1.
  change (Z.of_nat 0) with 0 in C0. change (Z.of_nat 1) with 1 in C1.
  rewrite C0. py_run. rewrite Exmax. py_run. rewrite Exmin. py_run.
  rewrite C1. py_run. rewrite Eymax. py_run. rewrite Eymin. py_run.
  unfold np.linspace, linspace_in.
  rewrite (proj2 (Z.ltb_lt resolution 0) Hres). reflexivity.
Qed.

(** A vertex with fewer than two coordinates is an [IndexError], raised
    before [np.linspace] is reached. *)
Lemma value_function_short_vertex mpqp cr rest Vf (resolution : Z) kw g :
  columns cr = 2 -> Polyhedron.vertices (get_feasible_set mpqp) <> [] ->
  ~ Forall (fun v => (2 <= List.length v)%nat)
           (Polyhedron.vertices (get_feasible_set mpqp)) ->
  plot_value_function_mpqp mpqp (mk_es (cr :: rest) Vf) resolution kw g
  = (inl IndexError, [], g).
Proof.
  intros Hcol Hne Hdim.
  unfold plot_value_function_mpqp.
  rewrite (bind_ok _ _ _ _ _ _ (partition_dimension_run cr rest Vf g)).
  apply Z.eqb_eq in Hcol. rewrite Hcol. simpl negb. cbv iota. py_run.
  cbv zeta.
  destruct (comprehension (fun v => getitem v 0)
              (Polyhedron.vertices (get_feasible_set mpqp))) as [e | v0] eqn:E0.
  { assert (e = IndexError) as ->
      by (apply (comprehension_error _ _ (fun e => e = IndexError) _
                   (fun a e' => getitem_error a 0 e') E0)).
    reflexivity. }
  destruct (coordinates_comprehension_inv 0 _ _ E0) as [_ Hlen0].
  assert (Hv0 : v0 <> []).
  { intros ->. destruct (Polyhedron.vertices (get_feasible_set mpqp));
      [congruence | discriminate]. }
  destruct (py_max_spec _ Hv0) as [x_max [Exmax _]].
  destruct (py_min_spec _ Hv0) as [x_min [Exmin _]].
  py_run. rewrite Exmax. py_run. rewrite Exmin. py_run.
  destruct (comprehension (fun v => getitem v 1)
              (Polyhedron.vertices (get_feasible_set mpqp))) as [e | v1] eqn:E1.
  { assert (e = IndexError) as ->
      by (apply (comprehension_error _ _ (fun e => e = IndexError) _
                   (fun a e' => getitem_error a 1 e') E1)).
    reflexivity. }
  destruct (coordinates_comprehension_inv 1 _ _ E1) as [H1 _].
  exfalso. apply Hdim. eapply Forall_impl; [| exact H1]. simpl. intros; lia.
Qed.

(** C3, as the code has it.  [plot_partition_explicit_solution] raises a
    [ValueError] if and only if the matrix [A] of the polyhedron of the
    first critical region has a number of columns different from 2, and
    [plot_value_function_mpqp] raises the [ValueError] of its check under
    the same condition; the check looks at the first critical region only.
    [plot_value_function_mpqp] raises a [ValueError] in two more cases,
    with two columns: from [max] when the feasible set has no vertex, and
    from [np.linspace] when the resolution is negative (and every vertex
    has its two coordinates, so that [np.linspace] is reached). *)
Theorem partition_dimension_check (cr : CriticalRegion)
    (rest : list CriticalRegion) (Vf : vec -> Q) (print : bool)
    (mpqp : MultiParametricQuadraticProgram) (resolution : Z) (kw : kwargs)
    (g : RandomState) :
  let es := mk_es (cr :: rest) Vf in
  let vertices := Polyhedron.vertices (get_feasible_set mpqp) in
  raises_ValueError (plot_partition_explicit_solution es print kw) g
  = negb (columns cr =? 2) /\
  (result (plot_partition_explicit_solution es print kw) g
   = inl (ValueError "can plot only 2-dimensional partitions.")
   <-> columns cr <> 2) /\
  (result (plot_value_function_mpqp mpqp es resolution kw) g
   = inl (ValueError "can plot only 2-dimensional partitions.")
   <-> columns cr <> 2) /\
  (raises_ValueError (plot_value_function_mpqp mpqp es resolution kw) g = true
   <-> columns cr <> 2 \/
       vertices = [] \/
       (Forall (fun v => (2 <= List.length v)%nat) vertices /\ resolution < 0)).
Proof.
  intros es vertices. subst es vertices.
  destruct (check_iff (plot_partition_explicit_solution (mk_es (cr :: rest) Vf)
                         print kw) g
              (ValueError "can plot only 2-dimensional partitions.")
              (columns cr =? 2) eq_refl) as [H1 H2].
  { apply partition_check_passes. }
  { intros H. exact (run_result _ _ _ _ _ (partition_check_fails _ _ _ _ _ g H)). }
  split; [exact H1 |].
  split; [rewrite <- Z.eqb_neq; exact H2 |].
  split; [apply value_function_check_iff |].
  unfold raises_ValueError.
  destruct (Z.eqb_spec (columns cr) 2) as [Hcol | Hcol].
  2: { rewrite (run_result _ _ _ _ _
                  (value_function_check_fails mpqp cr rest Vf resolution kw g
                     (proj2 (Z.eqb_neq _ _) Hcol))).
       split; [intros _; now left | reflexivity]. }
  destruct (Polyhedron.vertices (get_feasible_set mpqp)) as [| v vs] eqn:Hv.
  { rewrite (run_result _ _ _ _ _
               (value_function_no_vertex mpqp cr rest Vf resolution kw g Hcol Hv)).
    split; [intros _; right; now left | reflexivity]. }
  assert (Hne : Polyhedron.vertices (get_feasible_set mpqp) <> [])
    by (rewrite Hv; discriminate).
  rewrite <- Hv.
  destruct (forallb (fun v => Nat.leb 2 (List.length v))
              (Polyhedron.vertices (get_feasible_set mpqp))) eqn:Hall.
  - assert (Hdim : Forall (fun v => (2 <= List.length v)%nat)
                          (Polyhedron.vertices (get_feasible_set mpqp))).
    { apply Forall_forall. intros w Hw.
      rewrite forallb_forall in Hall. now apply Nat.leb_le, Hall. }
    destruct (Z.ltb_spec resolution 0) as [Hres | Hres].
    + rewrite (run_result _ _ _ _ _
                 (value_function_negative_resolution mpqp cr rest Vf resolution
                    kw g Hcol Hne Hdim Hres)).
      split; [intros _; right; right; now split | reflexivity].
    + assert (Hok : value_function_ok mpqp (mk_es (cr :: rest) Vf) resolution).
      { split; [exists cr, rest; now split |]. now repeat split. }
      destruct (plot_value_function_mpqp_runs mpqp (mk_es (cr :: rest) Vf)
                  resolution kw g Hok)
        as [x_min [x_max [y_min [y_max [x [y [_ [_ [_ [_ [_ [_ Hrun]]]]]]]]]]]].
      rewrite (run_result _ _ _ _ _ Hrun).
      split; [discriminate |].
      intros [H | [H | [_ H]]]; [congruence | congruence | lia].
  - assert (Hdim : ~ Forall (fun v => (2 <= List.length v)%nat)
                            (Polyhedron.vertices (get_feasible_set mpqp))).
    { intros H. rewrite Forall_forall in H.
      assert (forallb (fun v => Nat.leb 2 (List.length v))
                (Polyhedron.vertices (get_feasible_set mpqp)) = true)
        by (apply forallb_forall; intros w Hw; now apply Nat.leb_le, H).
      congruence. }
    rewrite (run_result _ _ _ _ _
               (value_function_short_vertex mpqp cr rest Vf resolution kw g
                  Hcol Hne Hdim)).
    split; [discriminate |].
    intros [H | [H | [H _]]]; [congruence | congruence | contradiction].
Qed.

Lemma partition_dimension_check_witness :
  raises_ValueError
    (plot_partition_explicit_solution two_regions true []) seed0 = false /\
  raises_ValueError
    (plot_partition_explicit_solution
       (mk_es [mk_cr (Polyhedron.mk three_columns [] []) []] (fun _ => 0%Q))
       true []) seed0 = true /\
  raises_ValueError
    (plot_value_function_mpqp (mk_mpqp triangle) two_regions 3 []) seed0
  = false /\
  raises_ValueError
    (plot_value_function_mpqp (mk_mpqp triangle) two_regions (-1) []) seed0
  = true.
Proof.
  destruct (partition_dimension_check (mk_cr triangle [0; 2])
              [mk_cr triangle []] (fun v => fold_left Qplus v 0%Q) true
              (mk_mpqp triangle) 3 [] seed0) as [H1 [_ [_ H4]]].
  destruct (partition_dimension_check
              (mk_cr (Polyhedron.mk three_columns [] []) [])
              [] (fun _ => 0%Q) true (mk_mpqp triangle) 3 [] seed0)
    as [H1' _].
  destruct (partition_dimension_check (mk_cr triangle [0; 2])
              [mk_cr triangle []] (fun v => fold_left Qplus v 0%Q) true
              (mk_mpqp triangle) (-1) [] seed0) as [_ [_ [_ H4']]].
  split; [exact H1 |]. split; [exact H1' |]. split.
  - destruct (raises_ValueError
                (plot_value_function_mpqp (mk_mpqp triangle) two_regions 3 [])
                seed0) eqn:E; [| reflexivity].
    change two_regions
      with (mk_es [mk_cr triangle [0; 2]; mk_cr triangle []]
                  (fun v => fold_left Qplus v 0%Q)) in E.
    apply H4 in E. destruct E as [E | [E | [_ E]]];
      [now elim E | discriminate | lia].
  - apply H4'. right. right. split; [repeat constructor | lia].
Defined.

(** C3 does not hold as stated for [plot_value_function_mpqp]: with a first
    critical region in two dimensions the check is passed, and the function
    still raises a [ValueError] when the resolution is negative (from
    [np.linspace], line 268) or when the feasible set has no vertex (from
    [max], line 262). *)
Lemma value_function_raises_other_value_errors :
  columns (mk_cr triangle [0; 2]) = 2 /\
  plot_value_function_mpqp (mk_mpqp triangle) two_regions (-1) [] seed0
  = (inl (ValueError "Number of samples, -1, must be non-negative."), [],
     seed0) /\
  plot_value_function_mpqp
    (mk_mpqp (Polyhedron.mk (of_rows [[1; 0]]%Q) [] [])) two_regions 3 [] seed0
  = (inl (ValueError "max() arg is an empty sequence"), [], seed0) /\
  raises_ValueError
    (plot_value_function_mpqp (mk_mpqp triangle) two_regions (-1) []) seed0
  = true.
Proof. repeat split; reflexivity. Qed.

(** ** The lines of the state-space plot *)

Lemma later_segments x d0 d1 lbl kw (m : nat) : forall s, (1 <= s)%nat ->
  flat_map (segment_calls x d0 d1 lbl kw) (seq s m)
  = map (fun t => Draw (segment x d0 d1 None kw t)) (seq s m).
Proof.
  induction m as [| m IH]; intros s Hs; [reflexivity |].
  cbn [seq flat_map map]. rewrite IH by lia. unfold segment_calls.
  destruct s; [lia | reflexivity].
Qed.

Lemma all_segments x d0 d1 lbl kw (m : nat) :
  flat_map (segment_calls x d0 d1 lbl kw) (seq 0 m)
  = (if Nat.leb 1 m then [Draw (segment x d0 d1 lbl kw 0)] else []) ++
    map (fun t => Draw (segment x d0 d1 None kw t)) (seq 0 m).
Proof.
  destruct m as [| m]; [reflexivity |].
  cbn [seq flat_map map Nat.leb]. now rewrite later_segments by lia.
Qed.

Lemma filter_draws (ls : list Line2D) (f : Line2D -> call) :
  (forall l, f l = Draw l) -> filter is_draw (map f ls) = map f ls.
Proof.
  intros H. induction ls as [| l ls IH]; [reflexivity |].
  cbn [map filter]. rewrite H at 1. cbn [is_draw]. now rewrite IH.
Qed.

(** X13.  On the arguments it accepts, [plot_state_space_trajectory] draws
    one line per step of the trajectory, from [x[t]] to [x[t+1]] in the
    plane of the two selected components, each with the keyword arguments;
    the first step is drawn twice, the first time with the label, which no
    other line carries; a trajectory of one state gives no line.  The
    initial state is marked by one scatter point, white with a black edge,
    where the first line starts. *)
Theorem state_space_lines (x : list vec) (d0 d1 : Z) (text : bool)
    (lbl : option string) (kw : kwargs) (g : RandomState) :
  x <> [] -> trajectory_ok x d0 d1 text ->
  let w := calls (plot_state_space_trajectory x [d0; d1] text lbl kw) g in
  let line := fun (l : option string) (t : nat) =>
    Draw (mk_line default_style [coord x t d0; coord x (S t) d0]
                  [coord x t d1; coord x (S t) d1] None l kw) in
  filter is_draw w
  = (if Nat.leb 2 (List.length x) then [line lbl 0%nat] else []) ++
    map (line None) (seq 0 (List.length x - 1)) /\
  filter is_scatter w = [Scatter (coord x 0 d0) (coord x 0 d1) "w" "k" 3].
Proof.
  intros Hne Hok w line. subst w line.
  rewrite (run_calls _ _ _ _ _
             (plot_state_space_trajectory_runs x d0 d1 text lbl kw g Hne Hok)).
  unfold state_space_calls. rewrite all_segments, !filter_app.
  assert (Htext : forall (f : call -> bool),
            (forall a b c, f (Text a b c) = false) ->
            filter f (if text then map (annotation x) (seq 0 (List.length x))
                      else []) = []).
  { intros f Hf. destruct text; [| reflexivity].
    induction (seq 0 (List.length x)) as [| t l IH]; [reflexivity |].
    cbn [map filter]. unfold annotation at 1. now rewrite Hf. }
  rewrite !Htext by reflexivity.
  replace (Nat.leb 1 (List.length x - 1)) with (Nat.leb 2 (List.length x))
    by (destruct x as [| a [| b x']]; reflexivity).
  split.
  - cbn [filter is_draw app]. rewrite app_nil_r.
    rewrite <- (map_map (segment x d0 d1 None kw) Draw), filter_draws
      by reflexivity.
    rewrite map_map. destruct (Nat.leb 2 (List.length x)); reflexivity.
  - replace (filter is_scatter
               (map (fun t => Draw (segment x d0 d1 None kw t))
                    (seq 0 (List.length x - 1)))) with (@nil call)
      by (induction (seq 0 (List.length x - 1)); simpl; auto).
    destruct (Nat.leb 2 (List.length x)); reflexivity.
Qed.

Lemma state_space_lines_witness :
  let x := [[1; 2; 7]; [3; 4; 8]; [5; 6; 9]]%Q in
  let w := calls (plot_state_space_trajectory x [2; -2] true (Some "run") [])
                 seed0 in
  let line := fun (l : option string) (t : nat) =>
    Draw (mk_line default_style [coord x t 2; coord x (S t) 2]
                  [coord x t (-2); coord x (S t) (-2)] None l []) in
  filter is_draw w
  = (if Nat.leb 2 (List.length x) then [line (Some "run") 0%nat] else []) ++
    map (line None) (seq 0 (List.length x - 1)) /\
  filter is_scatter w = [Scatter (coord x 0 2) (coord x 0 (-2)) "w" "k" 3].
Proof.
  apply (state_space_lines [[1; 2; 7]; [3; 4; 8]; [5; 6; 9]]%Q 2 (-2) true
           (Some "run") [] seed0).
  - discriminate.
  - unfold trajectory_ok, valid_index, len.
    repeat apply Forall_cons; try apply Forall_nil; simpl; lia.
Defined.

(** ** The time axis across the time-series plots *)

(** X14.  An input sequence of [N] vectors and a state trajectory of [N+1]
    states, plotted with the same time step, are drawn over the same time
    axis and get the same x limits: the [N+1] time points serve the
    [N+1] states and the [N] steps of the input. *)
Theorem input_and_state_share_time_axis (u x : list vec) (h : Q)
    (u_bounds x_bounds : option (list vec)) (g g' : RandomState) (i j : nat) :
  u <> [] -> rectangular u -> bounds_ok (dimension u) u_bounds ->
  x <> [] -> rectangular x -> bounds_ok (dimension x) x_bounds ->
  List.length x = S (List.length u) ->
  (i < dimension u)%nat -> (j < dimension x)%nat ->
  let Fu := figure_of (plot_input_sequence u h u_bounds) g in
  let Fx := figure_of (plot_state_trajectory x h x_bounds) g' in
  exists lu lx,
    hd_error (ax_lines (axes_at Fu (subplot_position (dimension u) i)))
    = Some lu /\
    hd_error (ax_lines (axes_at Fx (subplot_position (dimension x) j)))
    = Some lx /\
    xdata lu = xdata lx /\
    List.length (ydata lu) = List.length (xdata lu) /\
    List.length (ydata lx) = List.length (xdata lx) /\
    ax_xlim (axes_at Fu (subplot_position (dimension u) i))
    = ax_xlim (axes_at Fx (subplot_position (dimension x) j)).
Proof.
  intros Hu1 Hu2 Hu3 Hx1 Hx2 Hx3 Hlen Hi Hj Fu Fx. subst Fu Fx.
  rewrite (run_figure _ _ _ _ _ (plot_input_sequence_runs u h u_bounds g Hu1 Hu2 Hu3)).
  rewrite (run_figure _ _ _ _ _ (plot_state_trajectory_runs x h x_bounds g' Hx1 Hx2 Hx3)).
  destruct (render_time_series (dimension u) (time_points h (len u))
              (inject_Z (len u) * h) (input_line u h) u_bounds u_label
              ("Optimal control", "Control bounds")) as [Hau _].
  destruct (render_time_series (dimension x) (time_points h (len x - 1))
              (inject_Z (len x - 1) * h) (state_line x h) x_bounds x_label
              ("Optimal trajectory", "State bounds")) as [Hax _].
  destruct (Hau i Hi) as [Hlu [_ [Hxu _]]].
  destruct (Hax j Hj) as [Hlx [_ [Hxx _]]].
  rewrite Hlu, Hlx, Hxu, Hxx.
  assert (E : len x - 1 = len u) by (unfold len; lia).
  exists (input_line u h i), (state_line x h j).
  split; [reflexivity |]. split; [reflexivity |].
  unfold input_line, state_line. cbn [xdata ydata]. rewrite E.
  destruct (time_points_axis h (List.length u)) as [_ [Hl _]].
  fold (len u) in Hl. rewrite Hl.
  split; [reflexivity |]. unfold component_series. cbn [List.length].
  rewrite !length_map. unfold vec in *. repeat split; lia.
Qed.

Lemma input_and_state_share_time_axis_witness :
  let Fu := figure_of (plot_input_sequence two_vectors (1 # 2) two_bounds) seed0 in
  let Fx := figure_of (plot_state_trajectory [[1; 2]; [3; 4]; [5; 6]]%Q (1 # 2)
                         None) seed0 in
  exists lu lx,
    hd_error (ax_lines (axes_at Fu (subplot_position (dimension two_vectors) 0)))
    = Some lu /\
    hd_error (ax_lines (axes_at Fx (subplot_position
                                      (dimension [[1; 2]; [3; 4]; [5; 6]]%Q) 1)))
    = Some lx /\
    xdata lu = xdata lx /\
    List.length (ydata lu) = List.length (xdata lu) /\
    List.length (ydata lx) = List.length (xdata lx) /\
    ax_xlim (axes_at Fu (subplot_position (dimension two_vectors) 0))
    = ax_xlim (axes_at Fx (subplot_position
                             (dimension [[1; 2]; [3; 4]; [5; 6]]%Q) 1)).
Proof.
  apply (input_and_state_share_time_axis two_vectors
           [[1; 2]; [3; 4]; [5; 6]]%Q (1 # 2) two_bounds None seed0 seed0 0 1).
  - discriminate.
  - repeat constructor.
  - split; [discriminate | repeat constructor].
  - discriminate.
  - repeat constructor.
  - exact I.
  - reflexivity.
  - unfold dimension, two_vectors. simpl. lia.
  - unfold dimension. simpl. lia.
Defined.

(** ** Labels of the subplots *)

Lemma subplot_position_inj (n i j : nat) :
  subplot_position n i = subplot_position n j -> i = j.
Proof. unfold subplot_position. intros H. inversion H. lia. Qed.

(** Only the last subplot carries the x label. *)
Lemma time_series_xlabels (n : nat) (t : vec) (hi : Q) (line : nat -> Line2D)
    bounds (ylab : Z -> string) names (i : nat) :
  (i < n)%nat ->
  ax_xlabel
    (axes_at (render new_figure
                (flat_map (subplot_calls n t hi line bounds ylab names) (seq 0 n)
                 ++ [Xlabel "$t$"]))
             (subplot_position n i))
  = if Nat.eqb (S i) n then Some "$t$" else None.
Proof.
  intros Hi. rewrite render_app.
  destruct (render_subplots n t hi line bounds ylab names new_figure n)
    as [Hin [_ Hcur]].
  set (F0 := render new_figure
               (flat_map (subplot_calls n t hi line bounds ylab names)
                         (seq 0 n))) in *.
  change (render F0 [Xlabel "$t$"])
    with (set_axes F0 (gca F0) (artist (Xlabel "$t$") (axes_at F0 (gca F0)))).
  rewrite axes_at_set. destruct n as [| m]; [lia |].
  assert (Hg : gca F0 = subplot_position (S m) m) by (unfold gca; now rewrite Hcur).
  rewrite Hg. destruct (Nat.eqb_spec (S i) (S m)) as [E | E].
  - assert (i = m) by lia. subst i. now rewrite position_eqb_refl.
  - rewrite position_eqb_neq.
    + now rewrite (Hin i Hi).
    + intros Hp. apply subplot_position_inj in Hp. lia.
Qed.

(** X15.  In the three time-series plots, on well-formed arguments, the x
    label [$t$] is on the last subplot only: the subplots above it have no
    x label. *)
Theorem time_label_on_last_subplot_only :
  (forall u h u_bounds g i,
     u <> [] -> rectangular u -> bounds_ok (dimension u) u_bounds ->
     (i < dimension u)%nat ->
     ax_xlabel (axes_at (figure_of (plot_input_sequence u h u_bounds) g)
                        (subplot_position (dimension u) i))
     = if Nat.eqb (S i) (dimension u) then Some "$t$" else None) /\
  (forall x h x_bounds g i,
     x <> [] -> rectangular x -> bounds_ok (dimension x) x_bounds ->
     (i < dimension x)%nat ->
     ax_xlabel (axes_at (figure_of (plot_state_trajectory x h x_bounds) g)
                        (subplot_position (dimension x) i))
     = if Nat.eqb (S i) (dimension x) then Some "$t$" else None) /\
  (forall C x h y_bounds g i,
     aligned C x -> bounds_ok (fst (shape C)) y_bounds ->
     (i < fst (shape C))%nat ->
     ax_xlabel (axes_at (figure_of (plot_output_trajectory C x h y_bounds) g)
                        (subplot_position (fst (shape C)) i))
     = if Nat.eqb (S i) (fst (shape C)) then Some "$t$" else None).
Proof.
  split; [| split].
  - intros u h u_bounds g i Hne Hrect Hb Hi.
    rewrite (run_figure _ _ _ _ _ (plot_input_sequence_runs u h u_bounds g Hne Hrect Hb)).
    now apply time_series_xlabels.
  - intros x h x_bounds g i Hne Hrect Hb Hi.
    rewrite (run_figure _ _ _ _ _ (plot_state_trajectory_runs x h x_bounds g Hne Hrect Hb)).
    now apply time_series_xlabels.
  - intros C x h y_bounds g i Hal Hb Hi.
    rewrite (run_figure _ _ _ _ _ (plot_output_trajectory_runs C x h y_bounds g Hal Hb)).
    now apply time_series_xlabels.
Qed.

Lemma time_label_on_last_subplot_only_witness :
  ax_xlabel (axes_at (figure_of (plot_input_sequence two_vectors (1 # 2)
                                   two_bounds) seed0)
                     (subplot_position (dimension two_vectors) 0))
  = if Nat.eqb 1 (dimension two_vectors) then Some "$t$" else None.
Proof.
  apply (proj1 time_label_on_last_subplot_only two_vectors (1 # 2) two_bounds
           seed0 0%nat).
  - discriminate.
  - repeat constructor.
  - split; [discriminate | repeat constructor].
  - unfold dimension, two_vectors. simpl. lia.
Defined.

(** X16.  On well-formed arguments, [plot_output_trajectory] calls
    [plt.xlim((0., N*h))] with [N = len(x) - 1] in every subplot: the x
    limits are [(0, N*h)] when [N*h] is not singular (at least
    [1e21 * 2 ** -1022] in absolute value; so for an empty sequence of
    states and such an [h] they are [(0, -h)]), and [(-0.05, 0.05)] when
    [N*h] is zero, as it is for a single state.  Subplot [i] (from 0) has
    the y label [$y_{i+1}$]. *)
Theorem output_axis_labels_and_limits (C : ndarray) (x : list vec) (h : Q)
    (y_bounds : option (list vec)) (g : RandomState) (i : nat) :
  aligned C x -> bounds_ok (fst (shape C)) y_bounds ->
  (i < fst (shape C))%nat ->
  let a := axes_at (figure_of (plot_output_trajectory C x h y_bounds) g)
                   (subplot_position (fst (shape C)) i) in
  let Nh := (inject_Z (len x - 1) * h)%Q in
  ((smallest_range <= Qabs Nh)%Q -> ax_xlim a = Some (0%Q, Nh)) /\
  ((Nh == 0)%Q -> ax_xlim a = Some ((-1 # 20)%Q, (1 # 20)%Q)) /\
  (len x = 1 -> ax_xlim a = Some ((-1 # 20)%Q, (1 # 20)%Q)) /\
  ax_ylabel a = Some ("$y_{" ++ str (Z.of_nat i + 1) ++ "}$")%string.
Proof.
  intros Hal Hb Hi a Nh. subst a Nh.
  rewrite (run_figure _ _ _ _ _ (plot_output_trajectory_runs C x h y_bounds g Hal Hb)).
  destruct (render_time_series (fst (shape C)) (time_points h (len x - 1))
              (inject_Z (len x - 1) * h) (output_line C x h) y_bounds y_label
              ("Optimal trajectory", "Output bounds")) as [Hax _].
  destruct (Hax i Hi) as [_ [Hy [Hx _]]]. rewrite Hx.
  split; [intros H; now rewrite set_lim_regular |].
  split; [intros H; now rewrite set_lim_zero |].
  split; [| exact Hy].
  intros H. rewrite H. rewrite set_lim_zero; [reflexivity |].
  change (inject_Z (1 - 1)) with 0%Q. ring.
Qed.

Lemma output_axis_labels_and_limits_witness :
  let a := axes_at (figure_of (plot_output_trajectory sum_matrix two_vectors
                                 (1 # 2) two_bounds) seed0)
                   (subplot_position 1 0) in
  let b := axes_at (figure_of (plot_output_trajectory sum_matrix [] (1 # 2)
                                 two_bounds) seed0)
                   (subplot_position 1 0) in
  let c := axes_at (figure_of (plot_output_trajectory sum_matrix [[7; 8]]%Q
                                 (1 # 2) two_bounds) seed0)
                   (subplot_position 1 0) in
  ax_xlim a = Some (0%Q, (1 # 2)%Q) /\ ax_ylabel a = Some "$y_{1}$" /\
  ax_xlim b = Some (0%Q, (-1 # 2)%Q) /\
  ax_xlim c = Some ((-1 # 20)%Q, (1 # 20)%Q).
Proof.
  assert (Hb : bounds_ok (fst (shape sum_matrix)) two_bounds)
    by (split; [discriminate | repeat constructor]).
  assert (Hi : (0 < fst (shape sum_matrix))%nat) by (simpl; lia).
  destruct (output_axis_labels_and_limits sum_matrix two_vectors (1 # 2)
              two_bounds seed0 0%nat) as [Ha [_ [_ Hy]]];
    [repeat constructor | exact Hb | exact Hi |].
  destruct (output_axis_labels_and_limits sum_matrix [] (1 # 2)
              two_bounds seed0 0%nat) as [Hb' _];
    [constructor | exact Hb | exact Hi |].
  destruct (output_axis_labels_and_limits sum_matrix [[7; 8]]%Q (1 # 2)
              two_bounds seed0 0%nat) as [_ [_ [Hc _]]];
    [repeat constructor | exact Hb | exact Hi |].
  split; [apply Ha; vm_compute; discriminate |].
  split; [exact Hy |].
  split; [apply Hb'; vm_compute; discriminate | exact (Hc eq_refl)].
Defined.

(** ** Empty arguments *)

(** X17.  What the functions do with nothing to plot.  On an empty input
    sequence or state trajectory, [plot_input_sequence] and
    [plot_state_trajectory] raise [IndexError] at [u[0]] and [x[0]] before
    any call to pyplot; [plot_state_space_trajectory], given two dimensions,
    skips both loops and raises [IndexError] at the scatter of [x[0]];
    [plot_partition_explicit_solution] raises [IndexError] at
    [critical_regions[0]] without drawing a random number.
    [plot_output_trajectory] does not index [x]: on an empty trajectory it
    returns, and the line of every subplot has no points. *)
Theorem nothing_to_plot :
  (forall h u_bounds g,
     plot_input_sequence [] h u_bounds g = (inl IndexError, [], g)) /\
  (forall h x_bounds g,
     plot_state_trajectory [] h x_bounds g = (inl IndexError, [], g)) /\
  (forall dim text lbl kw g,
     len dim = 2 ->
     plot_state_space_trajectory [] dim text lbl kw g
     = (inl IndexError, [], g)) /\
  (forall es print kw g,
     critical_regions es = [] ->
     plot_partition_explicit_solution es print kw g
     = (inl IndexError, [], g)) /\
  (forall C h y_bounds g i,
     bounds_ok (fst (shape C)) y_bounds -> (i < fst (shape C))%nat ->
     result (plot_output_trajectory C [] h y_bounds) g = inr tt /\
     hd_error
       (ax_lines (axes_at (figure_of (plot_output_trajectory C [] h y_bounds) g)
                          (subplot_position (fst (shape C)) i)))
     = Some (mk_line default_style [] [] (Some "b") None [])).
Proof.
  split; [reflexivity |]. split; [reflexivity |]. split; [| split].
  - intros dim text lbl kw g Hdim. unfold plot_state_space_trajectory.
    rewrite Hdim. destruct dim as [| d0 [| d1 [| d2 dim]]];
      try (unfold len in Hdim; simpl List.length in Hdim; lia).
    reflexivity.
  - intros es print kw g Hes. unfold plot_partition_explicit_solution,
      partition_dimension. rewrite Hes. reflexivity.
  - intros C h y_bounds g i Hb Hi.
    assert (Hal : aligned C []) by constructor.
    pose proof (plot_output_trajectory_runs C [] h y_bounds g Hal Hb) as Hrun.
    rewrite (run_figure _ _ _ _ _ Hrun), (run_result _ _ _ _ _ Hrun).
    split; [reflexivity |].
    destruct (render_time_series (fst (shape C)) (time_points h (len (@nil vec) - 1))
                (inject_Z (len (@nil vec) - 1) * h) (output_line C [] h) y_bounds
                y_label ("Optimal trajectory", "Output bounds")) as [Hax _].
    destruct (Hax i Hi) as [Hl _]. rewrite Hl. reflexivity.
Qed.

Lemma nothing_to_plot_witness :
  plot_state_space_trajectory [] [0; 1] true None [] seed0
  = (inl IndexError, [], seed0) /\
  plot_partition_explicit_solution (mk_es [] (fun _ => 0%Q)) true [] seed0
  = (inl IndexError, [], seed0) /\
  hd_error
    (ax_lines (axes_at (figure_of (plot_output_trajectory sum_matrix [] (1 # 2)
                                     two_bounds) seed0)
                       (subplot_position (fst (shape sum_matrix)) 0)))
  = Some (mk_line default_style [] [] (Some "b") None []).
Proof.
  destruct nothing_to_plot as [_ [_ [Hs [Hp Ho]]]].
  split; [apply Hs; reflexivity |]. split; [apply Hp; reflexivity |].
  apply (Ho sum_matrix (1 # 2) two_bounds seed0 0%nat).
  - split; [discriminate | repeat constructor].
  - simpl. lia.
Defined.

(** ** The state trajectory *)


